(** * Vacancy pipeline: API client, record normalizer, persistence layer

    A shallow embedding of the Python sources [api_manager.py],
    [vacancy_manager.py], [query_manager.py] (with the schema of
    [db_manager.py]) and of the insertion loop of [main.py], followed by the
    properties of the pipeline.

    Python values are dynamically typed, so the payloads coming from the API
    are modelled by one type [json] of decoded JSON values; operations that
    Python rejects at run time return [Raise e] in the [result] monad. *)

From Stdlib Require Import ZArith QArith List String Ascii Bool Lia.
From Stdlib Require Import Permutation Sorted.
Import ListNotations.
Close Scope Q_scope.
Open Scope string_scope.
Open Scope list_scope.
Open Scope Z_scope.

(** ** Exceptions and the error monad *)

(** The exception classes that the modelled code raises or names in an
    [except] clause.  [ConnectionError], [HTTPError], [Timeout] and
    [JSONDecodeError] are subclasses of
    [requests.exceptions.RequestException]; the last one, which
    [response.json()] raises on a body that does not decode, is a subclass
    of [ValueError] as well.  [PgError] stands for [psycopg2.Error] and its
    subclasses. *)
Inductive exn : Type :=
| KeyError | ValueError | TypeError | AttributeError | OverflowError
| ConnectionError | HTTPError | Timeout | JSONDecodeError
| PgError.

Inductive result (A : Type) : Type :=
| Return (a : A)
| Raise (e : exn).
Arguments Return {A} a.
Arguments Raise {A} e.

Definition bind {A B : Type} (m : result A) (k : A -> result B) : result B :=
  match m with
  | Return a => k a
  | Raise e => Raise e
  end.

Notation "x <- m ;; k" := (bind m (fun x => k))
  (at level 61, m at next level, right associativity).

(** [try m except cls: h]: an exception of a class accepted by [cls] is
    handled by [h], any other one propagates. *)
Definition try_except {A : Type} (m : result A) (cls : exn -> bool)
    (h : exn -> result A) : result A :=
  match m with
  | Return a => Return a
  | Raise e => if cls e then h e else Raise e
  end.

(** ** Text

    A [str] is held as the string of the bytes of its UTF-8 encoding: a
    character is a lead byte followed by its continuation bytes, those of
    the form 10xxxxxx. *)
Definition is_ascii_char (c : ascii) : bool := (nat_of_ascii c <? 128)%nat.

Definition is_continuation (c : ascii) : bool :=
  let n := nat_of_ascii c in
  ((128 <=? n)%nat && (n <? 192)%nat)%bool.

(** The characters of a text, in order. *)
Fixpoint characters (s : list ascii) : list (list ascii) :=
  match s with
  | [] => []
  | c :: t =>
      match characters t with
      | ((d :: _) as ch) :: rest =>
          if is_continuation d then (c :: ch) :: rest else [c] :: ch :: rest
      | rest => [c] :: rest
      end
  end.

(** The first [n] characters of a text, and what follows them. *)
Fixpoint clip (n : nat) (s : list ascii) : list ascii * list ascii :=
  match s with
  | [] => ([], [])
  | c :: t =>
      if is_continuation c
      then let (kept, excess) := clip n t in (c :: kept, excess)
      else
        match n with
        | O => ([], s)
        | S n' => let (kept, excess) := clip n' t in (c :: kept, excess)
        end
  end.

(** What follows the continuation bytes at the head of a text. *)
Fixpoint rest_of_character (s : list ascii) : list ascii :=
  match s with
  | c :: t => if is_continuation c then rest_of_character t else s
  | [] => []
  end.

(** ** Decoded JSON values *)

(** A Python [float]: a finite value (kept as the rational it denotes), a NaN
    or an infinity ([json.loads] accepts the literals NaN and Infinity). *)
Inductive pyfloat : Type :=
| FFinite (q : Q)
| FNan
| FInf (negative : bool).

#[local] Set Warnings "-register-all".
Inductive json : Type :=
| JNull
| JBool (b : bool)
| JInt (n : Z)
| JFloat (f : pyfloat)
| JStr (s : string)
| JList (l : list json)
| JDict (d : list (string * json)).

Fixpoint lookup (k : string) (d : list (string * json)) : option json :=
  match d with
  | [] => None
  | (k', v) :: d' => if String.eqb k k' then Some v else lookup k d'
  end.

(** [x.get(k, default)]: only dictionaries have a [get] method. *)
Definition py_get (x : json) (k : string) (default : json) : result json :=
  match x with
  | JDict d =>
      Return (match lookup k d with Some v => v | None => default end)
  | _ => Raise AttributeError
  end.

Definition is_none (x : json) : bool :=
  match x with JNull => true | _ => false end.

(** *** The builtin [int] *)

(** The white space that the parser of integers skips: tab, line feed,
    vertical tab, form feed, carriage return and space. *)
Definition is_space (c : ascii) : bool :=
  let n := nat_of_ascii c in
  ((9 <=? n)%nat && (n <=? 13)%nat) || (n =? 32)%nat.

Fixpoint lstrip (s : list ascii) : list ascii :=
  match s with
  | c :: t => if is_space c then lstrip t else s
  | [] => []
  end.

Definition strip (s : list ascii) : list ascii :=
  rev (lstrip (rev (lstrip s))).

Definition digit_val (c : ascii) : option Z :=
  let n := nat_of_ascii c in
  if ((48 <=? n)%nat && (n <=? 57)%nat)%bool
  then Some (Z.of_nat (n - 48)) else None.

(** Decimal digits, with single underscores allowed between two digits. *)
Fixpoint digits (acc : Z) (after_digit : bool) (s : list ascii) : option Z :=
  match s with
  | [] => if after_digit then Some acc else None
  | c :: t =>
      match digit_val c with
      | Some d => digits (10 * acc + d) true t
      | None =>
          if (Ascii.eqb c "_" && after_digit)%bool
          then digits acc false t else None
      end
  end.

Section Int.

(** Before it parses a [str] that holds a character beyond ASCII, [int]
    rewrites it into ASCII: a Unicode white space becomes a space, a Unicode
    decimal digit the ASCII digit of its value, and the text is cut at the
    first other character beyond ASCII, a question mark standing for it.
    The rewriting reads the Unicode tables of the interpreter and is a
    parameter; an ASCII text is parsed as it is. *)
Variable ascii_form : string -> string.

(** [int(s)] for a string [s] in base 10: surrounding white space is
    dropped, one sign is allowed. *)
Definition int_of_str (s : string) : option Z :=
  let s :=
    if forallb is_ascii_char (list_ascii_of_string s) then s
    else ascii_form s in
  match strip (list_ascii_of_string s) with
  | c :: t =>
      if Ascii.eqb c "-" then option_map Z.opp (digits 0 false t)
      else if Ascii.eqb c "+" then digits 0 false t
      else digits 0 false (c :: t)
  | [] => None
  end.

Definition py_int (x : json) : result Z :=
  match x with
  | JNull => Raise TypeError
  | JBool b => Return (if b then 1 else 0)
  | JInt n => Return n
  | JFloat (FFinite q) => Return (Z.quot (Qnum q) (Zpos (Qden q)))
  | JFloat FNan => Raise ValueError
  | JFloat (FInf _) => Raise OverflowError
  | JStr s =>
      match int_of_str s with
      | Some n => Return n
      | None => Raise ValueError
      end
  | JList _ | JDict _ => Raise TypeError
  end.

End Int.

(** *** Comparison of a value with an [int] *)

Definition bool_to_Z (b : bool) : Z := if b then 1 else 0.

(** [x < n] *)
Definition py_lt (x : json) (n : Z) : result bool :=
  match x with
  | JInt m => Return (m <? n)
  | JBool b => Return (bool_to_Z b <? n)
  | JFloat (FFinite q) =>
      Return (match Qcompare q (inject_Z n) with Lt => true | _ => false end)
  | JFloat FNan => Return false
  | JFloat (FInf negative) => Return negative
  | JNull | JStr _ | JList _ | JDict _ => Raise TypeError
  end.

(** [x > n] *)
Definition py_gt (x : json) (n : Z) : result bool :=
  match x with
  | JInt m => Return (n <? m)
  | JBool b => Return (n <? bool_to_Z b)
  | JFloat (FFinite q) =>
      Return (match Qcompare q (inject_Z n) with Gt => true | _ => false end)
  | JFloat FNan => Return false
  | JFloat (FInf negative) => Return (negb negative)
  | JNull | JStr _ | JList _ | JDict _ => Raise TypeError
  end.

(** [p in s] for two strings. *)
Fixpoint contains (p s : string) : bool :=
  String.prefix p s ||
  match s with
  | EmptyString => false
  | String _ t => contains p t
  end.

(** [subseq l1 l2]: [l1] is [l2] with some elements dropped, the others
    in their original order. *)
Inductive subseq {A : Type} : list A -> list A -> Prop :=
| subseq_nil : subseq [] []
| subseq_skip : forall x l1 l2, subseq l1 l2 -> subseq l1 (x :: l2)
| subseq_keep : forall x l1 l2, subseq l1 l2 -> subseq (x :: l1) (x :: l2).

(** ** vacancy_manager.py *)

Module VacancyManager.

(** class [Vacancy].  The two identifiers go through [int]; the other
    attributes hold whatever the payload held. *)
Record Vacancy : Type := mkVacancy {
  vacancy_id : Z;
  company_id : Z;
  name : json;
  salary_from : json;
  salary_to : json;
  currency : json;
  area : json;
  experience : json;
  employment_type : json;
  description : json;
  url : json;
  published_at : json
}.

Section Normalizer.

(** The rewriting of [int] on texts beyond ASCII. *)
Variable ascii_form : string -> string.

(** [Vacancy.parse_from_api] *)
Definition parse_from_api (vacancy_data : json) : result Vacancy :=
  vacancy_id <- py_get vacancy_data "id" JNull ;;
  employer <- py_get vacancy_data "employer" (JDict []) ;;
  company_id <- py_get employer "id" JNull ;;
  name <- py_get vacancy_data "name" JNull ;;
  salary <- py_get vacancy_data "salary" JNull ;;
  money <-
    (if is_none salary then Return (JNull, JNull, JNull)
     else
       salary_from <- py_get salary "from" JNull ;;
       salary_to <- py_get salary "to" JNull ;;
       currency <- py_get salary "currency" JNull ;;
       Return (salary_from, salary_to, currency)) ;;
  let '(salary_from, salary_to, currency) := money in
  area_obj <- py_get vacancy_data "area" (JDict []) ;;
  area <- py_get area_obj "name" JNull ;;
  experience_obj <- py_get vacancy_data "experience" (JDict []) ;;
  experience <- py_get experience_obj "name" JNull ;;
  employment_obj <- py_get vacancy_data "employment" (JDict []) ;;
  employment_type <- py_get employment_obj "name" JNull ;;
  description <- py_get vacancy_data "description" (JStr "") ;;
  url <- py_get vacancy_data "alternate_url" JNull ;;
  published_at <- py_get vacancy_data "published_at" JNull ;;
  vid <- py_int ascii_form vacancy_id ;;
  cid <- py_int ascii_form company_id ;;
  Return (mkVacancy vid cid name salary_from salary_to currency area
            experience employment_type description url published_at).

(** The exception classes of the [except] clause of [extract_vacancies],
    [(KeyError, ValueError, TypeError)], with the subclass of [ValueError]. *)
Definition caught_by_extract (e : exn) : bool :=
  match e with
  | KeyError | ValueError | TypeError | JSONDecodeError => true
  | _ => false
  end.

(** The loop of [extract_vacancies]: [vacancies] is the list built so far,
    [console] the errors printed so far. *)
Fixpoint extract_from (vacancies_data : list json) (vacancies : list Vacancy)
    (console : list exn) : result (list Vacancy) * list exn :=
  match vacancies_data with
  | [] => (Return vacancies, console)
  | vacancy_data :: rest =>
      match parse_from_api vacancy_data with
      | Return vacancy => extract_from rest (vacancies ++ [vacancy]) console
      | Raise e =>
          if caught_by_extract e
          then extract_from rest vacancies (console ++ [e])
          else (Raise e, console)
      end
  end.

Definition extract_vacancies (vacancies_data : list json)
  : result (list Vacancy) * list exn :=
  extract_from vacancies_data [] [].

End Normalizer.

Section Keyword.

(** [str.lower], which depends on the Unicode tables, is a parameter. *)
Variable lower : string -> string.

(** [keyword_lower in v.name.lower()] *)
Definition keyword_test (keyword_lower : string) (v : Vacancy) : result bool :=
  match name v with
  | JStr s => Return (contains keyword_lower (lower s))
  | _ => Raise AttributeError
  end.

Fixpoint comprehension (test : Vacancy -> result bool)
    (vacancies : list Vacancy) : result (list Vacancy) :=
  match vacancies with
  | [] => Return []
  | v :: rest =>
      keep <- test v ;;
      tail <- comprehension test rest ;;
      Return (if keep then v :: tail else tail)
  end.

Definition filter_by_keyword (vacancies : list Vacancy) (keyword : string)
  : result (list Vacancy) :=
  let keyword_lower := lower keyword in
  comprehension (keyword_test keyword_lower) vacancies.

End Keyword.

(** The three [continue] tests of [filter_by_salary_range], in order. *)
Definition no_salary (v : Vacancy) : bool :=
  is_none (salary_from v) && is_none (salary_to v).

Definition below_floor (salary_from_wanted : option Z) (v : Vacancy)
  : result bool :=
  match salary_from_wanted with
  | None => Return false
  | Some lo =>
      if is_none (salary_to v) then Return true else py_lt (salary_to v) lo
  end.

Definition above_ceiling (salary_to_wanted : option Z) (v : Vacancy)
  : result bool :=
  match salary_to_wanted with
  | None => Return false
  | Some hi =>
      if is_none (salary_from v) then Return true
      else py_gt (salary_from v) hi
  end.

Fixpoint salary_loop (vacancies : list Vacancy)
    (salary_from_wanted salary_to_wanted : option Z)
    (filtered : list Vacancy) : result (list Vacancy) :=
  match vacancies with
  | [] => Return filtered
  | v :: rest =>
      if no_salary v
      then salary_loop rest salary_from_wanted salary_to_wanted filtered
      else
        low <- below_floor salary_from_wanted v ;;
        if (low : bool)
        then salary_loop rest salary_from_wanted salary_to_wanted filtered
        else
          high <- above_ceiling salary_to_wanted v ;;
          if (high : bool)
          then salary_loop rest salary_from_wanted salary_to_wanted filtered
          else salary_loop rest salary_from_wanted salary_to_wanted
                 (filtered ++ [v])
  end.

Definition filter_by_salary_range (vacancies : list Vacancy)
    (salary_from_wanted salary_to_wanted : option Z)
  : result (list Vacancy) :=
  salary_loop vacancies salary_from_wanted salary_to_wanted [].

End VacancyManager.

(** ** api_manager.py *)

Module HeadHunterAPI.

(** The three GET requests of the client (fixed header, timeout 5). *)
Inductive request : Type :=
| GetVacancies (employer_id page per_page : Z)
| GetEmployer (employer_id : Z)
| GetVacancy (vacancy_id : Z).

(** A reply of the server: its status, and the value that its body decodes
    to, [None] for a body that is not JSON. *)
Record response : Type := mkResponse {
  status_code : Z;
  json_body : option json
}.

(** [requests.exceptions.RequestException] and its subclasses. *)
Definition is_request_exception (e : exn) : bool :=
  match e with
  | ConnectionError | HTTPError | Timeout | JSONDecodeError => true
  | _ => false
  end.

(** [response.json()] *)
Definition response_json (r : response) : result json :=
  match json_body r with
  | Some data => Return data
  | None => Raise JSONDecodeError
  end.

(** [response.raise_for_status()]: client and server error statuses raise. *)
Definition raise_for_status (r : response) : result unit :=
  if (400 <=? status_code r) && (status_code r <? 600)
  then Raise HTTPError else Return tt.

(** [list.extend(x)]: [x] is iterated; a dictionary yields its keys, a
    string its characters. *)
Definition py_extend (l : list json) (x : json) : result (list json) :=
  match x with
  | JList items => Return (l ++ items)
  | JDict d => Return (l ++ map (fun kv => JStr (fst kv)) d)
  | JStr s =>
      Return (l ++ map (fun ch => JStr (string_of_list_ascii ch))
                     (characters (list_ascii_of_string s)))
  | JNull | JBool _ | JInt _ | JFloat _ => Raise TypeError
  end.

(** [page >= pages - 1]; on a float the test is evaluated on the rationals. *)
Definition reached_last_page (page : Z) (pages : json) : result bool :=
  match pages with
  | JInt p => Return (p - 1 <=? page)
  | JBool b => Return (bool_to_Z b - 1 <=? page)
  | JFloat (FFinite q) =>
      Return (match Qcompare (q - 1)%Q (inject_Z page) with
              | Gt => false
              | _ => true
              end)
  | JFloat FNan => Return false
  | JFloat (FInf negative) => Return negative
  | JNull | JStr _ | JList _ | JDict _ => Raise TypeError
  end.

Section Client.

(** [requests.get]: the network, which replies or raises. *)
Variable requests_get : request -> result response.

(** The body shared by the three single-request operations; [None] is
    [JNull]. *)
Definition fetch (rq : request) : result json :=
  try_except
    (response <- requests_get rq ;;
     _ <- raise_for_status response ;;
     response_json response)
    is_request_exception
    (fun _ => Return JNull).

Definition get_employer_vacancies (employer_id page per_page : Z)
  : result json :=
  fetch (GetVacancies employer_id page per_page).

Definition get_employer_info (employer_id : Z) : result json :=
  fetch (GetEmployer employer_id).

Definition get_vacancy_details (vacancy_id : Z) : result json :=
  fetch (GetVacancy vacancy_id).

(** One turn of the [while True] loop after a page arrived: the new
    accumulator and whether the loop stops. *)
Definition take_page (data : json) (page : Z) (all_vacancies : list json)
  : result (list json * bool) :=
  vacancies <- py_get data "items" (JList []) ;;
  all_vacancies <- py_extend all_vacancies vacancies ;;
  pages <- py_get data "pages" (JInt 0) ;;
  stop <- reached_last_page page pages ;;
  Return (all_vacancies, stop).

(** The loop of [get_all_vacancies_for_employer].  [sent] records the page
    requests issued so far; [fuel] bounds the number of turns, [None] meaning
    that the loop is still running when the fuel is used up. *)
Fixpoint pages_loop (fuel : nat) (employer_id page : Z)
    (all_vacancies : list json) (sent : list request)
  : option (result (list json) * list request) :=
  match fuel with
  | O => None
  | S fuel' =>
      let per_page := 100 in
      let sent := sent ++ [GetVacancies employer_id page per_page] in
      match get_employer_vacancies employer_id page per_page with
      | Raise e => Some (Raise e, sent)
      | Return data =>
          if is_none data then Some (Return all_vacancies, sent)
          else
            match take_page data page all_vacancies with
            | Raise e => Some (Raise e, sent)
            | Return (all_vacancies, true) => Some (Return all_vacancies, sent)
            | Return (all_vacancies, false) =>
                pages_loop fuel' employer_id (page + 1) all_vacancies sent
            end
      end
  end.

Definition get_all_vacancies_for_employer (fuel : nat) (employer_id : Z)
  : option (result (list json) * list request) :=
  pages_loop fuel employer_id 0 [] [].

End Client.

End HeadHunterAPI.

(** ** db_manager.py and query_manager.py *)

Module DBManager.

(** *** The two tables of [create_tables]

    The surrogate [id SERIAL] keys are left out: a row is identified by its
    position.  The arguments of the insert operations are typed as their
    signatures say; a stored row holds them as its columns keep them, and
    the publication time as the text it was read from. *)
Record company_row : Type := mkCompany {
  c_company_id : Z;
  c_name : string;
  c_site_url : option string;
  c_open_vacancies : Z
}.

Record vacancy_row : Type := mkVacancyRow {
  v_vacancy_id : Z;
  v_company_id : Z;
  v_name : string;
  v_salary_from : option Z;
  v_salary_to : option Z;
  v_currency : option string;
  v_area : option string;
  v_experience : option string;
  v_employment_type : option string;
  v_description : option string;
  v_url : option string;
  v_published_at : option string
}.

Record database : Type := mkDatabase {
  companies : list company_row;
  vacancies : list vacancy_row
}.

(** *** The driver

    Every call into the driver may raise.  A [faults] value says, for one
    operation of [DBManager], which of its driver calls raise and what;
    constraint violations are not listed here, they follow from the tables. *)
Record faults : Type := mkFaults {
  on_connect : option exn;
  on_cursor : option exn;
  on_execute : option exn;
  on_commit : option exn;
  on_fetch : option exn;
  on_cursor_close : option exn;
  on_rollback : option exn;
  on_close : option exn
}.

Definition no_faults : faults :=
  mkFaults None None None None None None None None.

Definition raise_if (f : option exn) : result unit :=
  match f with
  | Some e => Raise e
  | None => Return tt
  end.

(** [psycopg2.Error] and its subclasses. *)
Definition is_pg_error (e : exn) : bool :=
  match e with
  | PgError => true
  | _ => false
  end.

Inductive connection : Type := Connection.

(** [DatabaseManager.get_connection] *)
Definition get_connection (fl : faults) : result (option connection) :=
  try_except
    (_ <- raise_if (on_connect fl) ;; Return (Some Connection))
    is_pg_error
    (fun _ => Return None).

(** [try: m finally: cleanup]: the clean-up runs on every exit; when it
    raises, its exception is the one that leaves. *)
Definition finally {A : Type} (m : result A) (cleanup : result unit)
  : result A :=
  match cleanup with
  | Return _ => m
  | Raise e => Raise e
  end.

(** *** What the driver and the columns accept *)

(** The driver refuses a text that holds a NUL character, with a
    [ValueError], while it builds the statement. *)
Definition has_nul (s : string) : bool :=
  existsb (Ascii.eqb zero) (list_ascii_of_string s).

Definition adapt_text (s : string) : result unit :=
  if has_nul s then Raise ValueError else Return tt.

Definition adapt_optional (s : option string) : result unit :=
  match s with
  | Some s => adapt_text s
  | None => Return tt
  end.

(** The [INTEGER] columns are 32-bit. *)
Definition int4_min : Z := - 2 ^ 31.
Definition int4_max : Z := 2 ^ 31 - 1.

Definition integer_column (n : Z) : result Z :=
  if (int4_min <=? n) && (n <=? int4_max) then Return n else Raise PgError.

(** A [VARCHAR(n)] column takes a text of [n] characters at most; a longer
    one is refused, unless what exceeds is made of spaces, which are then
    cut. *)
Definition varchar_column (n : nat) (s : string) : result string :=
  let (kept, excess) := clip n (list_ascii_of_string s) in
  if forallb (Ascii.eqb " ") excess
  then Return (string_of_list_ascii kept)
  else Raise PgError.

(** A column that may be NULL. *)
Definition nullable {A : Type} (column : A -> result A) (x : option A)
  : result (option A) :=
  match x with
  | Some a => b <- column a ;; Return (Some b)
  | None => Return None
  end.

(** The columns of [companies]: [company_id INTEGER], [name VARCHAR(255)],
    [site_url VARCHAR(255)], [open_vacancies INTEGER]. *)
Definition company_columns (row : company_row) : result company_row :=
  company_id <- integer_column (c_company_id row) ;;
  name <- varchar_column 255 (c_name row) ;;
  site_url <- nullable (varchar_column 255) (c_site_url row) ;;
  open_vacancies <- integer_column (c_open_vacancies row) ;;
  Return (mkCompany company_id name site_url open_vacancies).

Definition company_params (row : company_row) : result unit :=
  _ <- adapt_text (c_name row) ;;
  adapt_optional (c_site_url row).

Definition vacancy_params (row : vacancy_row) : result unit :=
  _ <- adapt_text (v_name row) ;;
  _ <- adapt_optional (v_currency row) ;;
  _ <- adapt_optional (v_area row) ;;
  _ <- adapt_optional (v_experience row) ;;
  _ <- adapt_optional (v_employment_type row) ;;
  _ <- adapt_optional (v_description row) ;;
  _ <- adapt_optional (v_url row) ;;
  adapt_optional (v_published_at row).

(** *** The statements *)

Definition has_company (company_id : Z) (db : database) : bool :=
  existsb (fun c => c_company_id c =? company_id) (companies db).

Definition has_vacancy (vacancy_id : Z) (db : database) : bool :=
  existsb (fun v => v_vacancy_id v =? vacancy_id) (vacancies db).

(** [ON CONFLICT (company_id) DO UPDATE SET name, site_url,
    open_vacancies], for a row of column values. *)
Definition on_conflict_update (row : company_row) (db : database)
  : result database :=
  if has_company (c_company_id row) db
  then
    Return (mkDatabase
              (map (fun c =>
                      if c_company_id c =? c_company_id row
                      then mkCompany (c_company_id c) (c_name row)
                             (c_site_url row) (c_open_vacancies row)
                      else c)
                   (companies db))
              (vacancies db))
  else Return (mkDatabase (companies db ++ [row]) (vacancies db)).

(** [INSERT INTO companies ... ON CONFLICT (company_id) DO UPDATE SET name,
    site_url, open_vacancies] *)
Definition upsert_company (row : company_row) (db : database)
  : result database :=
  stored <- company_columns row ;;
  on_conflict_update stored db.

(** [ON CONFLICT (vacancy_id) DO NOTHING], for a row of column values; a
    new row must reference a stored company. *)
Definition on_conflict_nothing (row : vacancy_row) (db : database)
  : result database :=
  if has_vacancy (v_vacancy_id row) db then Return db
  else if has_company (v_company_id row) db
  then Return (mkDatabase (companies db) (vacancies db ++ [row]))
  else Raise PgError.

Section Timestamps.

(** Whether the store reads a text as a [TIMESTAMP]; the accepted forms
    are those of the store and its settings, and are a parameter. *)
Variable timestamp_in : string -> bool.

Definition timestamp_column (s : string) : result string :=
  if timestamp_in s then Return s else Raise PgError.

(** The columns of [vacancies]: [vacancy_id INTEGER], [company_id INTEGER],
    [name VARCHAR(255)], [salary_from INTEGER], [salary_to INTEGER],
    [currency VARCHAR(10)], [area VARCHAR(100)], [experience VARCHAR(100)],
    [employment_type VARCHAR(100)], [description TEXT], [url VARCHAR(500)],
    [published_at TIMESTAMP]. *)
Definition vacancy_columns (row : vacancy_row) : result vacancy_row :=
  vacancy_id <- integer_column (v_vacancy_id row) ;;
  company_id <- integer_column (v_company_id row) ;;
  name <- varchar_column 255 (v_name row) ;;
  salary_from <- nullable integer_column (v_salary_from row) ;;
  salary_to <- nullable integer_column (v_salary_to row) ;;
  currency <- nullable (varchar_column 10) (v_currency row) ;;
  area <- nullable (varchar_column 100) (v_area row) ;;
  experience <- nullable (varchar_column 100) (v_experience row) ;;
  employment_type <- nullable (varchar_column 100) (v_employment_type row) ;;
  url <- nullable (varchar_column 500) (v_url row) ;;
  published_at <- nullable timestamp_column (v_published_at row) ;;
  Return (mkVacancyRow vacancy_id company_id name salary_from salary_to
            currency area experience employment_type (v_description row) url
            published_at).

(** [INSERT INTO vacancies ... ON CONFLICT (vacancy_id) DO NOTHING] *)
Definition insert_vacancy_row (row : vacancy_row) (db : database)
  : result database :=
  stored <- vacancy_columns row ;;
  on_conflict_nothing stored db.

End Timestamps.

(** [cursor = conn.cursor(); cursor.execute(stmt, params); conn.commit();
    cursor.close()]: the outcome, and the tables as committed.  The driver
    adapts the parameters before it sends the statement. *)
Definition run_statement (fl : faults) (db : database) (params : result unit)
    (stmt : database -> result database) : result unit * database :=
  match
    (_ <- raise_if (on_cursor fl) ;;
     _ <- params ;;
     _ <- raise_if (on_execute fl) ;;
     pending <- stmt db ;;
     _ <- raise_if (on_commit fl) ;;
     Return pending)
  with
  | Raise e => (Raise e, db)
  | Return pending => (raise_if (on_cursor_close fl), pending)
  end.

(** The [try]/[except Error]/[finally] frame of the two insert operations. *)
Definition insert_frame (fl : faults) (db : database) (params : result unit)
    (stmt : database -> result database) : result bool * database :=
  match get_connection fl with
  | Raise e => (Raise e, db)
  | Return None => (Return false, db)
  | Return (Some conn) =>
      let '(outcome, db') := run_statement fl db params stmt in
      (finally
         (try_except
            (_ <- outcome ;; Return true)
            is_pg_error
            (fun _ => _ <- raise_if (on_rollback fl) ;; Return false))
         (raise_if (on_close fl)),
       db')
  end.

Definition insert_company (fl : faults) (db : database) (company_id : Z)
    (name : string) (site_url : option string) (open_vacancies : Z)
  : result bool * database :=
  let row := mkCompany company_id name site_url open_vacancies in
  insert_frame fl db (company_params row) (upsert_company row).

Definition insert_vacancy (timestamp_in : string -> bool) (fl : faults)
    (db : database) (vacancy_id company_id : Z) (name : string)
    (salary_from salary_to : option Z)
    (currency area experience employment_type description url
       published_at : option string)
  : result bool * database :=
  let row :=
    mkVacancyRow vacancy_id company_id name salary_from salary_to currency
      area experience employment_type description url published_at in
  insert_frame fl db (vacancy_params row) (insert_vacancy_row timestamp_in row).

(** *** The read queries *)

(** [cursor = conn.cursor(); cursor.execute(q, params);
    rows = cursor.fetch...(); cursor.close()] *)
Definition run_query {A : Type} (fl : faults) (db : database)
    (params : result unit) (q : database -> result A) : result A :=
  _ <- raise_if (on_cursor fl) ;;
  _ <- params ;;
  _ <- raise_if (on_execute fl) ;;
  rows <- q db ;;
  _ <- raise_if (on_fetch fl) ;;
  _ <- raise_if (on_cursor_close fl) ;;
  Return rows.

(** The frame shared by the four list-returning queries. *)
Definition select_rows {A : Type} (fl : faults) (db : database)
    (params : result unit) (q : database -> result (list A))
  : result (list A) :=
  match get_connection fl with
  | Raise e => Raise e
  | Return None => Return []
  | Return (Some conn) =>
      finally
        (try_except (run_query fl db params q) is_pg_error
           (fun _ => Return []))
        (raise_if (on_close fl))
  end.

(** Rows in decreasing order of their count; rows with equal counts keep the
    order of the table. *)
Fixpoint insert_by_count (x : string * Z) (l : list (string * Z))
  : list (string * Z) :=
  match l with
  | [] => [x]
  | y :: l' => if snd x <? snd y then y :: insert_by_count x l' else x :: l
  end.

Definition order_by_count_desc (l : list (string * Z)) : list (string * Z) :=
  fold_right insert_by_count [] l.

(** [SELECT c.name, COUNT(v.id) FROM companies c LEFT JOIN vacancies v ...
    GROUP BY c.id, c.name ORDER BY vacancy_count DESC] *)
Definition companies_count_query (db : database)
  : result (list (string * Z)) :=
  Return
    (order_by_count_desc
       (map (fun c =>
               (c_name c,
                Z.of_nat
                  (List.length
                     (filter (fun v => v_company_id v =? c_company_id c)
                        (vacancies db)))))
          (companies db))).

Definition get_companies_and_vacancies_count (fl : faults) (db : database)
  : result (list (string * Z)) :=
  select_rows fl db (Return tt) companies_count_query.

(** The sum of two [INTEGER] values is checked by the store. *)
Definition int4_add (a b : Z) : result Z :=
  let s := a + b in
  if (int4_min <=? s) && (s <=? int4_max) then Return s else Raise PgError.

Definition coalesce (x : option Z) (d : Z) : Z :=
  match x with
  | Some v => v
  | None => d
  end.

(** [(COALESCE(salary_from, 0) + COALESCE(salary_to, 0)) / 2], on integers:
    the quotient is truncated toward zero. *)
Definition midpoint (v : vacancy_row) : result Z :=
  s <- int4_add (coalesce (v_salary_from v) 0) (coalesce (v_salary_to v) 0) ;;
  Return (Z.quot s 2).

(** [salary_from IS NOT NULL OR salary_to IS NOT NULL] *)
Definition has_salary (v : vacancy_row) : bool :=
  match v_salary_from v, v_salary_to v with
  | None, None => false
  | _, _ => true
  end.

Fixpoint map_result {A B : Type} (f : A -> result B) (l : list A)
  : result (list B) :=
  match l with
  | [] => Return []
  | a :: l' =>
      b <- f a ;;
      bs <- map_result f l' ;;
      Return (b :: bs)
  end.

Definition sum_Z (l : list Z) : Z := fold_right Z.add 0 l.

(** A [NUMERIC] value of the store, which the driver hands over as a
    [Decimal]: the integer [unscaled] with its last [dscale] digits behind
    the decimal point. *)
Record numeric : Type := mkNumeric {
  unscaled : Z;
  dscale : nat
}.

(** The position (in digits of base 10000) and the value of the leading
    digit of base 10000 of a positive integer. *)
Fixpoint leading_digit (fuel : nat) (x weight : Z) : Z * Z :=
  match fuel with
  | O => (weight, x)
  | S fuel' =>
      if x <? 10000 then (weight, x)
      else leading_digit fuel' (x / 10000) (weight + 1)
  end.

Definition weight_and_digit (x : Z) : Z * Z :=
  if x =? 0 then (0, 0)
  else leading_digit (Z.to_nat (Z.log2 (Z.abs x))) (Z.abs x) 0.

(** The number of decimals of a quotient of two integers: enough for 16
    significant digits, going by the leading digits of the operands. *)
Definition div_scale (a b : Z) : nat :=
  let (weight1, digit1) := weight_and_digit a in
  let (weight2, digit2) := weight_and_digit b in
  let qweight :=
    if digit1 <=? digit2 then weight1 - weight2 - 1 else weight1 - weight2 in
  Z.to_nat (Z.min 1000 (Z.max 0 (16 - 4 * qweight))).

(** The quotient [a / b] of the store for integers [a] and [b > 0], rounded
    to the decimals of [div_scale], a half away from zero. *)
Definition numeric_div (a b : Z) : numeric :=
  let s := div_scale a b in
  mkNumeric
    (Z.sgn a * ((2 * Z.abs a * 10 ^ Z.of_nat s + b) / (2 * b)))
    s.

(** [AVG] of integers: NULL on no row, else the sum divided by the count. *)
Definition avg (l : list Z) : option numeric :=
  match l with
  | [] => None
  | _ => Some (numeric_div (sum_Z l) (Z.of_nat (List.length l)))
  end.

Definition avg_salary_query (db : database) : result (option numeric) :=
  ms <- map_result midpoint (filter has_salary (vacancies db)) ;;
  Return (avg ms).

(** [get_avg_salary]; the aggregate always yields one row, whose only column
    is returned when it is not NULL. *)
Definition get_avg_salary (fl : faults) (db : database)
  : result (option numeric) :=
  match get_connection fl with
  | Raise e => Raise e
  | Return None => Return None
  | Return (Some conn) =>
      finally
        (try_except (run_query fl db (Return tt) avg_salary_query)
           is_pg_error
           (fun _ => Return None))
        (raise_if (on_close fl))
  end.

(** *** The listings

    The row of the three vacancy listings: company name, vacancy name, the
    two salary bounds, currency and url. *)
Record listing : Type := mkListing {
  l_company_name : string;
  l_vacancy_name : string;
  l_salary_from : option Z;
  l_salary_to : option Z;
  l_currency : option string;
  l_url : option string
}.

(** [FROM vacancies v JOIN companies c ON v.company_id = c.company_id] *)
Definition joined (db : database) : list (vacancy_row * company_row) :=
  flat_map
    (fun v =>
       map (fun c => (v, c))
         (filter (fun c => c_company_id c =? v_company_id v) (companies db)))
    (vacancies db).

Definition listing_of (vc : vacancy_row * company_row) : listing :=
  let (v, c) := vc in
  mkListing (c_name c) (v_name v) (v_salary_from v) (v_salary_to v)
    (v_currency v) (v_url v).

(** [ORDER BY]: rows that the order does not separate keep their relative
    position. *)
Fixpoint insert_sorted {A : Type} (le : A -> A -> bool) (x : A) (l : list A)
  : list A :=
  match l with
  | [] => [x]
  | y :: l' => if le x y then x :: l else y :: insert_sorted le x l'
  end.

Definition sort_by {A : Type} (le : A -> A -> bool) (l : list A) : list A :=
  fold_right (insert_sorted le) [] l.

Section Listings.

(** The order of the collation of the database on names ("not after"), and
    its lower-casing; both depend on the locale of the store. *)
Variable name_le : string -> string -> bool.
Variable lower : string -> string.

(** [ORDER BY c.name, v.name] *)
Definition by_names (a b : listing) : bool :=
  if negb (name_le (l_company_name b) (l_company_name a)) then true
  else if negb (name_le (l_company_name a) (l_company_name b)) then false
  else name_le (l_vacancy_name a) (l_vacancy_name b).

(** [SELECT c.name, v.name, v.salary_from, v.salary_to, v.currency, v.url
    FROM vacancies v JOIN companies c ... ORDER BY c.name, v.name] *)
Definition all_vacancies_query (db : database) : result (list listing) :=
  Return (sort_by by_names (map listing_of (joined db))).

Definition get_all_vacancies (fl : faults) (db : database)
  : result (list listing) :=
  select_rows fl db (Return tt) all_vacancies_query.

(** The midpoint exceeds the average of the subquery; no row does when the
    average is NULL. *)
Definition above (m : Z) (average : option numeric) : bool :=
  match average with
  | None => false
  | Some a => unscaled a <? m * 10 ^ Z.of_nat (dscale a)
  end.

(** [SELECT ... WHERE midpoint > (SELECT AVG(midpoint) ...) AND
    (v.salary_from IS NOT NULL OR v.salary_to IS NOT NULL)
    ORDER BY midpoint DESC] *)
Definition higher_salary_query (db : database) : result (list listing) :=
  average <- avg_salary_query db ;;
  scored <- map_result (fun vc => m <- midpoint (fst vc) ;; Return (m, vc))
              (joined db) ;;
  Return
    (map (fun mvc => listing_of (snd mvc))
       (sort_by (fun a b => fst b <=? fst a)
          (filter (fun mvc => above (fst mvc) average
                              && has_salary (fst (snd mvc)))
             scored))).

Definition get_vacancies_with_higher_salary (fl : faults) (db : database)
  : result (list listing) :=
  select_rows fl db (Return tt) higher_salary_query.

(** [LIKE]: [%] stands for any run of characters, [_] for any single
    character, and a backslash makes the next character of the pattern
    literal.  The run of a [%] may end at any byte; in UTF-8 a lead byte
    differs from every continuation byte and [_] takes a character up to
    its last byte, so the runs that lead to a match end with a character.
    A pattern that ends in a lone backslash matches nothing here; the
    patterns of the search end in [%]. *)
Fixpoint like (p s : list ascii) {struct p} : bool :=
  match p with
  | [] => match s with [] => true | _ :: _ => false end
  | c :: p' =>
      if Ascii.eqb c "%" then
        (fix any (s : list ascii) : bool :=
           like p' s ||
           match s with
           | [] => false
           | _ :: s' => any s'
           end) s
      else if Ascii.eqb c "_" then
        match s with
        | [] => false
        | _ :: s' => like p' (rest_of_character s')
        end
      else if Ascii.eqb c "\" then
        match p' with
        | [] => false
        | c' :: p'' =>
            match s with
            | [] => false
            | x :: s' => Ascii.eqb c' x && like p'' s'
            end
        end
      else
        match s with
        | [] => false
        | x :: s' => Ascii.eqb c x && like p' s'
        end
  end.

(** [text ILIKE pattern]: both sides are put in lower case. *)
Definition ilike (text pattern : string) : bool :=
  like (list_ascii_of_string (lower pattern))
    (list_ascii_of_string (lower text)).

(** [SELECT ... WHERE v.name ILIKE %s ORDER BY c.name, v.name], the
    parameter being the keyword between two [%]. *)
Definition keyword_query (keyword : string) (db : database)
  : result (list listing) :=
  let pattern := ("%" ++ keyword ++ "%")%string in
  Return
    (sort_by by_names
       (map listing_of
          (filter (fun vc => ilike (v_name (fst vc)) pattern) (joined db)))).

Definition get_vacancies_with_keyword (fl : faults) (db : database)
    (keyword : string) : result (list listing) :=
  select_rows fl db (adapt_text ("%" ++ keyword ++ "%"))
    (keyword_query keyword).

End Listings.

(** *** db_manager.py: [clear_tables] *)

(** [TRUNCATE TABLE vacancies CASCADE] and [TRUNCATE TABLE companies
    CASCADE]; the second also empties the table that references it. *)
Definition truncate_vacancies (db : database) : database :=
  mkDatabase (companies db) [].

Definition truncate_companies (db : database) : database :=
  mkDatabase [] [].

(** [DatabaseManager.clear_tables], whose frame is that of the inserts. *)
Definition clear_tables (fl : faults) (db : database)
  : result bool * database :=
  insert_frame fl db (Return tt)
    (fun db => Return (truncate_companies (truncate_vacancies db))).

End DBManager.

(** ** main.py *)

Module Main.

Import DBManager.

(** What [display_average_salary] prints under its banner. *)
Inductive salary_line : Type :=
| NoDataLine
| AverageLine (avg_salary : numeric).

Definition display_average_salary (fl : faults) (db : database)
  : result salary_line :=
  avg_salary <- get_avg_salary fl db ;;
  Return (match avg_salary with
          | None => NoDataLine
          | Some a => AverageLine a
          end).

(** The truth value of a salary bound read from the store: [None] and 0
    are false. *)
Definition truthy (x : option Z) : bool :=
  match x with
  | Some n => negb (n =? 0)
  | None => false
  end.

(** The four shapes of [salary_str] in the three listing displays. *)
Inductive salary_text : Type :=
| NotSpecified
| Between (salary_from salary_to : option Z) (currency : option string)
| AtLeast (salary_from : option Z) (currency : option string)
| AtMost (salary_to : option Z) (currency : option string).

Definition salary_str (salary_from salary_to : option Z)
    (currency : option string) : salary_text :=
  if truthy salary_from && truthy salary_to
  then Between salary_from salary_to currency
  else if truthy salary_from then AtLeast salary_from currency
  else if truthy salary_to then AtMost salary_to currency
  else NotSpecified.

(** What the listing displays print for one row: company, vacancy, salary
    and link. *)
Definition card (row : listing)
  : string * string * salary_text * option string :=
  (l_company_name row, l_vacancy_name row,
   salary_str (l_salary_from row) (l_salary_to row) (l_currency row),
   l_url row).

(** [display_all_vacancies]: [None] is the "no data" message, printed on an
    empty result. *)
Definition display_all_vacancies (name_le : string -> string -> bool)
    (fl : faults) (db : database)
  : result (option (list (string * string * salary_text * option string))) :=
  results <- get_all_vacancies name_le fl db ;;
  Return (match results with
          | [] => None
          | _ => Some (map card results)
          end).

Section Loader.

(** The reading of timestamps by the store. *)
Variable timestamp_in : string -> bool.

(** The call [db_manager.insert_vacancy(vacancy.vacancy_id, ...)] of the
    loop of [load_companies_and_vacancies], the twelve attributes of the
    vacancy being given as the row they make. *)
Definition store_vacancy (fl : faults) (db : database) (vacancy : vacancy_row)
  : result bool * database :=
  insert_vacancy timestamp_in fl db
    (v_vacancy_id vacancy) (v_company_id vacancy) (v_name vacancy)
    (v_salary_from vacancy) (v_salary_to vacancy) (v_currency vacancy)
    (v_area vacancy) (v_experience vacancy) (v_employment_type vacancy)
    (v_description vacancy) (v_url vacancy) (v_published_at vacancy).

(** The loop of [load_companies_and_vacancies] that stores the vacancies of
    one company and counts the calls that reported success.  [store n] is
    the behaviour of the driver during the [n]-th call. *)
Fixpoint add_vacancies (store : nat -> faults) (call : nat) (db : database)
    (vacancies : list vacancy_row) (added_count : Z)
  : result Z * database :=
  match vacancies with
  | [] => (Return added_count, db)
  | vacancy :: rest =>
      match store_vacancy (store call) db vacancy with
      | (Raise e, db') => (Raise e, db')
      | (Return ok, db') =>
          add_vacancies store (S call) db' rest
            (if ok then added_count + 1 else added_count)
      end
  end.

End Loader.

End Main.

(** ** Vocabulary of the properties *)

Module Spec.

Import VacancyManager.

(** [x] is the value under key [k] of [d], or [default] without that key. *)
Definition provided_or (d : list (string * json)) (k : string)
    (default x : json) : Prop :=
  match lookup k d with
  | Some v => x = v
  | None => x = default
  end.

(** [x] is the ["name"] of the object under key [outer], absence when either
    key is missing. *)
Definition nested_name (d : list (string * json)) (outer : string)
    (x : json) : Prop :=
  match lookup outer d with
  | None => x = JNull
  | Some (JDict o) => provided_or o "name" JNull x
  | Some _ => False
  end.

(** [x] is the value under key [k] of the salary object, absence when the
    salary object is missing or null. *)
Definition salary_part (d : list (string * json)) (k : string)
    (x : json) : Prop :=
  match lookup "salary" d with
  | None | Some JNull => x = JNull
  | Some (JDict o) => provided_or o k JNull x
  | Some _ => False
  end.

(** Every optional attribute is the provided value or its default. *)
Definition fields_as_provided (d : list (string * json)) (v : Vacancy)
  : Prop :=
  provided_or d "name" JNull (name v) /\
  salary_part d "from" (salary_from v) /\
  salary_part d "to" (salary_to v) /\
  salary_part d "currency" (currency v) /\
  nested_name d "area" (area v) /\
  nested_name d "experience" (experience v) /\
  nested_name d "employment" (employment_type v) /\
  provided_or d "description" (JStr "") (description v) /\
  provided_or d "alternate_url" JNull (url v) /\
  provided_or d "published_at" JNull (published_at v).

Definition absent_or_object (d : list (string * json)) (k : string) : Prop :=
  match lookup k d with
  | None | Some (JDict _) => True
  | Some _ => False
  end.

(** The nested values that [parse_from_api] dereferences are objects (the
    salary may also be null). *)
Definition well_nested (d : list (string * json)) : Prop :=
  absent_or_object d "employer" /\
  match lookup "salary" d with
  | None | Some JNull | Some (JDict _) => True
  | Some _ => False
  end /\
  absent_or_object d "area" /\
  absent_or_object d "experience" /\
  absent_or_object d "employment".

(** The values handed to [int]. *)
Definition id_value (d : list (string * json)) : json :=
  match lookup "id" d with
  | Some v => v
  | None => JNull
  end.

Definition employer_id_value (d : list (string * json)) : json :=
  match lookup "employer" d with
  | Some (JDict o) =>
      match lookup "id" o with
      | Some v => v
      | None => JNull
      end
  | _ => JNull
  end.

(** The items of a batch that normalize, and the errors of the others. *)
Definition successes (ascii_form : string -> string)
    (vacancies_data : list json) : list Vacancy :=
  flat_map (fun x => match parse_from_api ascii_form x with
                     | Return v => [v]
                     | Raise _ => []
                     end) vacancies_data.

Definition failures (ascii_form : string -> string)
    (vacancies_data : list json) : list exn :=
  flat_map (fun x => match parse_from_api ascii_form x with
                     | Return _ => []
                     | Raise e => [e]
                     end) vacancies_data.

(** An interpreter whose tables know no digit and no white space beyond
    ASCII: a text that holds another character is cut at its start. *)
Definition ascii_only (s : string) : string := "?".

(** A record typed as the constructor of [Vacancy] declares its salary
    bounds ([Optional[int]]) and its name ([str]). *)
Definition optional_int (x : json) : Prop :=
  x = JNull \/ exists n, x = JInt n.

Definition salary_typed (v : Vacancy) : Prop :=
  optional_int (salary_from v) /\ optional_int (salary_to v).

Definition name_typed (v : Vacancy) : Prop :=
  exists s, name v = JStr s.

(** The records that a salary filter with bounds [lo] and [hi] keeps. *)
Definition kept_by_salary (lo hi : option Z) (v : Vacancy) : Prop :=
  (salary_from v <> JNull \/ salary_to v <> JNull) /\
  (forall l, lo = Some l -> exists t, salary_to v = JInt t /\ l <= t) /\
  (forall h, hi = Some h -> exists f, salary_from v = JInt f /\ f <= h).

Definition keeps_salary (lo hi : option Z) (v : Vacancy) : bool :=
  negb (is_none (salary_from v) && is_none (salary_to v)) &&
  match lo with
  | None => true
  | Some l =>
      match salary_to v with JInt t => l <=? t | _ => false end
  end &&
  match hi with
  | None => true
  | Some h =>
      match salary_from v with JInt f => f <=? h | _ => false end
  end.

(** [kw] occurs in [s] once both are put in lower case. *)
Definition occurs_in (p s : string) : Prop :=
  exists pre post, s = (pre ++ p ++ post)%string.

Definition name_has_keyword (lower : string -> string) (keyword : string)
    (v : Vacancy) : Prop :=
  exists s, name v = JStr s /\ occurs_in (lower keyword) (lower s).

Definition has_keyword (lower : string -> string) (keyword : string)
    (v : Vacancy) : bool :=
  match name v with
  | JStr s => contains (lower keyword) (lower s)
  | _ => false
  end.

(** A record with the given salary bounds and nothing else set. *)
Definition with_salary (vid : Z) (lo hi : json) : Vacancy :=
  mkVacancy vid 1 (JStr "") lo hi JNull JNull JNull JNull JNull JNull JNull.

Definition named (vid : Z) (s : string) : Vacancy :=
  mkVacancy vid 1 (JStr s) JNull JNull JNull JNull JNull JNull JNull JNull
    JNull.

Definition sample_payload : list (string * json) :=
  [("id", JStr "101"); ("name", JStr "Developer");
   ("employer", JDict [("id", JInt 7)]);
   ("salary", JDict [("from", JInt 100000); ("currency", JStr "RUR")])].

(** [str.lower] restricted to the ASCII letters. *)
Definition ascii_lower_char (c : ascii) : ascii :=
  let n := nat_of_ascii c in
  if ((65 <=? n)%nat && (n <=? 90)%nat)%bool then ascii_of_nat (n + 32) else c.

Fixpoint ascii_lower (s : string) : string :=
  match s with
  | EmptyString => EmptyString
  | String c t => String (ascii_lower_char c) (ascii_lower t)
  end.

(** [data] is a page of [items] of a listing of [pages] pages. *)
Definition is_page (data : json) (items : list json) (pages : Z) : Prop :=
  exists d,
    data = JDict d /\
    lookup "items" d = Some (JList items) /\
    lookup "pages" d = Some (JInt pages).

(** The request for page [k] succeeds with a page holding [items k]. *)
Definition page_ok (requests_get : HeadHunterAPI.request ->
                                   result HeadHunterAPI.response)
    (employer_id pages : Z) (items : nat -> list json) (k : nat) : Prop :=
  exists data,
    HeadHunterAPI.get_employer_vacancies requests_get employer_id
      (Z.of_nat k) 100 = Return data /\
    is_page data (items k) pages.

(** The requests for [n] pages from page [first] on, 100 items each. *)
Definition page_requests (employer_id : Z) (first n : nat)
  : list HeadHunterAPI.request :=
  map (fun k => HeadHunterAPI.GetVacancies employer_id (Z.of_nat k) 100)
    (seq first n).

(** The items of [n] pages from page [first] on, in page order. *)
Definition items_of_pages (items : nat -> list json) (first n : nat)
  : list json :=
  List.concat (map items (seq first n)).

(** A server on which every employer has [pages] pages, page [k] holding
    the single item [k]. *)
Definition numbered_pages (pages : Z) (rq : HeadHunterAPI.request)
  : result HeadHunterAPI.response :=
  match rq with
  | HeadHunterAPI.GetVacancies _ page _ =>
      Return (HeadHunterAPI.mkResponse 200
                (Some (JDict [("items", JList [JInt page]);
                              ("pages", JInt pages)])))
  | _ => Return (HeadHunterAPI.mkResponse 404 (Some JNull))
  end.

(** The same server, with the request for page [bad] timing out. *)
Definition numbered_pages_but (pages bad : Z) (rq : HeadHunterAPI.request)
  : result HeadHunterAPI.response :=
  match rq with
  | HeadHunterAPI.GetVacancies _ page _ =>
      if page =? bad then Raise Timeout else numbered_pages pages rq
  | _ => numbered_pages pages rq
  end.

(** A server on which no employer has a vacancy. *)
Definition empty_listing (rq : HeadHunterAPI.request)
  : result HeadHunterAPI.response :=
  Return (HeadHunterAPI.mkResponse 200
            (Some (JDict [("items", JList []); ("pages", JInt 0)]))).

(** *** Tables *)

Import DBManager.

(** The [UNIQUE] constraints of the two tables. *)
Definition unique_ids (db : database) : Prop :=
  NoDup (map c_company_id (companies db)) /\
  NoDup (map v_vacancy_id (vacancies db)).

Definition rows_of_company (company_id : Z) (db : database)
  : list company_row :=
  filter (fun c => c_company_id c =? company_id) (companies db).

Definition rows_of_vacancy (vacancy_id : Z) (db : database)
  : list vacancy_row :=
  filter (fun v => v_vacancy_id v =? vacancy_id) (vacancies db).

(** The number of characters of a text: its bytes that are not
    continuation bytes. *)
Definition text_length (s : string) : nat :=
  List.length
    (filter (fun c => negb (is_continuation c)) (list_ascii_of_string s)).

(** An integer of 32 bits; a text without NUL character of [n] characters
    at most. *)
Definition fits_integer (n : Z) : Prop := int4_min <= n <= int4_max.

Definition fits_text (n : nat) (s : string) : Prop :=
  has_nul s = false /\ (text_length s <= n)%nat.

Definition optional {A : Type} (P : A -> Prop) (x : option A) : Prop :=
  match x with
  | Some a => P a
  | None => True
  end.

(** The values of a row fit the columns of its table. *)
Definition company_fits (row : company_row) : Prop :=
  fits_integer (c_company_id row) /\
  fits_text 255 (c_name row) /\
  optional (fits_text 255) (c_site_url row) /\
  fits_integer (c_open_vacancies row).

Definition vacancy_fits (timestamp_in : string -> bool) (row : vacancy_row)
  : Prop :=
  fits_integer (v_vacancy_id row) /\
  fits_integer (v_company_id row) /\
  fits_text 255 (v_name row) /\
  optional fits_integer (v_salary_from row) /\
  optional fits_integer (v_salary_to row) /\
  optional (fits_text 10) (v_currency row) /\
  optional (fits_text 100) (v_area row) /\
  optional (fits_text 100) (v_experience row) /\
  optional (fits_text 100) (v_employment_type row) /\
  optional (fun s => has_nul s = false) (v_description row) /\
  optional (fits_text 500) (v_url row) /\
  optional (fun s => has_nul s = false /\ timestamp_in s = true)
    (v_published_at row).

(** The driver and the columns take the values of [row], which are stored
    as [stored]. *)
Definition company_taken (row stored : company_row) : Prop :=
  company_params row = Return tt /\ company_columns row = Return stored.

Definition vacancy_taken (timestamp_in : string -> bool)
    (row stored : vacancy_row) : Prop :=
  vacancy_params row = Return tt /\
  vacancy_columns timestamp_in row = Return stored.

(** No text of the vacancy holds a NUL character. *)
Definition without_nul (row : vacancy_row) : Prop :=
  has_nul (v_name row) = false /\
  optional (fun s => has_nul s = false) (v_currency row) /\
  optional (fun s => has_nul s = false) (v_area row) /\
  optional (fun s => has_nul s = false) (v_experience row) /\
  optional (fun s => has_nul s = false) (v_employment_type row) /\
  optional (fun s => has_nul s = false) (v_description row) /\
  optional (fun s => has_nul s = false) (v_url row) /\
  optional (fun s => has_nul s = false) (v_published_at row).

(** A store that reads the texts of the form YYYY-MM-DDTHH:MM:SS as
    timestamps, and no other text. *)
Definition iso_timestamp (s : string) : bool :=
  (fix shaped (shape text : list ascii) : bool :=
     match shape, text with
     | [], [] => true
     | p :: shape', c :: text' =>
         (if Ascii.eqb p "d"
          then match digit_val c with Some _ => true | None => false end
          else Ascii.eqb p c)
         && shaped shape' text'
     | _, _ => false
     end)
    (list_ascii_of_string "dddd-dd-ddTdd:dd:dd") (list_ascii_of_string s).

(** The sum of the two bounds is a 32-bit integer. *)
Definition fits_int4 (v : vacancy_row) : Prop :=
  int4_min <= coalesce (v_salary_from v) 0 + coalesce (v_salary_to v) 0
  <= int4_max.

(** The midpoint as the store computes it, and the exact one. *)
Definition integer_midpoint (v : vacancy_row) : Z :=
  Z.quot (coalesce (v_salary_from v) 0 + coalesce (v_salary_to v) 0) 2.

Definition exact_midpoint (v : vacancy_row) : Q :=
  (inject_Z (coalesce (v_salary_from v) 0 + coalesce (v_salary_to v) 0)
   / inject_Z 2)%Q.

Definition average (l : list Q) : Q :=
  (fold_right Qplus (inject_Z 0) l / inject_Z (Z.of_nat (List.length l)))%Q.

(** The number that a [NUMERIC] value denotes. *)
Definition numeric_value (d : numeric) : Q :=
  (inject_Z (unscaled d) / inject_Z (10 ^ Z.of_nat (dscale d)))%Q.

(** [d] is the quotient [sum / count] rounded to the decimals of [d], a
    half away from zero: [d] has the sign of the quotient and, in units of
    its last decimal, is above it by a half at most and below it by less
    than a half in absolute value (the inequalities are multiplied by
    [2 * count]). *)
Definition rounds (sum count : Z) (d : numeric) : Prop :=
  let unit := 10 ^ Z.of_nat (dscale d) in
  Z.sgn (unscaled d) * Z.sgn sum >= 0 /\
  - count < 2 * (Z.abs (unscaled d) * count - Z.abs sum * unit) <= count.

Definition no_salary_data (db : database) : Prop :=
  forall v, In v (vacancies db) ->
            v_salary_from v = None /\ v_salary_to v = None.

(** A vacancy row with the given identifiers and salary bounds. *)
Definition salaried (vacancy_id company_id : Z) (lo hi : option Z)
  : vacancy_row :=
  mkVacancyRow vacancy_id company_id "Developer" lo hi None None None None
    None None None.

Definition one_company : database :=
  mkDatabase [mkCompany 5 "Acme" None 3] [].

(** *** Failures of the driver *)

Definition pg_or_none (f : option exn) : Prop :=
  f = None \/ f = Some PgError.

(** Every driver call of the guarded block that fails raises a
    [psycopg2.Error]. *)
Definition faults_are_pg (fl : faults) : Prop :=
  pg_or_none (on_connect fl) /\ pg_or_none (on_cursor fl) /\
  pg_or_none (on_execute fl) /\ pg_or_none (on_commit fl) /\
  pg_or_none (on_fetch fl) /\ pg_or_none (on_cursor_close fl).

(** The clean-up calls of the handlers, [rollback] and [close], complete. *)
Definition cleanup_completes (fl : faults) : Prop :=
  on_rollback fl = None /\ on_close fl = None.

Definition insert_interrupted (fl : faults) : Prop :=
  on_connect fl <> None \/ on_cursor fl <> None \/ on_execute fl <> None \/
  on_commit fl <> None \/ on_cursor_close fl <> None.

Definition query_interrupted (fl : faults) : Prop :=
  on_connect fl <> None \/ on_cursor fl <> None \/ on_execute fl <> None \/
  on_fetch fl <> None \/ on_cursor_close fl <> None.

(** The statement fails in the store. *)
Definition statement_fails : faults :=
  mkFaults None None (Some PgError) None None None None None.

(** A text that holds a NUL character, and a vacancy with that name. *)
Definition with_nul : string := String "D" (String zero "v").

Definition nul_named (vacancy_id company_id : Z) : vacancy_row :=
  mkVacancyRow vacancy_id company_id with_nul None None None None None None
    None None None.

(** The connection is lost while the statement runs: the statement fails,
    and so does the [rollback] that follows. *)
Definition connection_lost : faults :=
  mkFaults None None (Some PgError) None None None (Some PgError) None.

(** The request meets a network error or a timeout, or is answered with an
    error status. *)
Definition request_fails
    (requests_get : HeadHunterAPI.request -> result HeadHunterAPI.response)
    (rq : HeadHunterAPI.request) : Prop :=
  requests_get rq = Raise ConnectionError \/
  requests_get rq = Raise Timeout \/
  exists r, requests_get rq = Return r /\
            400 <= HeadHunterAPI.status_code r < 600.

End Spec.

(** ** Further vocabulary *)

Module Props.

Import VacancyManager Spec.

(** The keys of a payload that [parse_from_api] reads. *)
Definition read_keys : list string :=
  ["id"; "employer"; "name"; "salary"; "area"; "experience"; "employment";
   "description"; "alternate_url"; "published_at"].

Definition agree_on (keys : list string) (d1 d2 : list (string * json))
  : Prop :=
  forall k, In k keys -> lookup k d1 = lookup k d2.

(** A value that is neither a number nor absent. *)
Definition not_comparable (x : json) : Prop :=
  match x with
  | JStr _ | JList _ | JDict _ => True
  | _ => False
  end.

(** The record has a salary bound set. *)
Definition has_bound (v : Vacancy) : bool :=
  negb (is_none (salary_from v) && is_none (salary_to v)).

(** The wanted range [lo', hi'] lies within the wanted range [lo, hi]. *)
Definition floor_raised (lo lo' : option Z) : Prop :=
  match lo, lo' with
  | None, _ => True
  | Some l, Some l' => l <= l'
  | Some _, None => False
  end.

Definition ceiling_lowered (hi hi' : option Z) : Prop :=
  match hi, hi' with
  | None, _ => True
  | Some h, Some h' => h' <= h
  | Some _, None => False
  end.

(** A server on which the listing of every employer grows faster than it
    is read: page [k] reports [k + 2] pages. *)
Definition growing_listing (rq : HeadHunterAPI.request)
  : result HeadHunterAPI.response :=
  match rq with
  | HeadHunterAPI.GetVacancies _ page _ =>
      Return (HeadHunterAPI.mkResponse 200
                (Some (JDict [("items", JList [JInt page]);
                              ("pages", JInt (page + 2))])))
  | _ => Return (HeadHunterAPI.mkResponse 404 (Some JNull))
  end.

(** A server of three pages whose reply for page [bad] is not JSON. *)
Definition undecodable_page (bad : Z) (rq : HeadHunterAPI.request)
  : result HeadHunterAPI.response :=
  match rq with
  | HeadHunterAPI.GetVacancies _ page _ =>
      if page =? bad
      then Return (HeadHunterAPI.mkResponse 200 None)
      else numbered_pages 3 rq
  | _ => numbered_pages 3 rq
  end.

(** A server of three pages whose reply for page [bad] is the given
    value. *)
Definition odd_page (bad : Z) (reply : json) (rq : HeadHunterAPI.request)
  : result HeadHunterAPI.response :=
  match rq with
  | HeadHunterAPI.GetVacancies _ page _ =>
      if page =? bad
      then Return (HeadHunterAPI.mkResponse 200 (Some reply))
      else numbered_pages 3 rq
  | _ => numbered_pages 3 rq
  end.

(** A decoded reply that is neither an object nor null. *)
Definition bare_value (x : json) : Prop :=
  match x with
  | JNull | JDict _ => False
  | _ => True
  end.

(** A server whose replies are objects without the keys of a page. *)
Definition bare_listing (rq : HeadHunterAPI.request)
  : result HeadHunterAPI.response :=
  Return (HeadHunterAPI.mkResponse 200 (Some (JDict [("found", JInt 0)]))).

(** *** Tables *)

Import DBManager.

(** The foreign key of the vacancies: the company of every vacancy is
    stored. *)
Definition references_ok (db : database) : Prop :=
  forall v, In v (vacancies db) -> has_company (v_company_id v) db = true.

Definition well_formed (db : database) : Prop :=
  unique_ids db /\ references_ok db.

(** The number of stored vacancies of a company, and the companies with
    their numbers in the order of the table. *)
Definition count_for (c : company_row) (db : database) : Z :=
  Z.of_nat
    (List.length
       (filter (fun v => v_company_id v =? c_company_id c) (vacancies db))).

Definition counted (db : database) : list (string * Z) :=
  map (fun c => (c_name c, count_for c db)) (companies db).

(** [a] may come before [b] in decreasing order of count. *)
Definition count_desc (a b : string * Z) : Prop := snd b <= snd a.

(** A text without the three characters that [LIKE] reads specially. *)
Definition plain (s : string) : Prop :=
  Forall (fun c : ascii => c <> "%"%char /\ c <> "_"%char /\ c <> "\"%char)
    (list_ascii_of_string s).

(** The order of a collation: any two names compare, and the comparison is
    transitive. *)
Definition total_preorder (le : string -> string -> bool) : Prop :=
  (forall a b, le a b = true \/ le b a = true) /\
  (forall a b c, le a b = true -> le b c = true -> le a c = true).

(** [a] may come before [b] in a listing ordered by company name, then by
    vacancy name: the company of [a] is not after that of [b], and when the
    two company names rank the same the vacancy of [a] is not after that of
    [b]. *)
Definition in_name_order (le : string -> string -> bool) (a b : listing)
  : Prop :=
  le (l_company_name a) (l_company_name b) = true /\
  (le (l_company_name b) (l_company_name a) = true ->
   le (l_vacancy_name a) (l_vacancy_name b) = true).

(** A driver call fails before the commit has been made. *)
Definition not_committed (fl : faults) : Prop :=
  on_connect fl <> None \/ on_cursor fl <> None \/ on_execute fl <> None \/
  on_commit fl <> None.

(** Closing the cursor, which follows the commit, fails. *)
Definition close_fails : faults :=
  mkFaults None None None None None (Some PgError) None None.

End Props.

(** * Properties *)

(** ** Record normalizer *)

Section NormalizerFacts.

Import VacancyManager Spec.

(** The rewriting of [int] on texts beyond ASCII, of any interpreter. *)
Variable ascii_form : string -> string.

Lemma py_get_dict (d : list (string * json)) (k : string) (dflt : json) :
  py_get (JDict d) k dflt =
  Return (match lookup k d with Some v => v | None => dflt end).
Proof. reflexivity. Qed.

Lemma py_int_raise (x : json) (e : exn) :
  py_int ascii_form x = Raise e ->
  e = TypeError \/ e = ValueError \/ e = OverflowError.
Proof.
  destruct x as [ | b | n | [q | | neg] | s | l | d]; simpl;
    try discriminate; try (intros [= <-]; auto).
  destruct (int_of_str ascii_form s); [ discriminate | intros [= <-]; auto ].
Qed.

Lemma parse_from_api_outcome (d : list (string * json)) :
  well_nested d ->
  match parse_from_api ascii_form (JDict d) with
  | Return v =>
      fields_as_provided d v /\
      py_int ascii_form (id_value d) = Return (vacancy_id v) /\
      py_int ascii_form (employer_id_value d) = Return (company_id v)
  | Raise e =>
      py_int ascii_form (id_value d) = Raise e \/
      ((exists n, py_int ascii_form (id_value d) = Return n) /\
       py_int ascii_form (employer_id_value d) = Raise e)
  end.
Proof.
  unfold well_nested, absent_or_object, fields_as_provided, nested_name,
    salary_part, provided_or, id_value, employer_id_value, parse_from_api.
  intros (He & Hs & Ha & Hx & Hm).
  rewrite !py_get_dict. cbn [bind].
  destruct (lookup "employer" d) as [[ | | | | | | emp] | ];
    try contradiction; cbn [py_get bind lookup];
  (destruct (lookup "salary" d) as [[ | | | | | | sal] | ];
    try contradiction; cbn [py_get bind is_none];
   (destruct (lookup "area" d) as [[ | | | | | | ar] | ];
     try contradiction; cbn [py_get bind lookup];
    (destruct (lookup "experience" d) as [[ | | | | | | ex] | ];
      try contradiction; cbn [py_get bind lookup];
     (destruct (lookup "employment" d) as [[ | | | | | | em] | ];
       try contradiction; cbn [py_get bind lookup];
      (destruct (py_int ascii_form
                   (match lookup "id" d with Some v => v | None => JNull end))
         as [vid | e1] eqn:E1; cbn [bind];
       [ | left; reflexivity ];
       match goal with
       | |- context [py_int ascii_form ?x] =>
           destruct (py_int ascii_form x) as [cid | e2] eqn:E2; cbn [bind]
       end;
       [ cbn; repeat split; try reflexivity;
         repeat match goal with
                | |- context [lookup ?k ?o] => destruct (lookup k o)
                end; reflexivity
       | right; split; [ eexists; reflexivity | reflexivity ] ]))))).
Qed.

Lemma parse_success_well_nested (d : list (string * json)) (v : Vacancy) :
  parse_from_api ascii_form (JDict d) = Return v -> well_nested d.
Proof.
  unfold well_nested, absent_or_object, parse_from_api.
  rewrite !py_get_dict. cbn [bind]. intros H.
  destruct (lookup "employer" d) as [[ | | | | | | emp] | ];
    cbn [py_get bind lookup] in H; try discriminate H;
  (destruct (lookup "salary" d) as [[ | | | | | | sal] | ];
    cbn [py_get bind is_none] in H; try discriminate H;
   (destruct (lookup "area" d) as [[ | | | | | | ar] | ];
     cbn [py_get bind lookup] in H; try discriminate H;
    (destruct (lookup "experience" d) as [[ | | | | | | ex] | ];
      cbn [py_get bind lookup] in H; try discriminate H;
     (destruct (lookup "employment" d) as [[ | | | | | | em] | ];
       cbn [py_get bind lookup] in H; try discriminate H;
      repeat split)))).
Qed.

(** C4 (as amended).  A successful [parse_from_api] yields integer
    identifiers, the [int] conversions of the provided ones, and every other
    attribute, the name included, is the provided value or its default
    (empty string for the description, absence otherwise).  On a payload
    whose nested values are objects, the call fails exactly when [int]
    rejects the identifier or the employer identifier, with the error that
    [int] raised (a type, value or overflow error). *)
Theorem parse_from_api_normalizes :
  (forall d v,
      parse_from_api ascii_form (JDict d) = Return v ->
      py_int ascii_form (id_value d) = Return (vacancy_id v) /\
      py_int ascii_form (employer_id_value d) = Return (company_id v) /\
      fields_as_provided d v) /\
  (forall d,
      well_nested d ->
      ((exists e, parse_from_api ascii_form (JDict d) = Raise e) <->
       (exists e, py_int ascii_form (id_value d) = Raise e) \/
       (exists e, py_int ascii_form (employer_id_value d) = Raise e)) /\
      (forall e, parse_from_api ascii_form (JDict d) = Raise e ->
                 e = TypeError \/ e = ValueError \/ e = OverflowError)).
Proof.
  split.
  - intros d v H.
    pose proof (parse_from_api_outcome d (parse_success_well_nested d v H))
      as O.
    rewrite H in O. tauto.
  - intros d W. pose proof (parse_from_api_outcome d W) as O.
    destruct (parse_from_api ascii_form (JDict d)) as [v | e].
    + destruct O as (Hf & Hi & Hc). split.
      * split.
        -- intros [e He]. discriminate He.
        -- intros [[e He] | [e He]]; congruence.
      * intros e He. discriminate He.
    + split.
      * split.
        -- intros _. destruct O as [O | [_ O]]; eauto.
        -- intros _. eauto.
      * intros e' [= <-].
        destruct O as [O | [_ O]]; exact (py_int_raise _ _ O).
Qed.

(** C4, as stated, fails: the name is not validated, so a payload without a
    name normalizes to a record whose name is absent. *)
Lemma parse_from_api_name_unchecked :
  ~ (forall ascii_form d v,
        parse_from_api ascii_form (JDict d) = Return v ->
        exists s, name v = JStr s).
Proof.
  intros H.
  destruct (H ascii_only
              [("id", JInt 1); ("employer", JDict [("id", JInt 2)])] _
              eq_refl)
    as [s Hs].
  discriminate Hs.
Qed.

Lemma extract_from_spec (vacancies_data : list json) :
  (forall x e, In x vacancies_data -> parse_from_api ascii_form x = Raise e ->
               caught_by_extract e = true) ->
  forall vacancies console,
    extract_from ascii_form vacancies_data vacancies console =
    (Return (vacancies ++ successes ascii_form vacancies_data),
     console ++ failures ascii_form vacancies_data).
Proof.
  induction vacancies_data as [ | x rest IH]; intros Hc vacancies console.
  - simpl. now rewrite !app_nil_r.
  - cbn [extract_from successes failures flat_map].
    destruct (parse_from_api ascii_form x) as [v | e] eqn:E.
    + rewrite IH by (intros y e' Hy; apply Hc; right; exact Hy).
      now rewrite <- !app_assoc.
    + rewrite (Hc x e (or_introl eq_refl) E).
      rewrite IH by (intros y e' Hy; apply Hc; right; exact Hy).
      now rewrite <- !app_assoc.
Qed.

(** Items whose normalization raises an error of the [except] clause are
    skipped and the other items are returned in input order. *)
Lemma extract_vacancies_skips (vacancies_data : list json) :
  (forall x e, In x vacancies_data -> parse_from_api ascii_form x = Raise e ->
               caught_by_extract e = true) ->
  extract_vacancies ascii_form vacancies_data =
  (Return (successes ascii_form vacancies_data),
   failures ascii_form vacancies_data).
Proof.
  intros Hc. unfold extract_vacancies.
  now rewrite (extract_from_spec vacancies_data Hc).
Qed.

(** C6.  The batch is aborted by an item whose employer is null: its
    normalization raises an attribute error, which the handler of
    [extract_vacancies] does not name, so the item that follows is never
    processed and no list is returned. *)
Theorem extract_vacancies_aborted_by_null_employer :
  parse_from_api ascii_form (JDict [("id", JStr "1"); ("employer", JNull)]) =
    Raise AttributeError /\
  (exists v,
      parse_from_api ascii_form
        (JDict [("id", JStr "2"); ("employer", JDict [("id", JStr "7")])]) =
      Return v) /\
  extract_vacancies ascii_form
    [JDict [("id", JStr "1"); ("employer", JNull)];
     JDict [("id", JStr "2"); ("employer", JDict [("id", JStr "7")])]] =
  (Raise AttributeError, []).
Proof.
  split; [ reflexivity | split; [ eexists; reflexivity | reflexivity ] ].
Qed.

End NormalizerFacts.

Section FilterFacts.

Import VacancyManager Spec.

Lemma parse_from_api_normalizes_witness :
  parse_from_api ascii_only (JDict sample_payload) =
    Return (mkVacancy 101 7 (JStr "Developer") (JInt 100000) JNull
              (JStr "RUR") JNull JNull JNull (JStr "") JNull JNull) /\
  fields_as_provided sample_payload
    (mkVacancy 101 7 (JStr "Developer") (JInt 100000) JNull
       (JStr "RUR") JNull JNull JNull (JStr "") JNull JNull) /\
  well_nested sample_payload /\
  forall e, parse_from_api ascii_only (JDict sample_payload) = Raise e ->
            e = TypeError \/ e = ValueError \/ e = OverflowError.
Proof.
  split; [ reflexivity | split ].
  - exact (proj2 (proj2 (proj1 (parse_from_api_normalizes ascii_only)
                           sample_payload _ eq_refl))).
  - assert (W : well_nested sample_payload)
      by (unfold well_nested, absent_or_object; simpl; tauto).
    split; [ exact W | ].
    exact (proj2 (proj2 (parse_from_api_normalizes ascii_only)
                    sample_payload W)).
Defined.

Lemma prefix_occurs (p s : string) :
  String.prefix p s = true <-> exists post, s = (p ++ post)%string.
Proof.
  revert s. induction p as [ | a p IH]; intros s.
  - split; [ intros _; exists s; reflexivity | destruct s; reflexivity ].
  - destruct s as [ | b s]; simpl.
    + split; [ discriminate | intros [post H]; discriminate H ].
    + destruct (Ascii.ascii_dec a b) as [-> | Hab].
      * rewrite IH. split; intros [post H]; exists post.
        -- now rewrite H.
        -- now injection H.
      * split; [ discriminate | intros [post H]; injection H; congruence ].
Qed.

Lemma contains_occurs (p s : string) :
  contains p s = true <-> occurs_in p s.
Proof.
  unfold occurs_in. induction s as [ | c s IH]; cbn [contains].
  - rewrite orb_false_r, prefix_occurs. split.
    + intros [post H]. exists EmptyString, post. exact H.
    + intros (pre & post & H). destruct pre as [ | a pre]; simpl in H.
      * exists post. exact H.
      * discriminate H.
  - rewrite orb_true_iff, prefix_occurs, IH. split.
    + intros [[post H] | (pre & post & H)].
      * exists EmptyString, post. exact H.
      * exists (String c pre), post. simpl. now rewrite H.
    + intros (pre & post & H). destruct pre as [ | a pre]; simpl in H.
      * left. exists post. exact H.
      * right. exists pre, post. now injection H.
Qed.

Lemma subseq_filter {A : Type} (f : A -> bool) (l : list A) :
  subseq (filter f l) l.
Proof.
  induction l as [ | x l IH]; simpl.
  - constructor.
  - destruct (f x); now constructor.
Qed.

Lemma comprehension_filter (test : Vacancy -> result bool)
    (f : Vacancy -> bool) (vacancies : list Vacancy) :
  Forall (fun v => test v = Return (f v)) vacancies ->
  comprehension test vacancies = Return (filter f vacancies).
Proof.
  induction 1 as [ | v rest Hv _ IH]; simpl.
  - reflexivity.
  - rewrite Hv, IH. reflexivity.
Qed.

(** C8.  On records whose name is a string, [filter_by_keyword] returns a
    subsequence of its input, in the original relative order, made of
    exactly the records whose lower-cased name contains the lower-cased
    keyword.  The source is one list comprehension over its arguments: it
    prints nothing and builds a new list, so the function has neither a
    console nor a store. *)
Theorem filter_by_keyword_spec (lower : string -> string)
    (vacancies : list Vacancy) (keyword : string) :
  Forall name_typed vacancies ->
  exists out,
    filter_by_keyword lower vacancies keyword = Return out /\
    out = filter (has_keyword lower keyword) vacancies /\
    subseq out vacancies /\
    forall v, In v out <->
              In v vacancies /\ name_has_keyword lower keyword v.
Proof.
  intros T. exists (filter (has_keyword lower keyword) vacancies).
  split; [ | split; [ reflexivity | split; [ apply subseq_filter | ] ] ].
  - unfold filter_by_keyword. apply comprehension_filter.
    eapply Forall_impl; [ | exact T ].
    intros v [s Hs]. unfold keyword_test, has_keyword. now rewrite Hs.
  - intros v. rewrite filter_In.
    unfold has_keyword, name_has_keyword. split.
    + intros [Hin Hk]. split; [ exact Hin | ].
      destruct (name v) as [ | | | | s | | ]; try discriminate Hk.
      exists s. split; [ reflexivity | now apply contains_occurs ].
    + intros [Hin (s & Hs & Ho)]. split; [ exact Hin | ].
      rewrite Hs. now apply contains_occurs.
Qed.

Lemma filter_by_keyword_spec_witness :
  exists out,
    filter_by_keyword ascii_lower
      [named 1 "Senior Python Developer"; named 2 "Accountant";
       named 3 "python intern"] "PYTHON" = Return out /\
    out = [named 1 "Senior Python Developer"; named 3 "python intern"].
Proof.
  destruct (filter_by_keyword_spec ascii_lower
              [named 1 "Senior Python Developer"; named 2 "Accountant";
               named 3 "python intern"] "PYTHON") as (out & H & E & _).
  - repeat constructor; eexists; reflexivity.
  - exists out. split; [ exact H | ]. rewrite E. reflexivity.
Defined.

Lemma keeps_salary_kept (lo hi : option Z) (v : Vacancy) :
  keeps_salary lo hi v = true <-> kept_by_salary lo hi v.
Proof.
  unfold keeps_salary, kept_by_salary.
  rewrite !andb_true_iff, negb_true_iff, andb_false_iff.
  split.
  - intros [[Hn Hl] Hh]. repeat split.
    + destruct Hn as [Hn | Hn]; [ left | right ]; intros E; rewrite E in Hn;
        discriminate Hn.
    + intros l ->. destruct (salary_to v); try discriminate Hl.
      eexists; split; [ reflexivity | now apply Z.leb_le ].
    + intros h ->. destruct (salary_from v); try discriminate Hh.
      eexists; split; [ reflexivity | now apply Z.leb_le ].
  - intros (Hn & Hl & Hh). repeat split.
    + destruct Hn as [Hn | Hn]; [ left | right ];
        [ destruct (salary_from v) | destruct (salary_to v) ];
        try reflexivity; now contradiction Hn.
    + destruct lo as [l | ]; [ | reflexivity ].
      destruct (Hl l eq_refl) as (t & -> & Ht). now apply Z.leb_le.
    + destruct hi as [h | ]; [ | reflexivity ].
      destruct (Hh h eq_refl) as (f & -> & Hf). now apply Z.leb_le.
Qed.

Lemma salary_loop_filter (lo hi : option Z) (vacancies : list Vacancy) :
  Forall salary_typed vacancies ->
  forall filtered,
    salary_loop vacancies lo hi filtered =
    Return (filtered ++ filter (keeps_salary lo hi) vacancies).
Proof.
  induction 1 as [ | v rest [Hf Ht] _ IH]; intros filtered; simpl.
  - now rewrite app_nil_r.
  - unfold no_salary, below_floor, above_ceiling, keeps_salary.
    destruct Hf as [-> | [f ->]], Ht as [-> | [t ->]]; cbn [is_none andb negb];
      destruct lo as [l | ], hi as [h | ];
      cbn [bind py_lt py_gt andb]; rewrite ?IH; try reflexivity;
      repeat match goal with
             | |- context [?a <? ?b] => destruct (Z.ltb_spec a b)
             | |- context [?a <=? ?b] => destruct (Z.leb_spec a b)
             end;
      cbn [bind andb]; rewrite ?IH, <- ?app_assoc;
      first [ reflexivity | exfalso; lia ].
Qed.

(** C5.  On records whose salary bounds are absent or integers,
    [filter_by_salary_range] keeps, in order, exactly the records that have
    a bound set, whose upper bound is present and not below the wanted floor
    when one is given, and whose lower bound is present and not above the
    wanted ceiling when one is given.  With floor 100000 and no ceiling, a
    record with only an upper bound of 90000 is dropped and one with only an
    upper bound of 120000 is kept. *)
Theorem filter_by_salary_range_spec (vacancies : list Vacancy)
    (lo hi : option Z) :
  Forall salary_typed vacancies ->
  (exists out,
      filter_by_salary_range vacancies lo hi = Return out /\
      out = filter (keeps_salary lo hi) vacancies /\
      subseq out vacancies /\
      forall v, In v out <-> In v vacancies /\ kept_by_salary lo hi v) /\
  filter_by_salary_range
    [with_salary 1 JNull (JInt 90000); with_salary 2 JNull (JInt 120000)]
    (Some 100000) None =
  Return [with_salary 2 JNull (JInt 120000)].
Proof.
  intros T. split; [ | reflexivity ].
  exists (filter (keeps_salary lo hi) vacancies).
  split; [ | split; [ reflexivity | split; [ apply subseq_filter | ] ] ].
  - unfold filter_by_salary_range. now rewrite salary_loop_filter.
  - intros v. rewrite filter_In, keeps_salary_kept. reflexivity.
Qed.

Lemma filter_by_salary_range_spec_witness :
  exists out,
    filter_by_salary_range
      [with_salary 1 (JInt 50000) (JInt 80000); with_salary 2 JNull JNull;
       with_salary 3 (JInt 70000) JNull; with_salary 4 (JInt 95000) (JInt 99000)]
      (Some 60000) (Some 90000) = Return out /\
    out = [with_salary 1 (JInt 50000) (JInt 80000)].
Proof.
  destruct (filter_by_salary_range_spec
              [with_salary 1 (JInt 50000) (JInt 80000);
               with_salary 2 JNull JNull;
               with_salary 3 (JInt 70000) JNull;
               with_salary 4 (JInt 95000) (JInt 99000)]
              (Some 60000) (Some 90000)) as [(out & H & E & _) _].
  - repeat (apply Forall_cons;
            [ split; unfold optional_int; simpl; eauto | ]).
    apply Forall_nil.
  - exists out. split; [ exact H | ]. rewrite E. reflexivity.
Defined.

End FilterFacts.

(** ** API client *)

Section ClientFacts.

Import HeadHunterAPI Spec.

Variable requests_get : request -> result response.
Variable employer_id : Z.
Variable pages : Z.
Variable items : nat -> list json.

#[local] Abbreviation served :=
  (page_ok requests_get employer_id pages items).

Lemma take_page_is_page (data : json) (its : list json) (page : Z)
    (all_vacancies : list json) :
  is_page data its pages ->
  is_none data = false /\
  take_page data page all_vacancies =
    Return (all_vacancies ++ its, pages - 1 <=? page).
Proof.
  intros (d & -> & Hi & Hp). split; [ reflexivity | ].
  unfold take_page. cbn [py_get bind]. rewrite Hi. cbn [py_extend bind].
  rewrite Hp. reflexivity.
Qed.

Lemma pages_loop_complete (m : nat) :
  forall (p : nat) (all_vacancies : list json) (sent : list request)
         (fuel : nat),
    (forall k, (p <= k <= p + m)%nat -> served k) ->
    (forall k, (p <= k < p + m)%nat -> Z.of_nat k < pages - 1) ->
    pages - 1 <= Z.of_nat (p + m) ->
    (m < fuel)%nat ->
    pages_loop requests_get fuel employer_id (Z.of_nat p) all_vacancies sent =
    Some (Return (all_vacancies ++ items_of_pages items p (S m)),
          sent ++ page_requests employer_id p (S m)).
Proof.
  unfold items_of_pages, page_requests.
  induction m as [ | m IH]; intros p all_vacancies sent fuel Hok Hmid Hlast Hf;
    (destruct fuel as [ | fuel]; [ lia | ]);
    destruct (Hok p ltac:(lia)) as (data & Hget & Hpage);
    destruct (take_page_is_page data _ (Z.of_nat p) all_vacancies Hpage)
      as [Hn Ht];
    cbn [pages_loop]; rewrite Hget, Hn, Ht.
  - replace (pages - 1 <=? Z.of_nat p) with true
      by (symmetry; apply Z.leb_le; rewrite Nat.add_0_r in Hlast; lia).
    simpl. now rewrite app_nil_r.
  - replace (pages - 1 <=? Z.of_nat p) with false
      by (symmetry; apply Z.leb_gt; apply Hmid; lia).
    replace (Z.of_nat p + 1) with (Z.of_nat (S p)) by lia.
    rewrite (IH (S p)).
    + cbn [seq map List.concat]. now rewrite <- !app_assoc.
    + intros k Hk. apply Hok. lia.
    + intros k Hk. apply Hmid. lia.
    + replace (S p + m)%nat with (p + S m)%nat by lia. exact Hlast.
    + lia.
Qed.

Lemma pages_loop_interrupted (m : nat) :
  forall (p : nat) (all_vacancies : list json) (sent : list request)
         (fuel : nat),
    (forall k, (p <= k < p + m)%nat -> served k) ->
    (forall k, (p <= k < p + m)%nat -> Z.of_nat k < pages - 1) ->
    get_employer_vacancies requests_get employer_id (Z.of_nat (p + m)) 100 =
      Return JNull ->
    (m < fuel)%nat ->
    pages_loop requests_get fuel employer_id (Z.of_nat p) all_vacancies sent =
    Some (Return (all_vacancies ++ items_of_pages items p m),
          sent ++ page_requests employer_id p (S m)).
Proof.
  unfold items_of_pages, page_requests.
  induction m as [ | m IH]; intros p all_vacancies sent fuel Hok Hmid Hbad Hf;
    (destruct fuel as [ | fuel]; [ lia | ]).
  - rewrite Nat.add_0_r in Hbad. cbn [pages_loop]. rewrite Hbad.
    simpl. now rewrite app_nil_r.
  - destruct (Hok p ltac:(lia)) as (data & Hget & Hpage).
    destruct (take_page_is_page data _ (Z.of_nat p) all_vacancies Hpage)
      as [Hn Ht].
    cbn [pages_loop]. rewrite Hget, Hn, Ht.
    replace (pages - 1 <=? Z.of_nat p) with false
      by (symmetry; apply Z.leb_gt; apply Hmid; lia).
    replace (Z.of_nat p + 1) with (Z.of_nat (S p)) by lia.
    rewrite (IH (S p)).
    + cbn [seq map List.concat]. now rewrite <- !app_assoc.
    + intros k Hk. apply Hok. lia.
    + intros k Hk. apply Hmid. lia.
    + replace (S p + m)%nat with (p + S m)%nat by lia. exact Hbad.
    + lia.
Qed.

(** C1 (as amended).  Against a server that reports [pages] pages, the
    loop issues one request per page for the pages 0 to [pages - 1] when
    [pages] is at least 1, and one request, for page 0, when [pages] is 0 or
    less; it returns the items of these pages in page order.  When the
    request for page [k] gives the absence marker, no further request is
    issued and the items of the pages before [k] are returned; that is the
    empty list when [k] is 0, as it is when the only page is empty. *)
Theorem get_all_vacancies_for_employer_pages :
  let n := Z.to_nat (Z.max pages 1) in
  ((forall k, (k < n)%nat -> served k) ->
   forall fuel, (n <= fuel)%nat ->
     get_all_vacancies_for_employer requests_get fuel employer_id =
     Some (Return (items_of_pages items 0 n),
           page_requests employer_id 0 n)) /\
  (forall k, (k < n)%nat ->
     (forall j, (j < k)%nat -> served j) ->
     get_employer_vacancies requests_get employer_id (Z.of_nat k) 100 =
       Return JNull ->
     forall fuel, (k < fuel)%nat ->
       get_all_vacancies_for_employer requests_get fuel employer_id =
       Some (Return (items_of_pages items 0 k),
             page_requests employer_id 0 (S k))) /\
  (get_employer_vacancies requests_get employer_id 0 100 = Return JNull ->
   forall fuel, (0 < fuel)%nat ->
     get_all_vacancies_for_employer requests_get fuel employer_id =
     Some (Return [], page_requests employer_id 0 1)) /\
  (pages <= 1 -> served 0%nat -> items 0%nat = [] ->
   forall fuel, (0 < fuel)%nat ->
     get_all_vacancies_for_employer requests_get fuel employer_id =
     Some (Return [], page_requests employer_id 0 1)).
Proof.
  intros n. unfold get_all_vacancies_for_employer.
  assert (Hn : (0 < n)%nat) by (unfold n; lia).
  split; [ | split; [ | split ] ].
  - intros Hok fuel Hf.
    change 0 with (Z.of_nat 0).
    replace n with (S (n - 1)) by lia.
    rewrite (pages_loop_complete (n - 1) 0 [] []); try reflexivity.
    + intros k Hk. apply Hok. lia.
    + intros k Hk. unfold n in *. lia.
    + unfold n in *. lia.
    + lia.
  - intros k Hk Hok Hbad fuel Hf.
    change 0 with (Z.of_nat 0).
    rewrite (pages_loop_interrupted k 0 [] []); try reflexivity.
    + intros j Hj. apply Hok. lia.
    + intros j Hj. unfold n in *. lia.
    + exact Hbad.
    + exact Hf.
  - intros Hbad fuel Hf.
    change 0 with (Z.of_nat 0).
    rewrite (pages_loop_interrupted 0 0 [] []); try reflexivity.
    + intros j Hj. lia.
    + intros j Hj. lia.
    + exact Hbad.
    + exact Hf.
  - intros Hp Hok Hempty fuel Hf.
    change 0 with (Z.of_nat 0).
    rewrite (pages_loop_complete 0 0 [] []).
    + unfold items_of_pages. cbn [seq map List.concat]. rewrite Hempty.
      reflexivity.
    + intros k Hk. replace k with 0%nat by lia. exact Hok.
    + intros k Hk. lia.
    + simpl. lia.
    + exact Hf.
Qed.

End ClientFacts.

Section ClientExamples.

Import HeadHunterAPI Spec.

Lemma numbered_pages_ok (pages : Z) (employer_id : Z) (k : nat) :
  page_ok (numbered_pages pages) employer_id pages
    (fun k => [JInt (Z.of_nat k)]) k.
Proof.
  unfold page_ok, get_employer_vacancies, fetch. simpl.
  eexists. split; [ reflexivity | ].
  eexists. repeat split; reflexivity.
Qed.

Lemma get_all_vacancies_for_employer_pages_witness :
  get_all_vacancies_for_employer (numbered_pages 3) 5 7 =
    Some (Return [JInt 0; JInt 1; JInt 2],
          [GetVacancies 7 0 100; GetVacancies 7 1 100;
           GetVacancies 7 2 100]) /\
  get_all_vacancies_for_employer (numbered_pages_but 3 1) 5 7 =
    Some (Return [JInt 0], [GetVacancies 7 0 100; GetVacancies 7 1 100]).
Proof.
  split.
  - apply (proj1 (get_all_vacancies_for_employer_pages (numbered_pages 3) 7 3
                    (fun k => [JInt (Z.of_nat k)]))).
    + intros k _. apply numbered_pages_ok.
    + simpl. lia.
  - apply (proj1 (proj2 (get_all_vacancies_for_employer_pages
                           (numbered_pages_but 3 1) 7 3
                           (fun k => [JInt (Z.of_nat k)]))) 1%nat).
    + simpl. lia.
    + intros j Hj. replace j with 0%nat by lia.
      eexists. split; [ reflexivity | ].
      eexists. repeat split; reflexivity.
    + reflexivity.
    + lia.
Defined.

(** C1, as stated, fails when the server reports no page: the claim
    predicts no request at all, and the loop always issues the request for
    page 0. *)
Lemma get_all_vacancies_for_employer_zero_pages :
  ~ (forall requests_get employer_id pages items,
        0 <= pages ->
        (forall k, page_ok requests_get employer_id pages items k) ->
        exists fuel,
          get_all_vacancies_for_employer requests_get fuel employer_id =
          Some (Return (items_of_pages items 0 (Z.to_nat pages)),
                page_requests employer_id 0 (Z.to_nat pages))).
Proof.
  intros H.
  destruct (H empty_listing 7 0 (fun _ => []) ltac:(lia)) as [fuel Hf].
  - intros k. eexists. split; [ reflexivity | ].
    eexists. repeat split; reflexivity.
  - destruct fuel as [ | fuel]; discriminate Hf.
Qed.

End ClientExamples.

(** ** Persistence and query layer *)

Section StoreFacts.

Import DBManager Main Spec.

(** The reading of timestamps by the store, whatever it is. *)
Variable timestamp_in : string -> bool.

(** Case analysis on the innermost tests met in the hypotheses and in the
    goal. *)
Ltac split_on x :=
  lazymatch x with
  | context [match _ with _ => _ end] => fail
  | _ => first [ is_var x; destruct x | destruct x eqn:? ]
  end.

Ltac split_tests :=
  repeat (simpl in *;
          match goal with
          | H : context [match ?x with _ => _ end] |- _ => split_on x
          | |- context [match ?x with _ => _ end] => split_on x
          end).

Lemma insert_frame_true (fl : faults) (db db' : database)
    (params : result unit) (stmt : database -> result database) :
  insert_frame fl db params stmt = (Return true, db') ->
  params = Return tt /\ stmt db = Return db'.
Proof.
  unfold insert_frame, get_connection, run_statement, finally, try_except,
    raise_if, bind.
  destruct fl, params as [[] | e]. all: intros H; split_tests; split; congruence.
Qed.

Lemma insert_frame_tables (fl : faults) (db db' : database)
    (params : result unit) (stmt : database -> result database)
    (r : result bool) :
  insert_frame fl db params stmt = (r, db') ->
  db' = db \/ (params = Return tt /\ stmt db = Return db').
Proof.
  unfold insert_frame, get_connection, run_statement, finally, try_except,
    raise_if, bind.
  destruct fl, params as [[] | e]. all: intros H; split_tests;
    injection H as <- <-; auto.
Qed.

Lemma insert_frame_no_faults (db : database) (params : result unit)
    (stmt : database -> result database) :
  insert_frame no_faults db params stmt =
  match params with
  | Raise e => (if is_pg_error e then Return false else Raise e, db)
  | Return _ =>
      match stmt db with
      | Return db' => (Return true, db')
      | Raise e => (if is_pg_error e then Return false else Raise e, db)
      end
  end.
Proof.
  unfold insert_frame, get_connection, run_statement, finally, try_except,
    raise_if, bind. simpl.
  destruct params as [[] | e];
    [ destruct (stmt db) as [db' | e]; [ reflexivity | ] | ];
    destruct (is_pg_error e); reflexivity.
Qed.

(** *** The column types *)

Lemma integer_column_returns (n m : Z) :
  integer_column n = Return m -> m = n /\ int4_min <= n <= int4_max.
Proof.
  unfold integer_column.
  destruct (Z.leb_spec int4_min n), (Z.leb_spec n int4_max); cbn;
    try discriminate.
  intros [= <-]. auto.
Qed.

Lemma integer_column_fits (n : Z) :
  fits_integer n -> integer_column n = Return n.
Proof.
  unfold fits_integer, integer_column. intros [L U].
  apply Z.leb_le in L, U. now rewrite L, U.
Qed.

Lemma nullable_integer_returns (x y : option Z) :
  nullable integer_column x = Return y -> y = x.
Proof.
  destruct x as [n | ]; cbn; [ | congruence ].
  destruct (integer_column n) as [m | e] eqn:E; cbn; [ | discriminate ].
  intros [= <-]. now rewrite (proj1 (integer_column_returns _ _ E)).
Qed.

Lemma clip_fits (s : list ascii) :
  forall n,
    (List.length (filter (fun c => negb (is_continuation c)) s) <= n)%nat ->
    clip n s = (s, []).
Proof.
  induction s as [ | c s IH]; intros n L; [ reflexivity | ].
  cbn [clip filter] in *. destruct (is_continuation c); cbn [negb] in L.
  - now rewrite (IH n L).
  - cbn [List.length] in L. destruct n as [ | n]; [ lia | ].
    rewrite (IH n); [ reflexivity | lia ].
Qed.

Lemma varchar_column_fits (n : nat) (s : string) :
  (text_length s <= n)%nat -> varchar_column n s = Return s.
Proof.
  unfold text_length, varchar_column. intros L.
  rewrite (clip_fits _ _ L). cbn. now rewrite string_of_list_ascii_of_string.
Qed.

Lemma varchar_column_raises (n : nat) (s : string) (e : exn) :
  varchar_column n s = Raise e -> e = PgError.
Proof.
  unfold varchar_column. destruct (clip n _) as [kept excess].
  destruct (forallb _ excess); [ discriminate | congruence ].
Qed.

Lemma nullable_raises {A : Type} (column : A -> result A) (x : option A)
    (e : exn) :
  (forall a e', column a = Raise e' -> e' = PgError) ->
  nullable column x = Raise e -> e = PgError.
Proof.
  intros C. destruct x as [a | ]; cbn; [ | discriminate ].
  destruct (column a) as [b | e'] eqn:E; cbn; [ discriminate | ].
  intros [= <-]. exact (C a e' E).
Qed.

Lemma integer_column_raises (n : Z) (e : exn) :
  integer_column n = Raise e -> e = PgError.
Proof.
  unfold integer_column. destruct (_ && _); [ discriminate | congruence ].
Qed.

Lemma timestamp_column_raises (s : string) (e : exn) :
  timestamp_column timestamp_in s = Raise e -> e = PgError.
Proof.
  unfold timestamp_column. destruct (timestamp_in s);
    [ discriminate | congruence ].
Qed.

(** Case analysis on the steps of a sequence of column checks. *)
Ltac step_columns H :=
  repeat match type of H with
         | context [bind ?m _] =>
             let E := fresh "E" in
             destruct m eqn:E; cbn [bind] in H
         end.

Ltac column_error :=
  lazymatch goal with
  | E : integer_column _ = Raise _ |- _ => exact (integer_column_raises _ _ E)
  | E : varchar_column _ _ = Raise _ |- _ =>
      exact (varchar_column_raises _ _ _ E)
  | E : timestamp_column _ _ = Raise _ |- _ =>
      exact (timestamp_column_raises _ _ E)
  | E : nullable _ _ = Raise _ |- _ =>
      eapply nullable_raises; [ | exact E ]; intros ? ?;
      first [ apply integer_column_raises
            | apply varchar_column_raises
            | apply timestamp_column_raises ]
  end.

Lemma company_columns_returns (row stored : company_row) :
  company_columns row = Return stored ->
  c_company_id stored = c_company_id row /\
  c_open_vacancies stored = c_open_vacancies row.
Proof.
  unfold company_columns. intros H. step_columns H; try discriminate H.
  injection H as <-. cbn.
  repeat match goal with
         | E : integer_column _ = Return _ |- _ =>
             apply integer_column_returns in E; destruct E as [-> _]
         end.
  auto.
Qed.

Lemma company_columns_raises (row : company_row) (e : exn) :
  company_columns row = Raise e -> e = PgError.
Proof.
  unfold company_columns. intros H. step_columns H; try discriminate H;
    injection H as <-; column_error.
Qed.

Lemma vacancy_columns_returns (row stored : vacancy_row) :
  vacancy_columns timestamp_in row = Return stored ->
  v_vacancy_id stored = v_vacancy_id row /\
  v_company_id stored = v_company_id row /\
  v_salary_from stored = v_salary_from row /\
  v_salary_to stored = v_salary_to row.
Proof.
  unfold vacancy_columns. intros H. step_columns H; try discriminate H.
  injection H as <-. cbn.
  repeat match goal with
         | E : integer_column _ = Return _ |- _ =>
             apply integer_column_returns in E; destruct E as [-> _]
         | E : nullable integer_column _ = Return _ |- _ =>
             apply nullable_integer_returns in E; subst
         end.
  auto.
Qed.

Lemma vacancy_columns_raises (row : vacancy_row) (e : exn) :
  vacancy_columns timestamp_in row = Raise e -> e = PgError.
Proof.
  unfold vacancy_columns. intros H. step_columns H; try discriminate H;
    injection H as <-; column_error.
Qed.

Lemma adapt_text_clean (s : string) :
  has_nul s = false -> adapt_text s = Return tt.
Proof. unfold adapt_text. now intros ->. Qed.

Lemma adapt_optional_clean (s : option string) :
  optional (fun s => has_nul s = false) s -> adapt_optional s = Return tt.
Proof. destruct s as [s | ]; cbn; [ apply adapt_text_clean | reflexivity ]. Qed.

Lemma nullable_varchar_fits (n : nat) (s : option string) :
  optional (fits_text n) s -> nullable (varchar_column n) s = Return s.
Proof.
  destruct s as [s | ]; cbn; [ | reflexivity ].
  intros [_ L]. now rewrite (varchar_column_fits n s L).
Qed.

Lemma nullable_integer_fits (x : option Z) :
  optional fits_integer x -> nullable integer_column x = Return x.
Proof.
  destruct x as [n | ]; cbn; [ | reflexivity ].
  intros F. now rewrite (integer_column_fits n F).
Qed.

(** Values that fit their columns are taken and stored as they are. *)
Lemma company_fits_taken (row : company_row) :
  company_fits row -> company_taken row row.
Proof.
  unfold company_fits, company_taken, company_params, company_columns.
  intros (Fi & [Nn Fn] & Fs & Fo). split.
  - rewrite (adapt_text_clean _ Nn). cbn [bind].
    apply adapt_optional_clean.
    destruct (c_site_url row); cbn in *; [ exact (proj1 Fs) | exact I ].
  - rewrite (integer_column_fits _ Fi), (varchar_column_fits _ _ Fn),
      (nullable_varchar_fits _ _ Fs), (integer_column_fits _ Fo).
    cbn. now destruct row.
Qed.

Lemma vacancy_fits_taken (row : vacancy_row) :
  vacancy_fits timestamp_in row -> vacancy_taken timestamp_in row row.
Proof.
  unfold vacancy_fits, vacancy_taken, vacancy_params, vacancy_columns.
  intros (Fv & Fc & [Nn Fn] & Ff & Ft & Fcu & Fa & Fe & Fm & Fd & Fu & Fp).
  assert (C : forall n s, optional (fits_text n) s ->
                          adapt_optional s = Return tt).
  { intros n [s | ]; cbn; [ | reflexivity ].
    intros [N _]. now apply adapt_text_clean. }
  split.
  - rewrite (adapt_text_clean _ Nn), (C _ _ Fcu), (C _ _ Fa), (C _ _ Fe),
      (C _ _ Fm), (adapt_optional_clean _ Fd), (C _ _ Fu). cbn [bind].
    destruct (v_published_at row) as [s | ]; cbn in *; [ | reflexivity ].
    now apply adapt_text_clean.
  - rewrite (integer_column_fits _ Fv), (integer_column_fits _ Fc),
      (varchar_column_fits _ _ (proj2 (conj Nn Fn))),
      (nullable_integer_fits _ Ff), (nullable_integer_fits _ Ft),
      (nullable_varchar_fits _ _ Fcu), (nullable_varchar_fits _ _ Fa),
      (nullable_varchar_fits _ _ Fe), (nullable_varchar_fits _ _ Fm),
      (nullable_varchar_fits _ _ Fu).
    cbn [bind].
    destruct row as [vid cid n f t cu a e m d u [p | ]]; cbn in *.
    + unfold timestamp_column. now rewrite (proj2 Fp).
    + reflexivity.
Qed.

(** *** The statements *)

Lemma filter_key_absent {A : Type} (key : A -> Z) (k : Z) (l : list A) :
  ~ In k (map key l) -> filter (fun y => key y =? k) l = [].
Proof.
  induction l as [ | a l IH]; simpl; intros Hk; [ reflexivity | ].
  destruct (Z.eqb_spec (key a) k) as [E | _].
  - contradiction Hk. left. exact E.
  - apply IH. intros Hin. apply Hk. right. exact Hin.
Qed.

Lemma filter_key_unique {A : Type} (key : A -> Z) (l : list A) (x : A) :
  NoDup (map key l) -> In x l -> filter (fun y => key y =? key x) l = [x].
Proof.
  induction l as [ | a l IH]; simpl; intros Hnd Hin; [ contradiction | ].
  inversion Hnd as [ | k ks Hk Hks]; subst.
  destruct Hin as [-> | Hin].
  - rewrite Z.eqb_refl. now rewrite filter_key_absent.
  - destruct (Z.eqb_spec (key a) (key x)) as [E | _].
    + contradiction Hk. rewrite E. now apply in_map.
    + now apply IH.
Qed.

Lemma existsb_key {A : Type} (key : A -> Z) (k : Z) (l : list A) :
  existsb (fun y => key y =? k) l = true <-> In k (map key l).
Proof.
  rewrite existsb_exists, in_map_iff.
  split; intros (x & H1 & H2); exists x.
  - split; [ now apply Z.eqb_eq | exact H1 ].
  - split; [ exact H2 | now apply Z.eqb_eq ].
Qed.

Lemma existsb_key_false {A : Type} (key : A -> Z) (k : Z) (l : list A) :
  existsb (fun y => key y =? k) l = false -> ~ In k (map key l).
Proof.
  intros H Hin. apply existsb_key in Hin. congruence.
Qed.

Lemma nodup_snoc (k : Z) (ks : list Z) :
  NoDup ks -> ~ In k ks -> NoDup (ks ++ [k]).
Proof.
  induction 1 as [ | a ks Ha Hks IH]; simpl; intros Hk.
  - constructor; [ intros [] | constructor ].
  - constructor.
    + rewrite in_app_iff. intros [H | [H | []]]; [ now apply Ha | ].
      apply Hk. left. now symmetry.
    + apply IH. intros H. apply Hk. right. exact H.
Qed.

(** What the conflict clause of the company upsert leaves in the tables. *)
Lemma on_conflict_update_rows (row : company_row) (db db' : database) :
  unique_ids db ->
  on_conflict_update row db = Return db' ->
  rows_of_company (c_company_id row) db' = [row] /\
  vacancies db' = vacancies db /\
  unique_ids db'.
Proof.
  unfold unique_ids, on_conflict_update, rows_of_company, has_company.
  intros [Hc Hv] H.
  destruct (existsb _ (companies db)) eqn:E; injection H as <-; cbn.
  - set (upd := fun c : company_row =>
                  if c_company_id c =? c_company_id row
                  then mkCompany (c_company_id c) (c_name row)
                         (c_site_url row) (c_open_vacancies row)
                  else c).
    assert (Hid : forall l, map c_company_id (map upd l) = map c_company_id l).
    { intros l. rewrite map_map. apply map_ext. intros c. unfold upd.
      destruct (c_company_id c =? c_company_id row); reflexivity. }
    assert (Hf : forall l,
               filter (fun c => c_company_id c =? c_company_id row)
                 (map upd l) =
               map (fun _ => row)
                 (filter (fun c => c_company_id c =? c_company_id row) l)).
    { induction l as [ | c l IH]; [ reflexivity | ]. cbn [map filter].
      unfold upd at 1 2.
      destruct (Z.eqb_spec (c_company_id c) (c_company_id row)) as [Ec | Ec].
      - cbn [c_company_id]. rewrite Ec, Z.eqb_refl, IH. cbn [map].
        destruct row; reflexivity.
      - destruct (Z.eqb_spec (c_company_id c) (c_company_id row));
          [ contradiction | exact IH ]. }
    split; [ | split; [ reflexivity | split; [ now rewrite Hid | exact Hv ] ] ].
    rewrite Hf. apply existsb_key in E. apply in_map_iff in E.
    destruct E as (x & Ex & Hx). rewrite <- Ex.
    rewrite (filter_key_unique c_company_id _ x Hc Hx). reflexivity.
  - apply existsb_key_false in E.
    split; [ | split; [ reflexivity | split; [ | exact Hv ] ] ].
    + rewrite filter_app, (filter_key_absent c_company_id _ _ E). cbn.
      now rewrite Z.eqb_refl.
    + rewrite map_app. cbn. now apply nodup_snoc.
Qed.

Lemma upsert_company_returns (row : company_row) (db db' : database) :
  upsert_company row db = Return db' ->
  exists stored,
    company_columns row = Return stored /\
    c_company_id stored = c_company_id row /\
    on_conflict_update stored db = Return db'.
Proof.
  unfold upsert_company. intros H.
  destruct (company_columns row) as [stored | e] eqn:E; cbn [bind] in H;
    [ | discriminate H ].
  exists stored.
  split; [ reflexivity
         | split; [ exact (proj1 (company_columns_returns _ _ E))
                  | exact H ] ].
Qed.

Lemma upsert_company_rows (row : company_row) (db db' : database) :
  unique_ids db ->
  upsert_company row db = Return db' ->
  exists stored,
    company_columns row = Return stored /\
    rows_of_company (c_company_id row) db' = [stored] /\
    vacancies db' = vacancies db /\
    unique_ids db'.
Proof.
  intros U H. destruct (upsert_company_returns _ _ _ H) as (stored & E & I & C).
  exists stored. split; [ exact E | ]. rewrite <- I.
  exact (on_conflict_update_rows _ _ _ U C).
Qed.

(** What the conflict clause of the vacancy insert leaves in the tables. *)
Lemma on_conflict_nothing_fresh (row : vacancy_row) (db db' : database) :
  unique_ids db ->
  has_vacancy (v_vacancy_id row) db = false ->
  on_conflict_nothing row db = Return db' ->
  rows_of_vacancy (v_vacancy_id row) db' = [row] /\
  has_vacancy (v_vacancy_id row) db' = true /\
  unique_ids db'.
Proof.
  unfold unique_ids, on_conflict_nothing, rows_of_vacancy.
  intros [Hc Hv] Hfresh H. rewrite Hfresh in H.
  destruct (has_company (v_company_id row) db); [ | discriminate H ].
  injection H as <-. unfold has_vacancy in *. cbn.
  apply existsb_key_false in Hfresh.
  split; [ | split; [ | split; [ exact Hc | ] ] ].
  - rewrite filter_app, (filter_key_absent v_vacancy_id _ _ Hfresh). cbn.
    now rewrite Z.eqb_refl.
  - rewrite existsb_app. cbn. rewrite Z.eqb_refl. apply orb_true_r.
  - rewrite map_app. cbn. now apply nodup_snoc.
Qed.

Lemma on_conflict_nothing_known (row : vacancy_row) (db : database) :
  has_vacancy (v_vacancy_id row) db = true ->
  on_conflict_nothing row db = Return db.
Proof.
  unfold on_conflict_nothing. now intros ->.
Qed.

Lemma insert_vacancy_row_returns (row : vacancy_row) (db db' : database) :
  insert_vacancy_row timestamp_in row db = Return db' ->
  exists stored,
    vacancy_columns timestamp_in row = Return stored /\
    v_vacancy_id stored = v_vacancy_id row /\
    v_company_id stored = v_company_id row /\
    on_conflict_nothing stored db = Return db'.
Proof.
  unfold insert_vacancy_row. intros H.
  destruct (vacancy_columns timestamp_in row) as [stored | e] eqn:E;
    cbn [bind] in H; [ | discriminate H ].
  exists stored. destruct (vacancy_columns_returns _ _ E) as (I & C & _).
  auto.
Qed.

Lemma insert_vacancy_row_known (row : vacancy_row) (db db' : database) :
  has_vacancy (v_vacancy_id row) db = true ->
  insert_vacancy_row timestamp_in row db = Return db' -> db' = db.
Proof.
  intros K H.
  destruct (insert_vacancy_row_returns _ _ _ H) as (stored & _ & I & _ & C).
  rewrite on_conflict_nothing_known in C by now rewrite I.
  congruence.
Qed.

Lemma vacancy_row_eta (v : vacancy_row) :
  mkVacancyRow (v_vacancy_id v) (v_company_id v) (v_name v)
    (v_salary_from v) (v_salary_to v) (v_currency v) (v_area v)
    (v_experience v) (v_employment_type v) (v_description v)
    (v_url v) (v_published_at v) = v.
Proof. destruct v; reflexivity. Qed.

Lemma store_vacancy_frame (fl : faults) (db : database) (v : vacancy_row) :
  store_vacancy timestamp_in fl db v =
  insert_frame fl db (vacancy_params v) (insert_vacancy_row timestamp_in v).
Proof.
  unfold store_vacancy, insert_vacancy. cbv zeta.
  now rewrite vacancy_row_eta.
Qed.

(** With the store available, what [insert_vacancy] does with values that
    are taken. *)
Lemma store_vacancy_taken (db : database) (v stored : vacancy_row) :
  vacancy_taken timestamp_in v stored ->
  store_vacancy timestamp_in no_faults db v =
  match on_conflict_nothing stored db with
  | Return db' => (Return true, db')
  | Raise e => (if is_pg_error e then Return false else Raise e, db)
  end.
Proof.
  intros [P C]. rewrite store_vacancy_frame, insert_frame_no_faults, P.
  unfold insert_vacancy_row. now rewrite C.
Qed.

(** C3 (as amended).  Two calls of [insert_company] for one company
    identifier, the second of which succeeds, leave exactly one row for it,
    carrying the values of the second call as the columns hold them.  Two
    calls of [insert_vacancy] for one vacancy identifier that was not stored
    before, the first of which succeeds, leave exactly one row for it, made
    of the values of the first call as the columns hold them; the second
    call leaves the tables as they were.  A column holds an integer, and a
    text that is not longer than the column, as it is given.
    ([store_vacancy] is [insert_vacancy] applied to the twelve attributes
    of a row.) *)
Theorem insert_twice :
  (forall fl1 fl2 db db1 db2 r1 company_id name1 site1 open1 name2 site2
          open2,
      unique_ids db ->
      insert_company fl1 db company_id name1 site1 open1 = (r1, db1) ->
      insert_company fl2 db1 company_id name2 site2 open2 =
        (Return true, db2) ->
      exists stored,
        company_taken (mkCompany company_id name2 site2 open2) stored /\
        rows_of_company company_id db2 = [stored]) /\
  (forall fl1 fl2 db db1 db2 r2 first second,
      unique_ids db ->
      has_vacancy (v_vacancy_id first) db = false ->
      v_vacancy_id second = v_vacancy_id first ->
      store_vacancy timestamp_in fl1 db first = (Return true, db1) ->
      store_vacancy timestamp_in fl2 db1 second = (r2, db2) ->
      exists stored,
        vacancy_taken timestamp_in first stored /\
        rows_of_vacancy (v_vacancy_id first) db2 = [stored] /\ db2 = db1) /\
  (forall row, company_fits row -> company_taken row row) /\
  (forall row, vacancy_fits timestamp_in row ->
               vacancy_taken timestamp_in row row).
Proof.
  split; [ | split; [ | split ] ].
  - intros fl1 fl2 db db1 db2 r1 cid n1 s1 o1 n2 s2 o2 U H1 H2.
    assert (U1 : unique_ids db1).
    { destruct (insert_frame_tables _ _ _ _ _ _ H1) as [-> | [_ H]];
        [ exact U | ].
      destruct (upsert_company_rows _ _ _ U H) as (st & _ & _ & _ & U1).
      exact U1. }
    apply insert_frame_true in H2. destruct H2 as [P H2].
    destruct (upsert_company_rows _ _ _ U1 H2) as (stored & E & R & _).
    exists stored. split; [ split; assumption | exact R ].
  - intros fl1 fl2 db db1 db2 r2 first second U Hfresh Hid H1 H2.
    rewrite store_vacancy_frame in H1, H2.
    apply insert_frame_true in H1. destruct H1 as [P H1].
    destruct (insert_vacancy_row_returns _ _ _ H1) as (stored & E & I & _ & C).
    rewrite <- I in Hfresh.
    destruct (on_conflict_nothing_fresh _ _ _ U Hfresh C) as (R & K & _).
    rewrite I in R, K.
    assert (D : db2 = db1).
    { destruct (insert_frame_tables _ _ _ _ _ _ H2) as [-> | [_ H]];
        [ reflexivity | ].
      apply (insert_vacancy_row_known second db1 db2); [ | exact H ].
      now rewrite Hid. }
    exists stored. rewrite D. split; [ split; assumption | auto ].
  - exact company_fits_taken.
  - exact vacancy_fits_taken.
Qed.

Lemma add_vacancies_known (db : database) (vacancies : list vacancy_row) :
  Forall (vacancy_fits timestamp_in) vacancies ->
  Forall (fun v => has_vacancy (v_vacancy_id v) db = true) vacancies ->
  forall call added_count,
    add_vacancies timestamp_in (fun _ => no_faults) call db vacancies
      added_count =
    (Return (added_count + Z.of_nat (List.length vacancies)), db).
Proof.
  induction 1 as [ | v rest Fv _ IH]; intros K call added_count.
  - simpl. now rewrite Z.add_0_r.
  - inversion K as [ | v' rest' Kv K']; subst.
    cbn [add_vacancies].
    rewrite (store_vacancy_taken db v v (vacancy_fits_taken v Fv)),
      on_conflict_nothing_known by exact Kv.
    rewrite (IH K'). cbn [List.length]. f_equal. f_equal. lia.
Qed.

Lemma without_nul_params (v : vacancy_row) :
  without_nul v -> vacancy_params v = Return tt.
Proof.
  unfold without_nul, vacancy_params.
  intros (N & Cu & A & E & M & D & U & P).
  now rewrite (adapt_text_clean _ N), (adapt_optional_clean _ Cu),
    (adapt_optional_clean _ A), (adapt_optional_clean _ E),
    (adapt_optional_clean _ M), (adapt_optional_clean _ D),
    (adapt_optional_clean _ U), (adapt_optional_clean _ P).
Qed.

(** C10.  With the store available, [insert_vacancy] answers [True] for
    values that fit their columns when the identifier is already stored,
    the tables being left as they were, as it does when it adds the row of
    a new vacancy of a stored company; so the loop of the loader counts
    every vacancy of a batch of already stored vacancies as added.  The
    store reads the values before it looks for the identifier: an
    identifier beyond 32 bits is answered with [False]. *)
Theorem insert_vacancy_true_without_write :
  (forall db vacancy,
      vacancy_fits timestamp_in vacancy ->
      has_vacancy (v_vacancy_id vacancy) db = true ->
      store_vacancy timestamp_in no_faults db vacancy = (Return true, db)) /\
  (forall db vacancy,
      vacancy_fits timestamp_in vacancy ->
      has_vacancy (v_vacancy_id vacancy) db = false ->
      has_company (v_company_id vacancy) db = true ->
      store_vacancy timestamp_in no_faults db vacancy =
      (Return true,
       mkDatabase (companies db) (vacancies db ++ [vacancy]))) /\
  (forall db batch,
      Forall (vacancy_fits timestamp_in) batch ->
      Forall (fun v => has_vacancy (v_vacancy_id v) db = true) batch ->
      add_vacancies timestamp_in (fun _ => no_faults) 0 db batch 0 =
      (Return (Z.of_nat (List.length batch)), db)) /\
  (forall db vacancy,
      without_nul vacancy ->
      ~ fits_integer (v_vacancy_id vacancy) ->
      store_vacancy timestamp_in no_faults db vacancy = (Return false, db)).
Proof.
  split; [ | split; [ | split ] ].
  - intros db vacancy F H.
    rewrite (store_vacancy_taken db _ _ (vacancy_fits_taken _ F)).
    now rewrite on_conflict_nothing_known.
  - intros db vacancy F Hv Hc.
    rewrite (store_vacancy_taken db _ _ (vacancy_fits_taken _ F)).
    unfold on_conflict_nothing. now rewrite Hv, Hc.
  - intros db batch F H. now rewrite add_vacancies_known.
  - intros db vacancy N R.
    rewrite store_vacancy_frame, insert_frame_no_faults,
      (without_nul_params _ N).
    unfold insert_vacancy_row, vacancy_columns, integer_column.
    destruct (Z.leb_spec int4_min (v_vacancy_id vacancy)) as [A | A];
      destruct (Z.leb_spec (v_vacancy_id vacancy) int4_max) as [B | B];
      try reflexivity.
    exfalso. apply R. split; assumption.
Qed.

Lemma midpoint_fits (v : vacancy_row) :
  fits_int4 v -> midpoint v = Return (integer_midpoint v).
Proof.
  unfold fits_int4, midpoint, int4_add, integer_midpoint. intros [Hl Hu].
  apply Z.leb_le in Hl, Hu. now rewrite Hl, Hu.
Qed.

Lemma midpoint_return (v : vacancy_row) (m : Z) :
  midpoint v = Return m -> m = integer_midpoint v.
Proof.
  unfold midpoint, int4_add, integer_midpoint.
  destruct (_ && _); simpl; congruence.
Qed.

Lemma map_result_midpoint_fits (l : list vacancy_row) :
  Forall fits_int4 l ->
  map_result midpoint l = Return (map integer_midpoint l).
Proof.
  induction 1 as [ | v l Hv _ IH]; simpl; [ reflexivity | ].
  now rewrite (midpoint_fits v Hv), IH.
Qed.

Lemma map_result_midpoint_return (l : list vacancy_row) (ms : list Z) :
  map_result midpoint l = Return ms -> ms = map integer_midpoint l.
Proof.
  revert ms. induction l as [ | v l IH]; simpl; intros ms H.
  - congruence.
  - destruct (midpoint v) as [m | e] eqn:Em; simpl in H; [ | discriminate ].
    destruct (map_result midpoint l) as [ms' | e]; simpl in H;
      [ | discriminate ].
    injection H as <-. now rewrite (midpoint_return v m Em), (IH ms').
Qed.

Lemma get_avg_salary_no_faults (db : database) :
  get_avg_salary no_faults db =
  match avg_salary_query db with
  | Return r => Return r
  | Raise e => if is_pg_error e then Return None else Raise e
  end.
Proof.
  unfold get_avg_salary, run_query. simpl.
  destruct (avg_salary_query db) as [r | e]; reflexivity.
Qed.

Lemma get_avg_salary_some (fl : faults) (db : database) (a : numeric) :
  get_avg_salary fl db = Return (Some a) ->
  avg_salary_query db = Return (Some a).
Proof.
  unfold get_avg_salary, get_connection, run_query, finally, try_except,
    raise_if, bind.
  destruct fl. intros H. split_tests; congruence.
Qed.

(** The quotient of the store is the exact one rounded at its last
    decimal. *)
Lemma numeric_div_rounds (a b : Z) : 0 < b -> rounds a b (numeric_div a b).
Proof.
  intros B. unfold rounds, numeric_div. cbn [unscaled dscale].
  set (u := 10 ^ Z.of_nat (div_scale a b)).
  assert (U : 0 < u) by (apply Z.pow_pos_nonneg; lia).
  set (n := 2 * Z.abs a * u + b).
  assert (N : 0 <= n) by (unfold n; nia).
  pose proof (Z.mul_div_le n (2 * b) ltac:(lia)) as L.
  pose proof (Z.mul_succ_div_gt n (2 * b) ltac:(lia)) as G.
  assert (Q : 0 <= n / (2 * b)) by (apply Z.div_pos; lia).
  set (q := n / (2 * b)) in *.
  destruct (Z.sgn_spec a) as [[Ha ->] | [[Ha ->] | [Ha ->]]].
  - rewrite Z.mul_1_l, (Z.abs_eq q) by exact Q. unfold n in *.
    split; [ destruct (Z.sgn_spec q) as [[_ ->] | [[_ ->] | [? _]]]; lia | ].
    lia.
  - subst a. cbn. lia.
  - replace (-1 * q) with (- q) by lia. rewrite Z.abs_opp, (Z.abs_eq q)
      by exact Q.
    unfold n in *.
    split; [ | lia ].
    rewrite Z.sgn_opp.
    destruct (Z.sgn_spec q) as [[_ ->] | [[_ ->] | [? _]]]; lia.
Qed.

(** A quotient lies between integers that bound the exact one. *)
Lemma numeric_div_bounds (a b lo hi : Z) :
  0 < b -> lo * b <= a <= hi * b ->
  lo * 10 ^ Z.of_nat (dscale (numeric_div a b))
  <= unscaled (numeric_div a b)
  <= hi * 10 ^ Z.of_nat (dscale (numeric_div a b)).
Proof.
  intros B [Lo Hi]. unfold numeric_div. cbn [unscaled dscale].
  generalize (10 ^ Z.of_nat (div_scale a b))
    (Z.pow_pos_nonneg 10 (Z.of_nat (div_scale a b)) ltac:(lia) ltac:(lia)).
  intros u U.
  assert (N : 0 <= 2 * Z.abs a * u + b) by nia.
  pose proof (Z.mul_div_le (2 * Z.abs a * u + b) (2 * b) ltac:(lia)) as L.
  pose proof (Z.mul_succ_div_gt (2 * Z.abs a * u + b) (2 * b) ltac:(lia))
    as G.
  assert (Q : 0 <= (2 * Z.abs a * u + b) / (2 * b))
    by (apply Z.div_pos; lia).
  revert L G Q. generalize ((2 * Z.abs a * u + b) / (2 * b)). intros q L G Q.
  destruct (Z.sgn_spec a) as [[Ha ->] | [[Ha ->] | [Ha ->]]].
  - rewrite Z.mul_1_l. rewrite (Z.abs_eq a) in L, G by lia. split; nia.
  - subst a. cbn. split; nia.
  - replace (-1 * q) with (- q) by lia.
    rewrite (Z.abs_neq a) in L, G by lia. split; nia.
Qed.

Lemma avg_rounds (l : list Z) (a : numeric) :
  avg l = Some a ->
  l <> [] /\ rounds (sum_Z l) (Z.of_nat (List.length l)) a.
Proof.
  destruct l as [ | x l]; [ discriminate | ]. intros [= <-].
  split; [ discriminate | ].
  apply numeric_div_rounds. cbn [List.length]. lia.
Qed.

(** The leading digit of base 10000 and its position, as the store reads
    them off its representation of an integer. *)
Lemma leading_digit_spec (fuel : nat) :
  forall x w,
    1 <= x < 2 ^ (Z.of_nat fuel + 1) ->
    exists k f,
      leading_digit fuel x w = (w + k, f) /\
      0 <= k /\ 1 <= f < 10000 /\
      f * 10000 ^ k <= x < (f + 1) * 10000 ^ k.
Proof.
  induction fuel as [ | fuel IH]; intros x w [L U].
  - change (2 ^ (Z.of_nat 0 + 1)) with 2 in U.
    exists 0, x. cbn [leading_digit]. rewrite Z.add_0_r, Z.pow_0_r.
    repeat split; lia.
  - cbn [leading_digit]. destruct (Z.ltb_spec x 10000) as [S | B].
    + exists 0, x. rewrite Z.add_0_r, Z.pow_0_r. repeat split; lia.
    + destruct (IH (x / 10000) (w + 1)) as (k & f & E & K & F & Lo & Hi).
      { split.
        - apply Z.div_le_lower_bound; lia.
        - apply Z.div_lt_upper_bound; [ lia | ].
          replace (Z.of_nat (S fuel) + 1) with (Z.succ (Z.of_nat fuel + 1))
            in U by lia.
          rewrite Z.pow_succ_r in U by lia. lia. }
      exists (k + 1), f. rewrite E.
      replace (w + 1 + k) with (w + (k + 1)) by lia.
      rewrite Z.pow_add_r, Z.pow_1_r by lia.
      pose proof (Z.mul_div_le x 10000 ltac:(lia)) as D1.
      pose proof (Z.mul_succ_div_gt x 10000 ltac:(lia)) as D2.
      repeat split; try lia; nia.
Qed.

Lemma weight_and_digit_spec (x : Z) :
  x <> 0 ->
  exists w f,
    weight_and_digit x = (w, f) /\
    0 <= w /\ 1 <= f < 10000 /\
    f * 10000 ^ w <= Z.abs x < (f + 1) * 10000 ^ w.
Proof.
  intros N. unfold weight_and_digit.
  destruct (Z.eqb_spec x 0) as [E | _]; [ contradiction | ].
  destruct (leading_digit_spec (Z.to_nat (Z.log2 (Z.abs x))) (Z.abs x) 0)
    as (k & f & E & K & F & B).
  - split; [ lia | ].
    rewrite Z2Nat.id by apply Z.log2_nonneg.
    replace (Z.log2 (Z.abs x) + 1) with (Z.succ (Z.log2 (Z.abs x))) by lia.
    apply Z.log2_spec. lia.
  - exists k, f. rewrite E. cbn. auto.
Qed.

(** A quotient that is below 2^31 in absolute value is given with eight
    decimals at least. *)
Lemma div_scale_decimals (a b : Z) :
  0 < b -> Z.abs a <= b * 2 ^ 31 -> (8 <= div_scale a b)%nat.
Proof.
  intros B A. unfold div_scale.
  destruct (weight_and_digit_spec b ltac:(lia))
    as (w2 & f2 & -> & W2 & F2 & B2).
  rewrite (Z.abs_eq b) in B2 by lia.
  destruct (Z.eq_dec a 0) as [-> | N].
  - cbn [weight_and_digit Z.eqb].
    destruct (Z.leb_spec 0 f2); [ | lia ]. lia.
  - destruct (weight_and_digit_spec a N) as (w1 & f1 & -> & W1 & F1 & B1).
    assert (Q : (if f1 <=? f2 then w1 - w2 - 1 else w1 - w2) <= 2);
      [ | lia ].
    assert (P2 : 0 < 10000 ^ w2) by (apply Z.pow_pos_nonneg; lia).
    change (2 ^ 31) with 2147483648 in A.
    destruct (Z.le_gt_cases w1 (w2 + 2)) as [S | G];
      [ destruct (f1 <=? f2); lia | ].
    destruct (Z.eq_dec w1 (w2 + 3)) as [-> | M].
    + destruct (Z.leb_spec f1 f2) as [_ | F]; [ lia | exfalso ].
      rewrite Z.pow_add_r in B1 by lia.
      change (10000 ^ 3) with 1000000000000 in B1.
      generalize dependent (10000 ^ w2). intros X. intros. nia.
    + exfalso.
      replace w1 with (w1 - w2 - 4 + (w2 + 4)) in B1 by lia.
      rewrite Z.pow_add_r in B1 by lia.
      rewrite (Z.pow_add_r 10000 w2 4) in B1 by lia.
      change (10000 ^ 4) with 10000000000000000 in B1.
      assert (P1 : 0 < 10000 ^ (w1 - w2 - 4))
        by (apply Z.pow_pos_nonneg; lia).
      generalize dependent (10000 ^ w2). intros X.
      generalize dependent (10000 ^ (w1 - w2 - 4)). intros Y. intros. nia.
Qed.

Lemma sum_Z_bound (l : list Z) (h : Z) :
  Forall (fun m => Z.abs m <= h) l ->
  Z.abs (sum_Z l) <= Z.of_nat (List.length l) * h.
Proof.
  induction 1 as [ | m l M _ IH]; [ cbn; lia | ].
  cbn [sum_Z fold_right List.length]. fold (sum_Z l). lia.
Qed.

Lemma avg_decimals (l : list Z) (a : numeric) :
  Forall (fun m => Z.abs m <= 2 ^ 31) l ->
  avg l = Some a -> (8 <= dscale a)%nat.
Proof.
  intros F E. destruct l as [ | x l]; [ discriminate | ].
  injection E as <-. unfold numeric_div. cbn [dscale].
  apply div_scale_decimals.
  - cbn [List.length]. lia.
  - exact (sum_Z_bound _ _ F).
Qed.

Lemma midpoint_int4 (v : vacancy_row) (m : Z) :
  midpoint v = Return m -> Z.abs m <= 2 ^ 31.
Proof.
  unfold midpoint, int4_add, int4_min, int4_max.
  destruct (_ && _) eqn:E; simpl; [ | discriminate ].
  intros [= <-]. apply andb_true_iff in E. destruct E as [L U].
  apply Z.leb_le in L, U.
  change (2 ^ 31) with 2147483648 in *.
  pose proof (Z.quot_rem' (coalesce (v_salary_from v) 0 +
                            coalesce (v_salary_to v) 0) 2) as Q.
  pose proof (Z.rem_bound_abs (coalesce (v_salary_from v) 0 +
                               coalesce (v_salary_to v) 0) 2 ltac:(lia)) as R.
  lia.
Qed.

Lemma map_result_midpoint_int4 (l : list vacancy_row) (ms : list Z) :
  map_result midpoint l = Return ms ->
  Forall (fun m => Z.abs m <= 2 ^ 31) ms.
Proof.
  revert ms. induction l as [ | v l IH]; simpl; intros ms H.
  - injection H as <-. constructor.
  - destruct (midpoint v) as [m | e] eqn:Em; simpl in H; [ | discriminate ].
    destruct (map_result midpoint l) as [ms' | e]; simpl in H;
      [ | discriminate ].
    injection H as <-. constructor; [ exact (midpoint_int4 v m Em) | ].
    now apply IH.
Qed.

(** C2 (as amended).  [get_avg_salary] returns the average, over exactly
    the rows with a salary bound, of the midpoint
    (coalesce(salary_from, 0) + coalesce(salary_to, 0)) / 2 taken in integer
    arithmetic, the quotient being truncated toward zero, as the store
    rounds that average at the last decimal of its result: it does so when
    the store is available and the sums fit in 32 bits, and whenever it
    returns a number at all.  A number it returns has eight decimals at
    least.  Over a single vacancy with a lower bound of 100000 and no upper
    bound the result is 50000, given with twelve decimals. *)
Theorem get_avg_salary_integer_midpoints :
  (forall db,
      Forall fits_int4 (vacancies db) ->
      get_avg_salary no_faults db =
      Return (avg (map integer_midpoint
                     (filter has_salary (vacancies db))))) /\
  (forall fl db a,
      get_avg_salary fl db = Return (Some a) ->
      avg (map integer_midpoint (filter has_salary (vacancies db))) =
      Some a) /\
  (forall l a,
      avg l = Some a ->
      l <> [] /\ rounds (sum_Z l) (Z.of_nat (List.length l)) a) /\
  (forall fl db a,
      get_avg_salary fl db = Return (Some a) -> (8 <= dscale a)%nat) /\
  get_avg_salary no_faults
    (mkDatabase [mkCompany 5 "Acme" None 3]
       [salaried 1 5 (Some 100000) None]) =
  Return (Some (mkNumeric 50000000000000000 12)) /\
  (numeric_value (mkNumeric 50000000000000000 12) == 50000 # 1)%Q.
Proof.
  split; [ | split; [ | split; [ exact avg_rounds | split; [ | split ] ] ] ].
  - intros db F. rewrite get_avg_salary_no_faults. unfold avg_salary_query.
    rewrite map_result_midpoint_fits; [ reflexivity | ].
    apply Forall_forall. intros v Hv. apply filter_In in Hv.
    rewrite Forall_forall in F. now apply F.
  - intros fl db a H. apply get_avg_salary_some in H.
    unfold avg_salary_query in H.
    destruct (map_result midpoint _) as [ms | e] eqn:E; simpl in H;
      [ | discriminate ].
    apply map_result_midpoint_return in E. congruence.
  - intros fl db a H. apply get_avg_salary_some in H.
    unfold avg_salary_query in H.
    destruct (map_result midpoint _) as [ms | e] eqn:E; simpl in H;
      [ | discriminate ].
    injection H as H.
    exact (avg_decimals ms a (map_result_midpoint_int4 _ _ E) H).
  - vm_compute. reflexivity.
  - vm_compute. reflexivity.
Qed.

(** C2, as stated, fails: the midpoint of 1 and 2 is taken as 1, not as
    3/2. *)
Lemma get_avg_salary_not_exact_midpoint :
  ~ (forall db a,
        get_avg_salary no_faults db = Return (Some a) ->
        (numeric_value a ==
         average (map exact_midpoint
                    (filter has_salary (vacancies db))))%Q).
Proof.
  intros H.
  assert (E : get_avg_salary no_faults
                (mkDatabase [mkCompany 5 "Acme" None 3]
                   [salaried 1 5 (Some 1) (Some 2)]) =
              Return (Some (mkNumeric 100000000000000000000 20)))
    by (vm_compute; reflexivity).
  specialize (H _ _ E). vm_compute in H. discriminate H.
Qed.

Lemma avg_salary_query_no_data (db : database) :
  no_salary_data db -> avg_salary_query db = Return None.
Proof.
  unfold no_salary_data, avg_salary_query. intros H.
  assert (E : filter has_salary (vacancies db) = []).
  { induction (vacancies db) as [ | v l IH]; [ reflexivity | ]. simpl.
    destruct (H v (or_introl eq_refl)) as [Hf Ht].
    unfold has_salary at 1. rewrite Hf, Ht.
    apply IH. intros w Hw. apply H. right. exact Hw. }
  now rewrite E.
Qed.

(** C9.  When no vacancy row has a salary bound, the table being possibly
    empty, [get_avg_salary] returns the absence value and never a number,
    and the caller reports that there is no data; an average of zero is
    returned as the number 0. *)
Theorem get_avg_salary_absent_without_data (db : database) :
  no_salary_data db ->
  get_avg_salary no_faults db = Return None /\
  (forall fl a, get_avg_salary fl db <> Return (Some a)) /\
  display_average_salary no_faults db = Return NoDataLine /\
  get_avg_salary no_faults
    (mkDatabase [mkCompany 5 "Acme" None 3] [salaried 1 5 (Some 0) None]) =
  Return (Some (mkNumeric 0 20)).
Proof.
  intros H. pose proof (avg_salary_query_no_data db H) as Q.
  assert (G : get_avg_salary no_faults db = Return None)
    by now rewrite get_avg_salary_no_faults, Q.
  split; [ exact G | split; [ | split; [ | vm_compute; reflexivity ] ] ].
  - intros fl a Ha. apply get_avg_salary_some in Ha. congruence.
  - unfold display_average_salary. now rewrite G.
Qed.

Lemma fetch_absorbs (requests_get : HeadHunterAPI.request ->
                                   result HeadHunterAPI.response)
    (rq : HeadHunterAPI.request) :
  request_fails requests_get rq ->
  HeadHunterAPI.fetch requests_get rq = Return JNull.
Proof.
  unfold request_fails, HeadHunterAPI.fetch.
  intros [H | [H | (r & H & Hl & Hu)]]; rewrite H; try reflexivity.
  cbn [bind]. unfold HeadHunterAPI.raise_for_status.
  apply Z.leb_le in Hl. apply Z.ltb_lt in Hu. now rewrite Hl, Hu.
Qed.

Lemma insert_frame_absorbs (fl : faults) (db : database)
    (stmt : database -> result database) :
  faults_are_pg fl -> cleanup_completes fl ->
  (forall e, stmt db = Raise e -> e = PgError) ->
  exists ok db',
    insert_frame fl db (Return tt) stmt = (Return ok, db') /\
    (insert_interrupted fl \/ (exists e, stmt db = Raise e) -> ok = false).
Proof.
  unfold faults_are_pg, cleanup_completes, insert_interrupted, pg_or_none.
  destruct fl as [c cu ex cm fe cc rb cl]; cbn.
  intros (Hc & Hcu & Hex & Hcm & Hfe & Hcc) [-> ->] Hs.
  unfold insert_frame, get_connection, run_statement, finally, try_except.
  destruct (stmt db) as [pending | e] eqn:E;
    [ | rewrite (Hs e eq_refl) ];
    destruct Hc as [-> | ->], Hcu as [-> | ->], Hex as [-> | ->],
      Hcm as [-> | ->], Hcc as [-> | ->];
    cbn; rewrite ?E; cbn;
    do 2 eexists; (split; [ reflexivity | ]);
    try reflexivity;
    intros [[H | [H | [H | [H | H]]]] | [e' H]]; congruence.
Qed.

Lemma upsert_company_raises (row : company_row) (db : database) (e : exn) :
  upsert_company row db = Raise e -> e = PgError.
Proof.
  unfold upsert_company.
  destruct (company_columns row) as [stored | e'] eqn:E; cbn [bind].
  - unfold on_conflict_update. destruct (has_company _ db); discriminate.
  - intros [= <-]. exact (company_columns_raises _ _ E).
Qed.

Lemma insert_vacancy_row_raises (row : vacancy_row) (db : database)
    (e : exn) :
  insert_vacancy_row timestamp_in row db = Raise e -> e = PgError.
Proof.
  unfold insert_vacancy_row.
  destruct (vacancy_columns timestamp_in row) as [stored | e'] eqn:E;
    cbn [bind].
  - unfold on_conflict_nothing.
    destruct (has_vacancy _ db); [ discriminate | ].
    destruct (has_company _ db); [ discriminate | congruence ].
  - intros [= <-]. exact (vacancy_columns_raises _ _ E).
Qed.

Lemma select_rows_absorbs {A : Type} (fl : faults) (db : database)
    (q : database -> result (list A)) :
  faults_are_pg fl -> cleanup_completes fl ->
  (forall e, q db = Raise e -> e = PgError) ->
  exists rows,
    select_rows fl db (Return tt) q = Return rows /\
    (query_interrupted fl \/ (exists e, q db = Raise e) -> rows = []).
Proof.
  unfold faults_are_pg, cleanup_completes, query_interrupted, pg_or_none.
  destruct fl as [c cu ex cm fe cc rb cl]; cbn.
  intros (Hc & Hcu & Hex & Hcm & Hfe & Hcc) [-> ->] Hs.
  unfold select_rows, get_connection, run_query, finally, try_except.
  destruct (q db) as [rows | e] eqn:E;
    [ | rewrite (Hs e eq_refl) ];
    destruct Hc as [-> | ->], Hcu as [-> | ->], Hex as [-> | ->],
      Hfe as [-> | ->], Hcc as [-> | ->];
    cbn; rewrite ?E; cbn;
    eexists; (split; [ reflexivity | ]);
    try reflexivity;
    intros [[H | [H | [H | [H | H]]]] | [e' H]]; congruence.
Qed.

Lemma avg_salary_query_raises (db : database) (e : exn) :
  avg_salary_query db = Raise e -> e = PgError.
Proof.
  unfold avg_salary_query.
  induction (filter has_salary (vacancies db)) as [ | v l IH]; simpl;
    [ discriminate | ].
  unfold midpoint at 1, int4_add. destruct (_ && _); simpl.
  - destruct (map_result midpoint l) as [ms | e']; simpl in *;
      [ discriminate | exact IH ].
  - congruence.
Qed.

(** C7.  A [ValueError] leaves the operations of the persistence layer:
    the driver refuses a text that holds a NUL character while it builds
    the statement, and the handlers name [psycopg2.Error] only, so neither
    [False] nor the empty list is returned.  A failure in the store, such
    as the refusal of a vacancy whose company is not stored, is turned into
    [False]. *)
Theorem insert_vacancy_value_error_escapes :
  store_vacancy timestamp_in no_faults one_company (nul_named 11 5) =
    (Raise ValueError, one_company) /\
  insert_company no_faults one_company 6 with_nul None 0 =
    (Raise ValueError, one_company) /\
  (forall name_le lower,
      get_vacancies_with_keyword name_le lower no_faults one_company
        with_nul = Raise ValueError) /\
  store_vacancy timestamp_in no_faults one_company
    (salaried 11 77 None None) = (Return false, one_company).
Proof.
  repeat split.
Qed.

(** The handler of the inserts calls [rollback] unguarded: when that call
    fails too, its exception leaves the operation. *)
Lemma insert_company_rollback_failure :
  insert_company connection_lost one_company 5 "Acme" None 0 =
  (Raise PgError, one_company).
Proof. reflexivity. Qed.

(** The list queries have no call in their handler, and absorb the same
    failure of the statement. *)
Lemma get_companies_and_vacancies_count_statement_failure :
  get_companies_and_vacancies_count connection_lost one_company = Return [].
Proof. reflexivity. Qed.

(** With the store available the count query lists every company, those
    without vacancies with a count of 0, higher counts first. *)
Lemma get_companies_and_vacancies_count_example :
  get_companies_and_vacancies_count no_faults
    (mkDatabase [mkCompany 6 "Bolt" None 0; mkCompany 5 "Acme" None 3]
       [salaried 1 5 None None; salaried 2 5 None None;
        salaried 3 5 None None]) =
  Return [("Acme", 3); ("Bolt", 0)].
Proof. reflexivity. Qed.

End StoreFacts.

Section StoreExamples.

Import DBManager Main Spec.

Lemma salaried_fits (vacancy_id company_id : Z) (lo hi : option Z) :
  fits_integer vacancy_id -> fits_integer company_id ->
  optional fits_integer lo -> optional fits_integer hi ->
  vacancy_fits iso_timestamp (salaried vacancy_id company_id lo hi).
Proof.
  intros V C L H. unfold vacancy_fits, salaried. cbn.
  split; [ exact V | split; [ exact C | ] ].
  split; [ split; [ reflexivity | apply Nat.leb_le; reflexivity ] | ].
  split; [ exact L | split; [ exact H | ] ].
  repeat split.
Qed.

Lemma insert_twice_witness :
  (exists stored,
      company_taken (mkCompany 5 "Acme Corp" (Some "acme.example") 9)
        stored /\
      rows_of_company 5
        (snd (insert_company no_faults
                (snd (insert_company no_faults (mkDatabase [] []) 5 "Acme"
                        None 3))
                5 "Acme Corp" (Some "acme.example") 9)) = [stored]) /\
  (exists stored,
      vacancy_taken iso_timestamp (salaried 11 5 (Some 100) None) stored /\
      rows_of_vacancy 11
        (snd (store_vacancy iso_timestamp no_faults
                (snd (store_vacancy iso_timestamp no_faults one_company
                        (salaried 11 5 (Some 100) None)))
                (salaried 11 5 None (Some 900)))) = [stored]).
Proof.
  split.
  - apply (proj1 (insert_twice iso_timestamp) no_faults no_faults
             (mkDatabase [] []) one_company
             (mkDatabase [mkCompany 5 "Acme Corp" (Some "acme.example") 9] [])
             (Return true) 5 "Acme" None 3 "Acme Corp" (Some "acme.example")
             9).
    + split; constructor.
    + reflexivity.
    + reflexivity.
  - destruct (proj1 (proj2 (insert_twice iso_timestamp)) no_faults no_faults
                one_company
                (mkDatabase [mkCompany 5 "Acme" None 3]
                   [salaried 11 5 (Some 100) None])
                (mkDatabase [mkCompany 5 "Acme" None 3]
                   [salaried 11 5 (Some 100) None])
                (Return true) (salaried 11 5 (Some 100) None)
                (salaried 11 5 None (Some 900)))
      as (stored & T & R & _).
    + split; repeat constructor. intros [].
    + reflexivity.
    + reflexivity.
    + reflexivity.
    + reflexivity.
    + exists stored. split; [ exact T | exact R ].
Defined.

(** C3, as stated, fails: a currency of eleven characters, the last eight
    of them spaces, is stored cut to the ten characters of its column, so
    the stored row is not the row of the first call. *)
Lemma insert_vacancy_cuts_trailing_spaces :
  ~ (forall timestamp_in fl1 fl2 db db1 db2 r2 first second,
        unique_ids db ->
        has_vacancy (v_vacancy_id first) db = false ->
        v_vacancy_id second = v_vacancy_id first ->
        store_vacancy timestamp_in fl1 db first = (Return true, db1) ->
        store_vacancy timestamp_in fl2 db1 second = (r2, db2) ->
        rows_of_vacancy (v_vacancy_id first) db2 = [first] /\ db2 = db1).
Proof.
  intros H.
  pose (first := mkVacancyRow 11 5 "Developer" (Some 100) None
                   (Some "RUB        ") None None None None None None).
  pose (kept := mkVacancyRow 11 5 "Developer" (Some 100) None
                  (Some "RUB       ") None None None None None None).
  destruct (H iso_timestamp no_faults no_faults one_company
              (mkDatabase [mkCompany 5 "Acme" None 3] [kept])
              (mkDatabase [mkCompany 5 "Acme" None 3] [kept])
              (Return true) first first) as [R _].
  - split; repeat constructor. intros [].
  - reflexivity.
  - reflexivity.
  - reflexivity.
  - reflexivity.
  - vm_compute in R. discriminate R.
Qed.

Lemma insert_vacancy_true_without_write_witness :
  store_vacancy iso_timestamp no_faults
    (mkDatabase [mkCompany 5 "Acme" None 3] [salaried 11 5 (Some 100) None])
    (salaried 11 5 None (Some 900)) =
    (Return true,
     mkDatabase [mkCompany 5 "Acme" None 3]
       [salaried 11 5 (Some 100) None]) /\
  add_vacancies iso_timestamp (fun _ => no_faults) 0
    (mkDatabase [mkCompany 5 "Acme" None 3] [salaried 11 5 (Some 100) None])
    [salaried 11 5 None (Some 900); salaried 11 5 None None] 0 =
    (Return 2,
     mkDatabase [mkCompany 5 "Acme" None 3]
       [salaried 11 5 (Some 100) None]).
Proof.
  assert (F : forall lo hi, optional fits_integer lo ->
                            optional fits_integer hi ->
                            vacancy_fits iso_timestamp (salaried 11 5 lo hi)).
  { intros lo hi. apply salaried_fits;
      unfold fits_integer, int4_min, int4_max; cbn; lia. }
  assert (B : fits_integer 900)
    by (unfold fits_integer, int4_min, int4_max; cbn; lia).
  split.
  - apply (proj1 (insert_vacancy_true_without_write iso_timestamp)).
    + apply F; [ exact I | exact B ].
    + reflexivity.
  - apply (proj1 (proj2 (proj2
                      (insert_vacancy_true_without_write iso_timestamp)))
             _ [salaried 11 5 None (Some 900); salaried 11 5 None None]).
    + repeat (apply Forall_cons; [ apply F; try exact I; exact B | ]).
      apply Forall_nil.
    + repeat constructor.
Defined.

Lemma get_avg_salary_integer_midpoints_witness :
  get_avg_salary no_faults
    (mkDatabase [mkCompany 5 "Acme" None 3]
       [salaried 1 5 (Some 1) (Some 2); salaried 2 5 None None;
        salaried 3 5 None (Some 7)]) =
  Return (Some (mkNumeric 20000000000000000 16)).
Proof.
  apply (proj1 get_avg_salary_integer_midpoints
           (mkDatabase [mkCompany 5 "Acme" None 3]
              [salaried 1 5 (Some 1) (Some 2); salaried 2 5 None None;
               salaried 3 5 None (Some 7)])).
  repeat (apply Forall_cons;
          [ unfold fits_int4, int4_min, int4_max; simpl; lia | ]).
  apply Forall_nil.
Defined.

Lemma get_avg_salary_absent_without_data_witness :
  get_avg_salary no_faults (mkDatabase [] []) = Return None /\
  get_avg_salary no_faults
    (mkDatabase [mkCompany 5 "Acme" None 3]
       [salaried 1 5 None None; salaried 2 5 None None]) = Return None.
Proof.
  split.
  - apply (get_avg_salary_absent_without_data (mkDatabase [] [])).
    intros v [].
  - apply (get_avg_salary_absent_without_data
             (mkDatabase [mkCompany 5 "Acme" None 3]
                [salaried 1 5 None None; salaried 2 5 None None])).
    intros v [<- | [<- | []]]; split; reflexivity.
Defined.

End StoreExamples.

(** * Further properties *)

(** ** Record normalizer *)

Section NormalizerMore.

Import VacancyManager Spec Props.

(** The rewriting of [int] on texts beyond ASCII, of any interpreter. *)
Variable ascii_form : string -> string.

Lemma successes_failures_length (vacancies_data : list json) :
  (List.length (successes ascii_form vacancies_data)
   + List.length (failures ascii_form vacancies_data))%nat
  = List.length vacancies_data.
Proof.
  unfold successes, failures.
  induction vacancies_data as [ | x rest IH]; [ reflexivity | ].
  cbn [flat_map]. destruct (parse_from_api ascii_form x);
    rewrite !length_app; cbn [List.length]; lia.
Qed.

Lemma extract_from_returns (vacancies_data : list json) :
  forall vacancies console out console',
    extract_from ascii_form vacancies_data vacancies console =
      (Return out, console') ->
    forall x e, In x vacancies_data ->
                parse_from_api ascii_form x = Raise e ->
                caught_by_extract e = true.
Proof.
  induction vacancies_data as [ | y rest IH];
    intros vacancies console out console' H x e Hin Hx; [ contradiction | ].
  cbn [extract_from] in H.
  destruct (parse_from_api ascii_form y) as [v | e'] eqn:Ey.
  - destruct Hin as [-> | Hin]; [ congruence | ].
    exact (IH _ _ _ _ H x e Hin Hx).
  - destruct (caught_by_extract e') eqn:Ec; [ | discriminate H ].
    destruct Hin as [-> | Hin]; [ congruence | ].
    exact (IH _ _ _ _ H x e Hin Hx).
Qed.

(** X1.  [extract_vacancies] returns a list exactly when every item that
    fails to normalize raises one of the three errors of its handler; the
    list then holds the normalized items in input order, one error is
    printed per skipped item, and kept and skipped items add up to the
    input. *)
Theorem extract_vacancies_partition (vacancies_data : list json) :
  ((exists out console,
       extract_vacancies ascii_form vacancies_data = (Return out, console)) <->
   (forall x e, In x vacancies_data ->
                parse_from_api ascii_form x = Raise e ->
                caught_by_extract e = true)) /\
  (forall out console,
      extract_vacancies ascii_form vacancies_data = (Return out, console) ->
      out = successes ascii_form vacancies_data /\
      console = failures ascii_form vacancies_data /\
      (List.length out + List.length console)%nat =
        List.length vacancies_data).
Proof.
  split.
  - split.
    + intros (out & console & H). exact (extract_from_returns _ _ _ _ _ H).
    + intros Hc. rewrite (extract_vacancies_skips _ _ Hc). eauto.
  - intros out console H.
    pose proof (extract_from_returns _ _ _ _ _ H) as Hc.
    rewrite (extract_vacancies_skips _ _ Hc) in H. injection H as <- <-.
    repeat split. apply successes_failures_length.
Qed.

(** X2.  A payload in which the employer, the area, the experience or the
    employment entry is present but is not an object, or the salary entry is
    neither null nor an object, makes [parse_from_api] raise an attribute
    error, whatever its identifiers are. *)
Theorem parse_from_api_attribute_error (d : list (string * json)) :
  ~ well_nested d ->
  parse_from_api ascii_form (JDict d) = Raise AttributeError.
Proof.
  unfold well_nested, absent_or_object, parse_from_api.
  rewrite !py_get_dict. cbn [bind]. intros H.
  destruct (lookup "employer" d) as [[ | | | | | | emp] | ];
    cbn [py_get bind lookup]; try reflexivity;
  (destruct (lookup "salary" d) as [[ | | | | | | sal] | ];
    cbn [py_get bind is_none]; try reflexivity;
   (destruct (lookup "area" d) as [[ | | | | | | ar] | ];
     cbn [py_get bind lookup]; try reflexivity;
    (destruct (lookup "experience" d) as [[ | | | | | | ex] | ];
      cbn [py_get bind lookup]; try reflexivity;
     (destruct (lookup "employment" d) as [[ | | | | | | em] | ];
       cbn [py_get bind lookup]; try reflexivity;
      exfalso; apply H; repeat split)))).
Qed.

(** X3.  [parse_from_api] depends on ten keys of the payload only: two
    payloads that agree on them have the same outcome, so an entry under any
    other key is ignored. *)
Theorem parse_from_api_reads_ten_keys :
  (forall d1 d2,
      agree_on read_keys d1 d2 ->
      parse_from_api ascii_form (JDict d1) =
      parse_from_api ascii_form (JDict d2)) /\
  (forall d k x,
      ~ In k read_keys ->
      parse_from_api ascii_form (JDict ((k, x) :: d)) =
      parse_from_api ascii_form (JDict d)).
Proof.
  assert (A : forall d1 d2, agree_on read_keys d1 d2 ->
                parse_from_api ascii_form (JDict d1) =
                parse_from_api ascii_form (JDict d2)).
  { intros d1 d2 H. unfold parse_from_api. rewrite !py_get_dict.
    rewrite !(H "id"), !(H "employer"), !(H "name"), !(H "salary"),
      !(H "area"), !(H "experience"), !(H "employment"), !(H "description"),
      !(H "alternate_url"), !(H "published_at")
      by (unfold read_keys; simpl; tauto).
    reflexivity. }
  split; [ exact A | ].
  intros d k x Hk. apply A. intros k' Hk'. cbn [lookup].
  destruct (String.eqb_spec k' k) as [-> | _]; [ contradiction | reflexivity ].
Qed.

End NormalizerMore.

Section FilterMore.

Import VacancyManager Spec Props.

Lemma extract_vacancies_partition_witness :
  exists out console,
    extract_vacancies ascii_only
      [JDict [("id", JStr "x"); ("employer", JDict [("id", JInt 2)])];
       JDict sample_payload; JDict [("name", JStr "no ids")]] =
      (Return out, console) /\
    List.length out = 1%nat /\ console = [ValueError; TypeError].
Proof.
  pose (data := [JDict [("id", JStr "x"); ("employer", JDict [("id", JInt 2)])];
                 JDict sample_payload; JDict [("name", JStr "no ids")]]).
  destruct (proj2 (proj1 (extract_vacancies_partition ascii_only data)))
    as (out & console & H).
  - intros x e [<- | [<- | [<- | []]]] He; vm_compute in He;
      try discriminate He; injection He as <-; reflexivity.
  - exists out, console. split; [ exact H | ].
    destruct (proj2 (extract_vacancies_partition ascii_only data) out console H)
      as (-> & -> & _).
    split; reflexivity.
Defined.

Lemma parse_from_api_attribute_error_witness :
  parse_from_api ascii_only
    (JDict [("id", JStr "not a number"); ("employer", JDict [("id", JInt 2)]);
            ("area", JNull)]) = Raise AttributeError.
Proof.
  apply parse_from_api_attribute_error.
  unfold well_nested, absent_or_object. simpl. tauto.
Defined.

Lemma parse_from_api_reads_ten_keys_witness :
  parse_from_api ascii_only (JDict (("snippet", JNull) :: sample_payload)) =
  parse_from_api ascii_only (JDict sample_payload).
Proof.
  apply (proj2 (parse_from_api_reads_ten_keys ascii_only)).
  unfold read_keys. simpl.
  intros [H | [H | [H | [H | [H | [H | [H | [H | [H | [H | []]]]]]]]]]];
    discriminate H.
Defined.

Lemma name_typed_dec (v : Vacancy) : {name_typed v} + {~ name_typed v}.
Proof.
  unfold name_typed.
  destruct (name v) as [ | | | | s | | ];
    try (right; intros [s' H]; discriminate H).
  left. exists s. reflexivity.
Qed.

Lemma comprehension_keyword (lower : string -> string) (kw : string)
    (vacancies : list Vacancy) :
  ~ Forall name_typed vacancies ->
  comprehension (keyword_test lower kw) vacancies = Raise AttributeError.
Proof.
  induction vacancies as [ | v rest IH]; intros H.
  - contradiction H. constructor.
  - cbn [comprehension]. unfold keyword_test at 1.
    destruct (name_typed_dec v) as [[s Hs] | Hv].
    + rewrite Hs. cbn [bind]. rewrite IH; [ reflexivity | ].
      intros F. apply H. constructor; [ exists s; exact Hs | exact F ].
    + destruct (name v) as [ | | | | s | | ] eqn:E; try reflexivity.
      contradiction Hv. exists s. exact E.
Qed.

(** X4.  [filter_by_keyword] returns a list exactly when the name of every
    record is a string; when the name of some record is anything else, the
    absence value included, the whole call raises an attribute error. *)
Theorem filter_by_keyword_needs_names (lower : string -> string)
    (vacancies : list Vacancy) (keyword : string) :
  ((exists out, filter_by_keyword lower vacancies keyword = Return out) <->
   Forall name_typed vacancies) /\
  (~ Forall name_typed vacancies ->
   filter_by_keyword lower vacancies keyword = Raise AttributeError).
Proof.
  assert (R : ~ Forall name_typed vacancies ->
              filter_by_keyword lower vacancies keyword =
              Raise AttributeError)
    by (intros H; now apply comprehension_keyword).
  split; [ split | exact R ].
  - intros [out H].
    destruct (Forall_dec name_typed name_typed_dec vacancies) as [F | F];
      [ exact F | ].
    rewrite (R F) in H. discriminate H.
  - intros F. eexists. unfold filter_by_keyword.
    apply (comprehension_filter _ (has_keyword lower keyword)).
    eapply Forall_impl; [ | exact F ].
    intros v [s Hs]. unfold keyword_test, has_keyword. now rewrite Hs.
Qed.

Lemma filter_by_keyword_needs_names_witness :
  filter_by_keyword ascii_lower
    [named 1 "Python Developer";
     mkVacancy 2 1 JNull JNull JNull JNull JNull JNull JNull JNull JNull
       JNull] "python" = Raise AttributeError.
Proof.
  apply (proj2 (filter_by_keyword_needs_names ascii_lower _ "python")).
  intros F. inversion F as [ | v l _ F']. inversion F' as [ | w l' [s Hs] _].
  discriminate Hs.
Defined.

Lemma contains_empty (s : string) : contains "" s = true.
Proof. destruct s; reflexivity. Qed.

Lemma filter_all {A : Type} (f : A -> bool) (l : list A) :
  Forall (fun x => f x = true) l -> filter f l = l.
Proof.
  induction 1 as [ | x l Hx _ IH]; simpl; [ reflexivity | ].
  now rewrite Hx, IH.
Qed.

(** X5.  With the empty keyword, whose lower case is empty, every record
    whose name is a string is kept: the input comes back unchanged. *)
Theorem filter_by_keyword_empty_keyword (lower : string -> string)
    (vacancies : list Vacancy) :
  lower "" = "" ->
  Forall name_typed vacancies ->
  filter_by_keyword lower vacancies "" = Return vacancies.
Proof.
  intros L F. unfold filter_by_keyword.
  rewrite (comprehension_filter _ (has_keyword lower "")).
  - rewrite filter_all; [ reflexivity | ].
    eapply Forall_impl; [ | exact F ].
    intros v [s Hs]. unfold has_keyword. rewrite Hs, L.
    apply contains_empty.
  - eapply Forall_impl; [ | exact F ].
    intros v [s Hs]. unfold keyword_test, has_keyword. now rewrite Hs.
Qed.

Lemma filter_by_keyword_empty_keyword_witness :
  filter_by_keyword ascii_lower [named 1 "Analyst"; named 2 ""] "" =
  Return [named 1 "Analyst"; named 2 ""].
Proof.
  apply filter_by_keyword_empty_keyword; [ reflexivity | ].
  repeat (apply Forall_cons; [ eexists; reflexivity | ]). apply Forall_nil.
Defined.

Lemma filter_twice {A : Type} (f g : A -> bool) (l : list A) :
  filter f (filter g l) = filter (fun x => g x && f x) l.
Proof.
  induction l as [ | x l IH]; simpl; [ reflexivity | ].
  destruct (g x); simpl; [ destruct (f x) | ]; now rewrite IH.
Qed.

Lemma Forall_filter_kept {A : Type} (P : A -> Prop) (f : A -> bool)
    (l : list A) :
  Forall P l -> Forall P (filter f l).
Proof.
  induction 1 as [ | x l Hx _ IH]; simpl; [ constructor | ].
  destruct (f x); [ now constructor | exact IH ].
Qed.

Lemma keyword_filter_typed (lower : string -> string) (kw : string)
    (vacancies : list Vacancy) :
  Forall name_typed vacancies ->
  filter_by_keyword lower vacancies kw =
  Return (filter (has_keyword lower kw) vacancies).
Proof.
  intros F. unfold filter_by_keyword. apply comprehension_filter.
  eapply Forall_impl; [ | exact F ].
  intros v [s Hs]. unfold keyword_test, has_keyword. now rewrite Hs.
Qed.

Lemma salary_filter_typed (lo hi : option Z) (vacancies : list Vacancy) :
  Forall salary_typed vacancies ->
  filter_by_salary_range vacancies lo hi =
  Return (filter (keeps_salary lo hi) vacancies).
Proof.
  intros F. unfold filter_by_salary_range. now rewrite salary_loop_filter.
Qed.

(** X6.  On records typed as the constructor declares them, the two filters
    commute, each order giving the records that pass both tests in input
    order, and applying a filter a second time with the same arguments
    changes nothing. *)
Theorem filters_compose (lower : string -> string)
    (vacancies : list Vacancy) (keyword : string) (lo hi : option Z) :
  Forall name_typed vacancies ->
  Forall salary_typed vacancies ->
  (out <- filter_by_keyword lower vacancies keyword ;;
   filter_by_salary_range out lo hi) =
    Return (filter (fun v => has_keyword lower keyword v
                             && keeps_salary lo hi v) vacancies) /\
  (out <- filter_by_salary_range vacancies lo hi ;;
   filter_by_keyword lower out keyword) =
    (out <- filter_by_keyword lower vacancies keyword ;;
     filter_by_salary_range out lo hi) /\
  (out <- filter_by_keyword lower vacancies keyword ;;
   filter_by_keyword lower out keyword) =
    filter_by_keyword lower vacancies keyword /\
  (out <- filter_by_salary_range vacancies lo hi ;;
   filter_by_salary_range out lo hi) =
    filter_by_salary_range vacancies lo hi.
Proof.
  intros N S.
  rewrite (keyword_filter_typed lower keyword vacancies N),
    (salary_filter_typed lo hi vacancies S).
  cbn [bind].
  rewrite (salary_filter_typed lo hi _ (Forall_filter_kept _ _ _ S)),
    !(keyword_filter_typed lower keyword _ (Forall_filter_kept _ _ _ N)),
    (salary_filter_typed lo hi _ (Forall_filter_kept _ _ _ S)).
  rewrite !filter_twice. repeat split; f_equal; apply filter_ext; intros v.
  - apply andb_comm.
  - now destruct (has_keyword lower keyword v).
  - now destruct (keeps_salary lo hi v).
Qed.

Lemma filters_compose_witness :
  (out <- filter_by_salary_range
            [mkVacancy 1 1 (JStr "Python Developer") (JInt 90000) (JInt 150000)
               JNull JNull JNull JNull JNull JNull JNull;
             mkVacancy 2 1 (JStr "Python Intern") JNull JNull
               JNull JNull JNull JNull JNull JNull JNull;
             mkVacancy 3 1 (JStr "Accountant") (JInt 90000) (JInt 150000)
               JNull JNull JNull JNull JNull JNull JNull]
            (Some 100000) None ;;
   filter_by_keyword ascii_lower out "PYTHON") =
  Return [mkVacancy 1 1 (JStr "Python Developer") (JInt 90000) (JInt 150000)
            JNull JNull JNull JNull JNull JNull JNull].
Proof.
  pose (vs := [mkVacancy 1 1 (JStr "Python Developer") (JInt 90000)
                 (JInt 150000) JNull JNull JNull JNull JNull JNull JNull;
               mkVacancy 2 1 (JStr "Python Intern") JNull JNull
                 JNull JNull JNull JNull JNull JNull JNull;
               mkVacancy 3 1 (JStr "Accountant") (JInt 90000) (JInt 150000)
                 JNull JNull JNull JNull JNull JNull JNull]).
  assert (N : Forall name_typed vs)
    by (repeat (apply Forall_cons; [ eexists; reflexivity | ]);
        apply Forall_nil).
  assert (S : Forall salary_typed vs)
    by (repeat (apply Forall_cons;
                [ split; unfold optional_int; simpl; eauto | ]);
        apply Forall_nil).
  destruct (filters_compose ascii_lower vs "PYTHON" (Some 100000) None N S)
    as (E1 & E2 & _).
  fold vs. rewrite E2, E1. reflexivity.
Defined.

Lemma subseq_filter_weaker {A : Type} (f g : A -> bool) (l : list A) :
  (forall x, f x = true -> g x = true) ->
  subseq (filter f l) (filter g l).
Proof.
  intros H. induction l as [ | x l IH]; simpl; [ constructor | ].
  destruct (f x) eqn:F.
  - rewrite (H x F). now constructor.
  - destruct (g x); [ now constructor | exact IH ].
Qed.

(** X7.  Raising the wanted floor or lowering the wanted ceiling can only
    remove records: on records with integer or absent bounds, the result for
    the narrower range is the result for the wider one with some records
    dropped. *)
Theorem salary_filter_narrows (vacancies : list Vacancy)
    (lo hi lo' hi' : option Z) :
  Forall salary_typed vacancies ->
  floor_raised lo lo' -> ceiling_lowered hi hi' ->
  exists wide narrow,
    filter_by_salary_range vacancies lo hi = Return wide /\
    filter_by_salary_range vacancies lo' hi' = Return narrow /\
    subseq narrow wide.
Proof.
  intros T L H.
  exists (filter (keeps_salary lo hi) vacancies),
    (filter (keeps_salary lo' hi') vacancies).
  rewrite !salary_filter_typed by exact T.
  split; [ reflexivity | split; [ reflexivity | ] ].
  apply subseq_filter_weaker. intros v. unfold keeps_salary.
  rewrite !andb_true_iff. intros [[K Kl] Kh]. repeat split.
  - exact K.
  - destruct lo as [l | ]; [ | reflexivity ].
    destruct lo' as [l' | ]; [ | contradiction ]. cbn in L.
    destruct (salary_to v); try discriminate Kl.
    apply Z.leb_le. apply Z.leb_le in Kl. lia.
  - destruct hi as [h | ]; [ | reflexivity ].
    destruct hi' as [h' | ]; [ | contradiction ]. cbn in H.
    destruct (salary_from v); try discriminate Kh.
    apply Z.leb_le. apply Z.leb_le in Kh. lia.
Qed.

Lemma salary_filter_narrows_witness :
  exists wide narrow,
    filter_by_salary_range
      [with_salary 1 (JInt 50000) (JInt 80000);
       with_salary 2 (JInt 70000) (JInt 120000)] (Some 60000) None =
      Return wide /\
    filter_by_salary_range
      [with_salary 1 (JInt 50000) (JInt 80000);
       with_salary 2 (JInt 70000) (JInt 120000)] (Some 100000) (Some 90000) =
      Return narrow /\
    subseq narrow wide.
Proof.
  apply salary_filter_narrows.
  - repeat (apply Forall_cons;
            [ split; unfold optional_int; simpl; eauto | ]).
    apply Forall_nil.
  - simpl. lia.
  - exact I.
Defined.

Lemma salary_loop_unbounded (vacancies : list Vacancy) :
  forall filtered,
    salary_loop vacancies None None filtered =
    Return (filtered ++ filter has_bound vacancies).
Proof.
  induction vacancies as [ | v rest IH]; intros filtered; simpl.
  - now rewrite app_nil_r.
  - unfold has_bound, no_salary.
    destruct (is_none (salary_from v) && is_none (salary_to v));
      cbn [negb bind]; rewrite IH; [ reflexivity | ].
    now rewrite <- app_assoc.
Qed.

Lemma salary_loop_prefix (lo hi : option Z) (pre rest : list Vacancy) :
  Forall salary_typed pre ->
  forall filtered,
    salary_loop (pre ++ rest) lo hi filtered =
    salary_loop rest lo hi (filtered ++ filter (keeps_salary lo hi) pre).
Proof.
  induction 1 as [ | v pre [Hf Ht] _ IH]; intros filtered; simpl.
  - now rewrite app_nil_r.
  - unfold no_salary, below_floor, above_ceiling, keeps_salary.
    destruct Hf as [-> | [f ->]], Ht as [-> | [t ->]]; cbn [is_none andb negb];
      destruct lo as [l | ], hi as [h | ];
      cbn [bind py_lt py_gt andb]; rewrite ?IH; try reflexivity;
      repeat match goal with
             | |- context [?a <? ?b] => destruct (Z.ltb_spec a b)
             | |- context [?a <=? ?b] => destruct (Z.leb_spec a b)
             end;
      cbn [bind andb]; rewrite ?IH, <- ?app_assoc;
      first [ reflexivity | exfalso; lia ].
Qed.

(** X8.  The salary bounds of the records are compared only against a
    requested bound.  Without requested bounds the filter never raises,
    whatever the records hold, and keeps the records that have a bound set;
    with a requested floor, a record whose upper bound is a string, a list
    or an object makes the call raise a type error, and so does, under a
    requested ceiling alone, such a lower bound. *)
Theorem salary_filter_checks_lazily :
  (forall vacancies,
      filter_by_salary_range vacancies None None =
      Return (filter has_bound vacancies)) /\
  (forall pre v rest lo hi,
      Forall salary_typed pre ->
      not_comparable (salary_to v) ->
      filter_by_salary_range (pre ++ v :: rest) (Some lo) hi =
      Raise TypeError) /\
  (forall pre v rest hi,
      Forall salary_typed pre ->
      not_comparable (salary_from v) ->
      filter_by_salary_range (pre ++ v :: rest) None (Some hi) =
      Raise TypeError).
Proof.
  split; [ | split ].
  - intros vacancies. unfold filter_by_salary_range.
    now rewrite salary_loop_unbounded.
  - intros pre v rest lo hi T N. unfold filter_by_salary_range.
    rewrite (salary_loop_prefix _ _ pre (v :: rest) T).
    cbn [salary_loop]. unfold no_salary, below_floor.
    destruct (salary_to v); try contradiction;
      rewrite andb_false_r; reflexivity.
  - intros pre v rest hi T N. unfold filter_by_salary_range.
    rewrite (salary_loop_prefix _ _ pre (v :: rest) T).
    cbn [salary_loop]. unfold no_salary, below_floor, above_ceiling.
    destruct (salary_from v); try contradiction; reflexivity.
Qed.

Lemma salary_filter_checks_lazily_witness :
  filter_by_salary_range
    [with_salary 1 (JInt 50000) (JInt 80000);
     with_salary 2 JNull (JStr "120000")] (Some 60000) None =
  Raise TypeError.
Proof.
  apply (proj1 (proj2 salary_filter_checks_lazily)
           [with_salary 1 (JInt 50000) (JInt 80000)]
           (with_salary 2 JNull (JStr "120000")) [] 60000 None).
  - apply Forall_cons; [ split; unfold optional_int; simpl; eauto | ].
    apply Forall_nil.
  - exact I.
Defined.

End FilterMore.

(** ** API client *)

Section ClientMore.

Import HeadHunterAPI Spec Props.

Variable requests_get : request -> result response.
Variable employer_id : Z.

(** Whatever the server does, a loop that stops has asked for consecutive
    pages from page 0 on. *)
Lemma pages_loop_requests (fuel : nat) :
  forall (p : nat) (all_vacancies : list json) (sent : list request)
         (r : result (list json)) (sent' : list request),
    pages_loop requests_get fuel employer_id (Z.of_nat p) all_vacancies sent =
      Some (r, sent') ->
    exists n, (1 <= n <= fuel)%nat /\
              sent' = sent ++ page_requests employer_id p n.
Proof.
  induction fuel as [ | fuel IH]; intros p acc sent r sent' H;
    [ discriminate H | ].
  cbn [pages_loop] in H.
  assert (One : sent ++ [GetVacancies employer_id (Z.of_nat p) 100] =
                sent ++ page_requests employer_id p 1) by reflexivity.
  destruct (get_employer_vacancies requests_get employer_id (Z.of_nat p) 100)
    as [data | e].
  - destruct (is_none data).
    + injection H as <- <-. exists 1%nat. split; [ lia | exact One ].
    + destruct (take_page data (Z.of_nat p) acc) as [[acc' [ | ]] | e].
      * injection H as <- <-. exists 1%nat. split; [ lia | exact One ].
      * replace (Z.of_nat p + 1) with (Z.of_nat (S p)) in H by lia.
        destruct (IH _ _ _ _ _ H) as (n & Hn & ->).
        exists (S n). split; [ lia | ].
        unfold page_requests. cbn [seq map]. now rewrite <- app_assoc.
      * injection H as <- <-. exists 1%nat. split; [ lia | exact One ].
  - injection H as <- <-. exists 1%nat. split; [ lia | exact One ].
Qed.

Lemma pages_loop_more_fuel (fuel : nat) :
  forall (page : Z) (all_vacancies : list json) (sent : list request)
         (out : result (list json) * list request) (fuel' : nat),
    pages_loop requests_get fuel employer_id page all_vacancies sent =
      Some out ->
    (fuel <= fuel')%nat ->
    pages_loop requests_get fuel' employer_id page all_vacancies sent =
      Some out.
Proof.
  induction fuel as [ | fuel IH]; intros page acc sent out fuel' H Hf;
    [ discriminate H | ].
  destruct fuel' as [ | fuel']; [ lia | ].
  cbn [pages_loop] in *.
  destruct (get_employer_vacancies requests_get employer_id page 100)
    as [data | e]; [ | exact H ].
  destruct (is_none data); [ exact H | ].
  destruct (take_page data page acc) as [[acc' [ | ]] | e]; try exact H.
  apply (IH _ _ _ _ _ H). lia.
Qed.

(** X9.  Whatever the server answers, when [get_all_vacancies_for_employer]
    stops it has issued at least one request, and its requests are those for
    the consecutive pages 0, 1, 2, ... of the employer, 100 items each; the
    outcome is the same under any larger bound on the number of turns. *)
Theorem get_all_vacancies_for_employer_requests (fuel : nat)
    (r : result (list json)) (sent : list request) :
  get_all_vacancies_for_employer requests_get fuel employer_id =
    Some (r, sent) ->
  (1 <= List.length sent <= fuel)%nat /\
  sent = page_requests employer_id 0 (List.length sent) /\
  forall fuel', (fuel <= fuel')%nat ->
    get_all_vacancies_for_employer requests_get fuel' employer_id =
    Some (r, sent).
Proof.
  unfold get_all_vacancies_for_employer. intros H.
  change 0 with (Z.of_nat 0) in H.
  destruct (pages_loop_requests _ _ _ _ _ _ H) as (n & Hn & E).
  cbn [app] in E.
  assert (L : List.length sent = n).
  { rewrite E. unfold page_requests. now rewrite length_map, length_seq. }
  rewrite L. split; [ exact Hn | split; [ exact E | ] ].
  intros fuel' Hf. exact (pages_loop_more_fuel _ _ _ _ _ _ H Hf).
Qed.

Variable pages : Z.
Variable items : nat -> list json.

#[local] Abbreviation served' :=
  (page_ok requests_get employer_id pages items).

Lemma pages_loop_advance (m : nat) :
  forall (p : nat) (all_vacancies : list json) (sent : list request)
         (fuel : nat),
    (forall k, (p <= k < p + m)%nat -> served' k) ->
    (forall k, (p <= k < p + m)%nat -> Z.of_nat k < pages - 1) ->
    pages_loop requests_get (m + fuel) employer_id (Z.of_nat p) all_vacancies
      sent =
    pages_loop requests_get fuel employer_id (Z.of_nat (p + m))
      (all_vacancies ++ items_of_pages items p m)
      (sent ++ page_requests employer_id p m).
Proof.
  unfold items_of_pages, page_requests.
  induction m as [ | m IH]; intros p acc sent fuel Hok Hmid.
  - cbn. now rewrite Nat.add_0_r, !app_nil_r.
  - destruct (Hok p ltac:(lia)) as (data & Hget & Hpage).
    destruct (take_page_is_page pages data _ (Z.of_nat p) acc Hpage)
      as [Hn Ht].
    cbn [Nat.add pages_loop]. rewrite Hget, Hn, Ht.
    replace (pages - 1 <=? Z.of_nat p) with false
      by (symmetry; apply Z.leb_gt; apply Hmid; lia).
    replace (Z.of_nat p + 1) with (Z.of_nat (S p)) by lia.
    rewrite (IH (S p)).
    + cbn [seq map List.concat].
      replace (S p + m)%nat with (p + S m)%nat by lia.
      now rewrite <- !app_assoc.
    + intros k Hk. apply Hok. lia.
    + intros k Hk. apply Hmid. lia.
Qed.

Lemma pages_loop_reaches (k fuel : nat) :
  (forall j, (j < k)%nat -> served' j) ->
  Z.of_nat k < pages ->
  (k < fuel)%nat ->
  get_all_vacancies_for_employer requests_get fuel employer_id =
  pages_loop requests_get (S (fuel - S k)) employer_id (Z.of_nat k)
    (items_of_pages items 0 k) (page_requests employer_id 0 k).
Proof.
  intros Hok Hk Hf. unfold get_all_vacancies_for_employer.
  replace fuel with (k + S (fuel - S k))%nat at 1 by lia.
  change 0 with (Z.of_nat 0).
  rewrite pages_loop_advance.
  - reflexivity.
  - intros j Hj. apply Hok. lia.
  - intros j Hj. lia.
Qed.

Lemma page_requests_next (k : nat) :
  page_requests employer_id 0 k ++
    [GetVacancies employer_id (Z.of_nat k) 100] =
  page_requests employer_id 0 (S k).
Proof. unfold page_requests. rewrite seq_S, map_app. reflexivity. Qed.

Lemma raise_for_status_passes (r : response) :
  ~ 400 <= status_code r < 600 -> raise_for_status r = Return tt.
Proof.
  intros Hs. unfold raise_for_status.
  destruct (Z.leb_spec 400 (status_code r)),
    (Z.ltb_spec (status_code r) 600); try reflexivity.
  contradiction Hs. lia.
Qed.

(** X10.  What ends the listing at page [k] after the pages before it were
    read.  An exception that is not a request exception leaves
    [get_all_vacancies_for_employer], and the items of the pages before [k]
    are lost with it: so it is for such an exception of the network, for the
    attribute error of a reply that is neither an object nor null, and for
    the type error of a page whose items are null.  A reply that is not JSON
    makes the decoder raise a request exception, and the reply null reads as
    a failed request: each ends the listing, the items of the pages before
    [k] being returned. *)
Theorem get_all_vacancies_for_employer_raises (k : nat) :
  (forall j, (j < k)%nat -> served' j) ->
  Z.of_nat k < pages ->
  (forall e,
      is_request_exception e = false ->
      requests_get (GetVacancies employer_id (Z.of_nat k) 100) = Raise e ->
      forall fuel, (k < fuel)%nat ->
        get_all_vacancies_for_employer requests_get fuel employer_id =
        Some (Raise e, page_requests employer_id 0 (S k))) /\
  (forall r,
      requests_get (GetVacancies employer_id (Z.of_nat k) 100) = Return r ->
      ~ 400 <= status_code r < 600 ->
      forall fuel, (k < fuel)%nat ->
        (forall reply,
            json_body r = Some reply -> bare_value reply ->
            get_all_vacancies_for_employer requests_get fuel employer_id =
            Some (Raise AttributeError,
                  page_requests employer_id 0 (S k))) /\
        (forall d,
            json_body r = Some (JDict d) -> lookup "items" d = Some JNull ->
            get_all_vacancies_for_employer requests_get fuel employer_id =
            Some (Raise TypeError, page_requests employer_id 0 (S k))) /\
        (json_body r = None \/ json_body r = Some JNull ->
         get_all_vacancies_for_employer requests_get fuel employer_id =
         Some (Return (items_of_pages items 0 k),
               page_requests employer_id 0 (S k)))).
Proof.
  intros Hok Hk. split.
  - intros e He H fuel Hf. rewrite (pages_loop_reaches k fuel Hok Hk Hf).
    cbn [pages_loop]. unfold get_employer_vacancies, fetch.
    rewrite H. cbn [bind try_except]. now rewrite He, page_requests_next.
  - intros r H Hs fuel Hf. rewrite (pages_loop_reaches k fuel Hok Hk Hf).
    cbn [pages_loop]. unfold get_employer_vacancies, fetch.
    rewrite H. cbn [bind]. rewrite (raise_for_status_passes r Hs).
    cbn [bind]. unfold response_json. rewrite page_requests_next.
    split; [ | split ].
    + intros reply -> B. cbn [try_except].
      destruct reply; try contradiction; reflexivity.
    + intros d -> Hi. cbn [try_except is_none]. unfold take_page.
      cbn [py_get bind]. rewrite Hi. reflexivity.
    + intros [-> | ->]; reflexivity.
Qed.

(** X11.  When every page is served and reports more pages than have been
    read so far, the loop never stops: no bound on the number of turns is
    enough for a result. *)
Theorem get_all_vacancies_for_employer_endless :
  (forall k, exists data its count,
      get_employer_vacancies requests_get employer_id (Z.of_nat k) 100 =
        Return data /\
      is_page data its count /\ Z.of_nat k + 1 < count) ->
  forall fuel,
    get_all_vacancies_for_employer requests_get fuel employer_id = None.
Proof.
  intros H fuel. unfold get_all_vacancies_for_employer.
  change 0 with (Z.of_nat 0). generalize 0%nat (@nil json) (@nil request).
  induction fuel as [ | fuel IH]; intros p acc sent; [ reflexivity | ].
  destruct (H p) as (data & its & count & Hget & (d & -> & Hi & Hp) & Hc).
  cbn [pages_loop]. rewrite Hget. cbn [is_none].
  unfold take_page. cbn [py_get bind]. rewrite Hi. cbn [py_extend bind].
  rewrite Hp. cbn [reached_last_page bind].
  replace (count - 1 <=? Z.of_nat p) with false
    by (symmetry; apply Z.leb_gt; lia).
  replace (Z.of_nat p + 1) with (Z.of_nat (S p)) by lia.
  apply IH.
Qed.

(** X12.  A reply that is an object without a page count ends the
    pagination after its page, the count defaulting to 0; its items are
    still taken, and a reply without items contributes none. *)
Theorem get_all_vacancies_for_employer_defaults (k : nat)
    (d : list (string * json)) (its : list json) :
  (forall j, (j < k)%nat -> served' j) ->
  Z.of_nat k < pages ->
  get_employer_vacancies requests_get employer_id (Z.of_nat k) 100 =
    Return (JDict d) ->
  lookup "pages" d = None ->
  (lookup "items" d = None /\ its = []) \/
    lookup "items" d = Some (JList its) ->
  forall fuel, (k < fuel)%nat ->
    get_all_vacancies_for_employer requests_get fuel employer_id =
    Some (Return (items_of_pages items 0 k ++ its),
          page_requests employer_id 0 (S k)).
Proof.
  intros Hok Hk Hget Hp Hi fuel Hf.
  unfold get_all_vacancies_for_employer.
  replace fuel with (k + S (fuel - S k))%nat by lia.
  change 0 with (Z.of_nat 0).
  rewrite pages_loop_advance.
  - cbn [Nat.add app pages_loop]. rewrite Hget. cbn [is_none].
    unfold take_page. cbn [py_get bind]. rewrite Hp.
    assert (Rq : page_requests employer_id 0 k ++
                 [GetVacancies employer_id (Z.of_nat k) 100] =
                 page_requests employer_id 0 (S k)).
    { unfold page_requests. rewrite seq_S, map_app. reflexivity. }
    destruct Hi as [[Hi ->] | Hi]; rewrite Hi; cbn [py_extend bind
      reached_last_page];
      (replace (0 - 1 <=? Z.of_nat k) with true
         by (symmetry; apply Z.leb_le; lia));
      now rewrite Rq.
  - intros j Hj. apply Hok. lia.
  - intros j Hj. lia.
Qed.

End ClientMore.

Section ClientMoreExamples.

Import HeadHunterAPI Spec Props.

Lemma get_all_vacancies_for_employer_requests_witness :
  (1 <= 3 <= 5)%nat /\
  [GetVacancies 7 0 100; GetVacancies 7 1 100; GetVacancies 7 2 100] =
    page_requests 7 0 3 /\
  get_all_vacancies_for_employer (numbered_pages 3) 9 7 =
    Some (Return [JInt 0; JInt 1; JInt 2],
          [GetVacancies 7 0 100; GetVacancies 7 1 100;
           GetVacancies 7 2 100]).
Proof.
  destruct (get_all_vacancies_for_employer_requests (numbered_pages 3) 7 5
              (Return [JInt 0; JInt 1; JInt 2])
              [GetVacancies 7 0 100; GetVacancies 7 1 100;
               GetVacancies 7 2 100] eq_refl) as (B & E & M).
  split; [ exact B | split; [ exact E | ] ].
  apply M. lia.
Defined.

Lemma get_all_vacancies_for_employer_raises_witness :
  get_all_vacancies_for_employer (undecodable_page 1) 5 7 =
    Some (Return [JInt 0], [GetVacancies 7 0 100; GetVacancies 7 1 100]) /\
  get_all_vacancies_for_employer (odd_page 1 (JList [])) 5 7 =
    Some (Raise AttributeError,
          [GetVacancies 7 0 100; GetVacancies 7 1 100]).
Proof.
  assert (Ok : forall server,
             server (GetVacancies 7 0 100) =
               numbered_pages 3 (GetVacancies 7 0 100) ->
             forall j, (j < 1)%nat ->
               page_ok server 7 3 (fun k => [JInt (Z.of_nat k)]) j).
  { intros server E j Hj. replace j with 0%nat by lia.
    unfold page_ok, get_employer_vacancies, fetch. cbn [Z.of_nat]. rewrite E.
    eexists. split; [ reflexivity | ].
    eexists. repeat split; reflexivity. }
  split.
  - apply (proj2 (proj2 (proj2 (get_all_vacancies_for_employer_raises
                                  (undecodable_page 1) 7 3
                                  (fun k => [JInt (Z.of_nat k)]) 1
                                  (Ok (undecodable_page 1) eq_refl)
                                  ltac:(lia))
                           (mkResponse 200 None) eq_refl
                           ltac:(cbn; lia) 5%nat ltac:(lia)))).
    left. reflexivity.
  - apply (proj1 (proj2 (get_all_vacancies_for_employer_raises
                           (odd_page 1 (JList [])) 7 3
                           (fun k => [JInt (Z.of_nat k)]) 1
                           (Ok (odd_page 1 (JList [])) eq_refl)
                           ltac:(lia))
                    (mkResponse 200 (Some (JList []))) eq_refl
                    ltac:(cbn; lia) 5%nat ltac:(lia))
             (JList [])).
    + reflexivity.
    + exact I.
Defined.

Lemma get_all_vacancies_for_employer_endless_witness :
  get_all_vacancies_for_employer growing_listing 1000 7 = None.
Proof.
  apply get_all_vacancies_for_employer_endless.
  intros k. eexists. exists [JInt (Z.of_nat k)], (Z.of_nat k + 2).
  split; [ reflexivity | ].
  split; [ | lia ].
  eexists. repeat split; reflexivity.
Defined.

Lemma get_all_vacancies_for_employer_defaults_witness :
  get_all_vacancies_for_employer bare_listing 4 7 =
  Some (Return [], [GetVacancies 7 0 100]).
Proof.
  apply (get_all_vacancies_for_employer_defaults bare_listing 7 1
           (fun _ => []) 0 [("found", JInt 0)] []).
  - intros j Hj. lia.
  - lia.
  - reflexivity.
  - reflexivity.
  - left. split; reflexivity.
  - lia.
Defined.

End ClientMoreExamples.

(** ** Persistence and query layer *)

Section StoreMore.

Import DBManager Main Spec Props.

(** The reading of timestamps by the store, whatever it is. *)
Variable timestamp_in : string -> bool.

Ltac split_test x :=
  lazymatch x with
  | context [match _ with _ => _ end] => fail
  | _ => first [ is_var x; destruct x | destruct x eqn:? ]
  end.

Ltac split_all :=
  repeat (simpl in *;
          match goal with
          | H : context [match ?x with _ => _ end] |- _ => split_test x
          | |- context [match ?x with _ => _ end] => split_test x
          end).

Lemma insert_frame_not_committed (fl : faults) (db db' : database)
    (params : result unit) (stmt : database -> result database)
    (r : result bool) :
  not_committed fl ->
  insert_frame fl db params stmt = (r, db') -> db' = db.
Proof.
  unfold not_committed, insert_frame, get_connection, run_statement, finally,
    try_except, raise_if, bind.
  destruct fl, params as [[] | e]. all: intros N H.
  all: split_all; injection H as <- <-; try reflexivity;
    destruct N as [N | [N | [N | N]]]; congruence.
Qed.

Lemma has_company_update (row : company_row) (db db' : database) (k : Z) :
  on_conflict_update row db = Return db' ->
  has_company k db = true -> has_company k db' = true.
Proof.
  unfold on_conflict_update, has_company. intros H K.
  destruct (existsb _ (companies db)) eqn:E; injection H as <-; cbn.
  - apply existsb_key. apply existsb_key in K.
    rewrite map_map. erewrite map_ext; [ exact K | ].
    intros c. cbn. destruct (c_company_id c =? c_company_id row); reflexivity.
  - rewrite existsb_app, K. reflexivity.
Qed.

Lemma well_formed_upsert (row : company_row) (db db' : database) :
  well_formed db -> upsert_company row db = Return db' -> well_formed db'.
Proof.
  intros [U R] H.
  destruct (upsert_company_returns _ _ _ H) as (stored & _ & _ & C).
  destruct (on_conflict_update_rows _ _ _ U C) as (_ & V & U').
  split; [ exact U' | ].
  intros v Hv. rewrite V in Hv.
  exact (has_company_update _ _ _ _ C (R v Hv)).
Qed.

Lemma well_formed_on_conflict_nothing (row : vacancy_row)
    (db db' : database) :
  well_formed db -> on_conflict_nothing row db = Return db' ->
  well_formed db'.
Proof.
  intros [U R] H. pose proof H as H'. unfold on_conflict_nothing in H.
  destruct (has_vacancy (v_vacancy_id row) db) eqn:K.
  - injection H as <-. split; assumption.
  - destruct (has_company (v_company_id row) db) eqn:C; [ | discriminate H ].
    destruct (on_conflict_nothing_fresh _ _ _ U K H') as (_ & _ & U').
    split; [ exact U' | ].
    injection H as <-. intros v Hv. cbn in Hv. unfold has_company. cbn.
    apply in_app_iff in Hv. destruct Hv as [Hv | [<- | []]].
    + exact (R v Hv).
    + exact C.
Qed.

Lemma well_formed_insert_vacancy_row (row : vacancy_row) (db db' : database) :
  well_formed db ->
  insert_vacancy_row timestamp_in row db = Return db' -> well_formed db'.
Proof.
  intros W H.
  destruct (insert_vacancy_row_returns _ _ _ _ H) as (stored & _ & _ & _ & C).
  exact (well_formed_on_conflict_nothing _ _ _ W C).
Qed.

(** X13.  The unique constraints and the foreign key of the tables are
    invariants of the three writing operations: from tables that satisfy
    them, [insert_company], [insert_vacancy] and [clear_tables] lead to
    tables that satisfy them, whatever the driver does and whether the
    operation succeeds, fails or raises. *)
Theorem writes_keep_tables_well_formed (fl : faults) (db : database) :
  well_formed db ->
  (forall company_id name site_url open_vacancies,
      well_formed
        (snd (insert_company fl db company_id name site_url
                open_vacancies))) /\
  (forall vacancy,
      well_formed (snd (store_vacancy timestamp_in fl db vacancy))) /\
  well_formed (snd (clear_tables fl db)).
Proof.
  intros W. split; [ | split ].
  - intros cid n su ov.
    destruct (insert_company fl db cid n su ov) as [r db'] eqn:E.
    destruct (insert_frame_tables _ _ _ _ _ _ E) as [-> | [_ H]];
      [ exact W | ].
    exact (well_formed_upsert _ _ _ W H).
  - intros v. rewrite store_vacancy_frame.
    destruct (insert_frame _ _ _ _) as [r db'] eqn:E.
    destruct (insert_frame_tables _ _ _ _ _ _ E) as [-> | [_ H]];
      [ exact W | ].
    exact (well_formed_insert_vacancy_row _ _ _ W H).
  - destruct (clear_tables fl db) as [r db'] eqn:E.
    destruct (insert_frame_tables _ _ _ _ _ _ E) as [-> | [_ H]];
      [ exact W | ].
    injection H as <-. split; [ split; constructor | intros v [] ].
Qed.

(** X14.  The writing operations are atomic up to the commit: when the
    connection, the cursor, the statement or the commit fails, the tables
    are left as they were, whatever the operation then returns or raises.
    The Boolean is not a record of the write: when closing the cursor fails
    after the commit, [insert_company] answers [False] although the row of
    the new company, whose values fit their columns, is stored. *)
Theorem writes_are_atomic :
  (forall fl db,
      not_committed fl ->
      (forall company_id name site_url open_vacancies,
          snd (insert_company fl db company_id name site_url open_vacancies)
          = db) /\
      (forall vacancy, snd (store_vacancy timestamp_in fl db vacancy) = db) /\
      snd (clear_tables fl db) = db) /\
  (forall db company_id name site_url open_vacancies,
      company_fits (mkCompany company_id name site_url open_vacancies) ->
      has_company company_id db = false ->
      insert_company close_fails db company_id name site_url open_vacancies =
      (Return false,
       mkDatabase
         (companies db ++ [mkCompany company_id name site_url open_vacancies])
         (vacancies db))).
Proof.
  split.
  - intros fl db N. split; [ | split ].
    + intros cid n su ov.
      destruct (insert_company fl db cid n su ov) as [r db'] eqn:E.
      exact (insert_frame_not_committed _ _ _ _ _ _ N E).
    + intros v. rewrite store_vacancy_frame.
      destruct (insert_frame _ _ _ _) as [r db'] eqn:E.
      exact (insert_frame_not_committed _ _ _ _ _ _ N E).
    + destruct (clear_tables fl db) as [r db'] eqn:E.
      exact (insert_frame_not_committed _ _ _ _ _ _ N E).
  - intros db cid n su ov F H.
    destruct (company_fits_taken _ F) as [P C].
    unfold insert_company, insert_frame, run_statement, upsert_company.
    cbv zeta. rewrite P, C. cbn. unfold on_conflict_update.
    cbn [c_company_id]. rewrite H. reflexivity.
Qed.

Lemma on_conflict_update_other_rows (row : company_row) (db db' : database)
    (k : Z) :
  on_conflict_update row db = Return db' ->
  k <> c_company_id row ->
  rows_of_company k db' = rows_of_company k db.
Proof.
  unfold on_conflict_update, rows_of_company. intros H K.
  destruct (has_company (c_company_id row) db); injection H as <-; cbn.
  - induction (companies db) as [ | c l IH]; [ reflexivity | ]. cbn.
    destruct (Z.eqb_spec (c_company_id c) (c_company_id row)) as [E | E];
      cbn [c_company_id].
    + destruct (Z.eqb_spec (c_company_id c) k) as [E' | _];
        [ congruence | exact IH ].
    + destruct (c_company_id c =? k); now rewrite IH.
  - rewrite filter_app. cbn.
    destruct (Z.eqb_spec (c_company_id row) k) as [E | _];
      [ congruence | apply app_nil_r ].
Qed.

Lemma on_conflict_update_length (row : company_row) (db db' : database) :
  on_conflict_update row db = Return db' ->
  (List.length (companies db) <= List.length (companies db')
   <= S (List.length (companies db)))%nat.
Proof.
  unfold on_conflict_update. intros H.
  destruct (has_company (c_company_id row) db); injection H as <-; cbn.
  - rewrite length_map. lia.
  - rewrite length_app. cbn. lia.
Qed.

Lemma insert_company_vacancies (fl : faults) (db : database)
    (company_id : Z) (name : string) (site_url : option string)
    (open_vacancies : Z) :
  vacancies (snd (insert_company fl db company_id name site_url
                    open_vacancies)) = vacancies db.
Proof.
  destruct (insert_company fl db company_id name site_url open_vacancies)
    as [r db'] eqn:E.
  cbn [snd].
  destruct (insert_frame_tables _ _ _ _ _ _ E) as [-> | [_ H]];
    [ reflexivity | ].
  destruct (upsert_company_returns _ _ _ H) as (stored & _ & _ & C).
  unfold on_conflict_update in C.
  destruct (has_company _ db); injection C as <-; reflexivity.
Qed.

Lemma store_vacancy_effect (fl : faults) (db : database)
    (v : vacancy_row) :
  companies (snd (store_vacancy timestamp_in fl db v)) = companies db /\
  (vacancies (snd (store_vacancy timestamp_in fl db v)) = vacancies db \/
   exists stored,
     vacancy_taken timestamp_in v stored /\
     vacancies (snd (store_vacancy timestamp_in fl db v)) =
       vacancies db ++ [stored] /\
     has_vacancy (v_vacancy_id v) db = false /\
     has_company (v_company_id v) db = true).
Proof.
  rewrite store_vacancy_frame.
  destruct (insert_frame _ _ _ _) as [r db'] eqn:E. cbn [snd].
  destruct (insert_frame_tables _ _ _ _ _ _ E) as [-> | [P H]];
    [ now auto | ].
  destruct (insert_vacancy_row_returns _ _ _ _ H)
    as (stored & T & I & C & N).
  unfold on_conflict_nothing in N. rewrite I, C in N.
  destruct (has_vacancy (v_vacancy_id v) db);
    [ injection N as <-; now auto | ].
  destruct (has_company (v_company_id v) db); [ | discriminate N ].
  injection N as <-. cbn. split; [ reflexivity | ]. right.
  exists stored. repeat split; assumption.
Qed.

(** X15.  [insert_company] touches the rows of one company only: whatever
    the driver does, the vacancies and the rows of every other company are
    left as they were, and the number of stored companies grows by one at
    most and never shrinks. *)
Theorem insert_company_touches_one_company (fl : faults) (db : database)
    (company_id : Z) (name : string) (site_url : option string)
    (open_vacancies : Z) :
  let db' :=
    snd (insert_company fl db company_id name site_url open_vacancies) in
  vacancies db' = vacancies db /\
  (forall other, other <> company_id ->
                 rows_of_company other db' = rows_of_company other db) /\
  (List.length (companies db) <= List.length (companies db')
   <= S (List.length (companies db)))%nat.
Proof.
  cbv zeta. split; [ apply insert_company_vacancies | ].
  destruct (insert_company fl db company_id name site_url open_vacancies)
    as [r db'] eqn:E.
  cbn [snd].
  destruct (insert_frame_tables _ _ _ _ _ _ E) as [-> | [_ H]].
  - repeat split; lia.
  - destruct (upsert_company_returns _ _ _ H) as (stored & _ & I & C).
    cbn [c_company_id] in I. split.
    + intros other O. apply (on_conflict_update_other_rows _ _ _ _ C).
      now rewrite I.
    + exact (on_conflict_update_length _ _ _ C).
Qed.

Lemma store_vacancy_refused (fl : faults) (db : database) (v : vacancy_row) :
  faults_are_pg fl -> cleanup_completes fl ->
  without_nul v ->
  has_vacancy (v_vacancy_id v) db = false ->
  has_company (v_company_id v) db = false ->
  store_vacancy timestamp_in fl db v = (Return false, db).
Proof.
  intros P C N K F. rewrite store_vacancy_frame, (without_nul_params v N).
  assert (R : exists e, insert_vacancy_row timestamp_in v db = Raise e).
  { unfold insert_vacancy_row.
    destruct (vacancy_columns timestamp_in v) as [stored | e] eqn:E;
      cbn [bind]; [ | eauto ].
    destruct (vacancy_columns_returns _ _ _ E) as (I & Ic & _).
    unfold on_conflict_nothing. rewrite I, Ic, K, F. eauto. }
  destruct (insert_frame_absorbs fl db (insert_vacancy_row timestamp_in v)
              P C (insert_vacancy_row_raises timestamp_in v db))
    as (ok & db' & H & O).
  rewrite H. rewrite O by (right; exact R).
  destruct (insert_frame_tables _ _ _ _ _ _ H) as [-> | [_ H']];
    [ reflexivity | ].
  destruct R as [e R]. congruence.
Qed.

(** X16.  [insert_vacancy] never changes a stored row: whatever the driver
    does, the companies are left as they were and the vacancies are either
    left as they were or extended by one row, made of the values of the
    call as the columns hold them; the vacancy then has a new identifier
    and a stored company.  A vacancy with a new identifier whose company is
    not stored, and whose texts the driver takes, is refused: the answer is
    [False] and the tables are unchanged. *)
Theorem insert_vacancy_appends_or_nothing :
  (forall fl db vacancy,
      let db' := snd (store_vacancy timestamp_in fl db vacancy) in
      companies db' = companies db /\
      (vacancies db' = vacancies db \/
       exists stored,
         vacancy_taken timestamp_in vacancy stored /\
         vacancies db' = vacancies db ++ [stored] /\
         has_vacancy (v_vacancy_id vacancy) db = false /\
         has_company (v_company_id vacancy) db = true)) /\
  (forall fl db vacancy,
      faults_are_pg fl -> cleanup_completes fl ->
      without_nul vacancy ->
      has_vacancy (v_vacancy_id vacancy) db = false ->
      has_company (v_company_id vacancy) db = false ->
      store_vacancy timestamp_in fl db vacancy = (Return false, db)).
Proof.
  split.
  - intros fl db v. cbv zeta. apply store_vacancy_effect.
  - intros fl db v. apply store_vacancy_refused.
Qed.
Lemma insert_by_count_perm (x : string * Z) (l : list (string * Z)) :
  Permutation (insert_by_count x l) (x :: l).
Proof.
  induction l as [ | y l IH]; cbn; [ reflexivity | ].
  destruct (snd x <? snd y); [ | reflexivity ].
  rewrite IH. apply perm_swap.
Qed.

Lemma order_by_count_desc_perm (l : list (string * Z)) :
  Permutation (order_by_count_desc l) l.
Proof.
  unfold order_by_count_desc.
  induction l as [ | x l IH]; cbn; [ reflexivity | ].
  rewrite insert_by_count_perm. now constructor.
Qed.

Lemma insert_by_count_sorted (x : string * Z) (l : list (string * Z)) :
  StronglySorted count_desc l ->
  StronglySorted count_desc (insert_by_count x l).
Proof.
  induction 1 as [ | y l Hl IH Hy]; cbn.
  - constructor; constructor.
  - destruct (Z.ltb_spec (snd x) (snd y)) as [L | L].
    + constructor; [ exact IH | ].
      eapply Permutation_Forall;
        [ symmetry; apply insert_by_count_perm | ].
      constructor; [ unfold count_desc; lia | exact Hy ].
    + constructor; [ now constructor | ].
      constructor; [ unfold count_desc; lia | ].
      eapply Forall_impl; [ | exact Hy ].
      intros z Hz. unfold count_desc in *. lia.
Qed.

Lemma order_by_count_desc_sorted (l : list (string * Z)) :
  StronglySorted count_desc (order_by_count_desc l).
Proof.
  unfold order_by_count_desc.
  induction l as [ | x l IH]; cbn; [ constructor | ].
  now apply insert_by_count_sorted.
Qed.

Lemma sum_Z_perm (l l' : list Z) :
  Permutation l l' -> sum_Z l = sum_Z l'.
Proof.
  unfold sum_Z. induction 1; cbn; lia.
Qed.

Lemma double_count {A B : Type} (p : A -> B -> bool) (cs : list B)
    (vs : list A) :
  sum_Z (map (fun c => Z.of_nat (List.length (filter (fun v => p v c) vs)))
           cs) =
  sum_Z (map (fun v => Z.of_nat (List.length (filter (fun c => p v c) cs)))
           vs).
Proof.
  unfold sum_Z.
  induction vs as [ | v vs IH]; cbn.
  - induction cs as [ | c cs IHc]; cbn; [ reflexivity | exact IHc ].
  - rewrite <- IH. clear IH.
    induction cs as [ | c cs IHc]; cbn; [ reflexivity | ].
    destruct (p v c); cbn [List.length]; lia.
Qed.

Lemma sum_of_ones {A : Type} (f : A -> Z) (l : list A) :
  (forall x, In x l -> f x = 1) ->
  sum_Z (map f l) = Z.of_nat (List.length l).
Proof.
  unfold sum_Z. induction l as [ | x l IH]; intros H; cbn [map fold_right
    List.length]; [ reflexivity | ].
  rewrite (H x (or_introl eq_refl)), IH by (intros y Hy; apply H; now right).
  lia.
Qed.

Lemma counts_add_up (db : database) :
  well_formed db ->
  sum_Z (map snd (counted db)) = Z.of_nat (List.length (vacancies db)).
Proof.
  intros [[Uc _] R]. unfold counted, count_for. rewrite map_map. cbn [snd].
  rewrite (double_count (fun v c => v_company_id v =? c_company_id c)).
  apply sum_of_ones. intros v Hv.
  specialize (R v Hv). unfold has_company in R.
  apply existsb_key in R. apply in_map_iff in R. destruct R as (c & E & Hc).
  rewrite (filter_ext _ (fun c' => c_company_id c' =? c_company_id c))
    by (intros c'; rewrite E; apply Z.eqb_sym).
  now rewrite (filter_key_unique c_company_id _ c Uc Hc).
Qed.

(** X17.  With the store available, [get_companies_and_vacancies_count]
    returns one row per stored company, a company without vacancies having
    the count 0, in decreasing order of count; on tables that satisfy their
    constraints the counts add up to the number of stored vacancies. *)
Theorem get_companies_and_vacancies_count_rows (db : database) :
  exists rows,
    get_companies_and_vacancies_count no_faults db = Return rows /\
    Permutation rows (counted db) /\
    List.length rows = List.length (companies db) /\
    StronglySorted count_desc rows /\
    (forall c, In c (companies db) ->
               ~ In (c_company_id c) (map v_company_id (vacancies db)) ->
               In (c_name c, 0) rows) /\
    (well_formed db ->
     sum_Z (map snd rows) = Z.of_nat (List.length (vacancies db))).
Proof.
  exists (order_by_count_desc (counted db)).
  pose proof (order_by_count_desc_perm (counted db)) as P.
  split; [ reflexivity | split; [ exact P | split; [ | split; [ | split ] ] ] ].
  - rewrite (Permutation_length P). unfold counted. apply length_map.
  - apply order_by_count_desc_sorted.
  - intros c Hc Hn. apply (Permutation_in _ (Permutation_sym P)).
    unfold counted. apply in_map_iff. exists c. split; [ | exact Hc ].
    unfold count_for.
    rewrite (filter_key_absent v_company_id _ _ Hn). reflexivity.
  - intros W. rewrite <- (counts_add_up db W).
    apply sum_Z_perm. now apply Permutation_map.
Qed.

Lemma map_result_all_return {A B : Type} (f : A -> result B) (l : list A)
    (bs : list B) :
  map_result f l = Return bs ->
  forall a, In a l -> exists b, f a = Return b.
Proof.
  revert bs. induction l as [ | x l IH]; intros bs H a Ha; [ contradiction | ].
  cbn [map_result] in H.
  destruct (f x) as [b | e] eqn:Ex; cbn [bind] in H; [ | discriminate H ].
  destruct (map_result f l) as [bs' | e]; cbn [bind] in H; [ | discriminate H ].
  destruct Ha as [<- | Ha]; [ eauto | exact (IH bs' eq_refl a Ha) ].
Qed.

Lemma midpoint_overflow (v : vacancy_row) :
  ~ fits_int4 v -> midpoint v = Raise PgError /\ has_salary v = true.
Proof.
  unfold fits_int4, midpoint, int4_add, has_salary. intros H. split.
  - destruct (Z.leb_spec int4_min
                (coalesce (v_salary_from v) 0 + coalesce (v_salary_to v) 0)),
      (Z.leb_spec (coalesce (v_salary_from v) 0 + coalesce (v_salary_to v) 0)
         int4_max); try reflexivity.
    contradiction H. lia.
  - destruct (v_salary_from v), (v_salary_to v); try reflexivity.
    contradiction H. unfold int4_min, int4_max. cbn. lia.
Qed.

Lemma avg_salary_query_overflow (db : database) (v : vacancy_row) :
  In v (vacancies db) -> ~ fits_int4 v ->
  avg_salary_query db = Raise PgError.
Proof.
  intros Hv Hf. destruct (midpoint_overflow v Hf) as [M S].
  destruct (avg_salary_query db) as [r | e] eqn:E.
  - unfold avg_salary_query in E.
    destruct (map_result midpoint _) as [ms | e] eqn:Em; [ | discriminate E ].
    destruct (map_result_all_return _ _ _ Em v) as [m Hm];
      [ now apply filter_In | congruence ].
  - now rewrite (avg_salary_query_raises db e E).
Qed.

(** X18.  A stored vacancy whose two bounds add up beyond the 32-bit range
    makes the salary queries fail in the store: with the store available,
    [get_avg_salary] returns the absence value although salary data exist,
    and [get_vacancies_with_higher_salary] returns the empty list. *)
Theorem salary_queries_overflow (db : database) (v : vacancy_row) :
  In v (vacancies db) -> ~ fits_int4 v ->
  get_avg_salary no_faults db = Return None /\
  get_vacancies_with_higher_salary no_faults db = Return [].
Proof.
  intros Hv Hf. pose proof (avg_salary_query_overflow db v Hv Hf) as E.
  split.
  - now rewrite get_avg_salary_no_faults, E.
  - unfold get_vacancies_with_higher_salary, select_rows, run_query,
      higher_salary_query.
    cbn. rewrite E. reflexivity.
Qed.

Lemma sum_Z_bounds (l : list Z) (lo hi : Z) :
  (forall m, In m l -> lo <= m <= hi) ->
  lo * Z.of_nat (List.length l) <= sum_Z l <= hi * Z.of_nat (List.length l).
Proof.
  unfold sum_Z.
  induction l as [ | x l IH]; intros H; cbn [fold_right List.length];
    [ lia | ].
  specialize (IH (fun m Hm => H m (or_intror Hm))).
  pose proof (H x (or_introl eq_refl)). lia.
Qed.

(** The number that a [NUMERIC] value denotes, against integers. *)
Lemma unit_positive (a : numeric) : 0 < 10 ^ Z.of_nat (dscale a).
Proof. apply Z.pow_pos_nonneg; lia. Qed.

Lemma numeric_value_le_int (a : numeric) (m : Z) :
  unscaled a <= m * 10 ^ Z.of_nat (dscale a) ->
  (numeric_value a <= inject_Z m)%Q.
Proof.
  intros H. unfold numeric_value. pose proof (unit_positive a) as U.
  apply Qle_shift_div_r; [ now rewrite <- (Zlt_Qlt 0) | ].
  rewrite <- inject_Z_mult. now rewrite <- Zle_Qle.
Qed.

Lemma numeric_value_ge_int (a : numeric) (m : Z) :
  m * 10 ^ Z.of_nat (dscale a) <= unscaled a ->
  (inject_Z m <= numeric_value a)%Q.
Proof.
  intros H. unfold numeric_value. pose proof (unit_positive a) as U.
  apply Qle_shift_div_l; [ now rewrite <- (Zlt_Qlt 0) | ].
  rewrite <- inject_Z_mult. now rewrite <- Zle_Qle.
Qed.

Lemma numeric_value_lt_int (a : numeric) (m : Z) :
  unscaled a < m * 10 ^ Z.of_nat (dscale a) ->
  (numeric_value a < inject_Z m)%Q.
Proof.
  intros H. unfold numeric_value. pose proof (unit_positive a) as U.
  apply Qlt_shift_div_r; [ now rewrite <- (Zlt_Qlt 0) | ].
  rewrite <- inject_Z_mult. now rewrite <- Zlt_Qlt.
Qed.

Lemma avg_bounds (l : list Z) (a : numeric) (lo hi : Z) :
  avg l = Some a ->
  (forall m, In m l -> lo <= m <= hi) ->
  lo * 10 ^ Z.of_nat (dscale a) <= unscaled a
  <= hi * 10 ^ Z.of_nat (dscale a).
Proof.
  intros A B. pose proof (sum_Z_bounds l lo hi B) as S.
  destruct l as [ | x l]; [ discriminate A | ]. injection A as <-.
  exact (numeric_div_bounds (sum_Z (x :: l))
           (Z.of_nat (List.length (x :: l))) lo hi
           ltac:(cbn [List.length]; lia) S).
Qed.

Lemma get_avg_salary_bounds (fl : faults) (db : database) (a : numeric)
    (lo hi : Z) :
  get_avg_salary fl db = Return (Some a) ->
  (forall v, In v (vacancies db) -> has_salary v = true ->
             lo <= integer_midpoint v <= hi) ->
  lo * 10 ^ Z.of_nat (dscale a) <= unscaled a
  <= hi * 10 ^ Z.of_nat (dscale a).
Proof.
  intros H B. apply get_avg_salary_some in H. unfold avg_salary_query in H.
  destruct (map_result midpoint _) as [ms | e] eqn:E; cbn [bind] in H;
    [ | discriminate H ].
  apply map_result_midpoint_return in E. subst ms. injection H as H.
  apply (avg_bounds _ _ _ _ H).
  intros m Hm. apply in_map_iff in Hm. destruct Hm as (v & <- & Hv).
  apply filter_In in Hv. now apply B.
Qed.

(** X19.  Whenever [get_avg_salary] returns a number, it lies between the
    smallest and the largest integer midpoint of the vacancies that have a
    salary bound. *)
Theorem get_avg_salary_within_midpoints (fl : faults) (db : database)
    (a : numeric) (lo hi : Z) :
  get_avg_salary fl db = Return (Some a) ->
  (forall v, In v (vacancies db) -> has_salary v = true ->
             lo <= integer_midpoint v <= hi) ->
  (inject_Z lo <= numeric_value a <= inject_Z hi)%Q.
Proof.
  intros H B. destruct (get_avg_salary_bounds fl db a lo hi H B) as [L U].
  split; [ now apply numeric_value_ge_int | now apply numeric_value_le_int ].
Qed.

Lemma get_avg_salary_same_vacancies (fl : faults) (db db' : database) :
  filter has_salary (vacancies db') = filter has_salary (vacancies db) ->
  get_avg_salary fl db' = get_avg_salary fl db.
Proof.
  intros E. unfold get_avg_salary, run_query, avg_salary_query.
  now rewrite E.
Qed.

(** X20.  The average salary is not affected by writes that bring no salary
    data: after [insert_company], and after [insert_vacancy] for a vacancy
    without salary bounds, whatever these calls did, [get_avg_salary] gives
    what it gave before. *)
Theorem get_avg_salary_after_writes (fl fl' : faults) (db : database) :
  (forall company_id name site_url open_vacancies,
      get_avg_salary fl'
        (snd (insert_company fl db company_id name site_url open_vacancies))
      = get_avg_salary fl' db) /\
  (forall vacancy,
      v_salary_from vacancy = None -> v_salary_to vacancy = None ->
      get_avg_salary fl' (snd (store_vacancy timestamp_in fl db vacancy)) =
      get_avg_salary fl' db).
Proof.
  split.
  - intros cid n su ov. apply get_avg_salary_same_vacancies.
    now rewrite insert_company_vacancies.
  - intros v Hf Ht. apply get_avg_salary_same_vacancies.
    destruct (store_vacancy_effect fl db v)
      as (_ & [-> | (stored & [_ T] & -> & _)]); [ reflexivity | ].
    destruct (vacancy_columns_returns _ _ _ T) as (_ & _ & Sf & St).
    rewrite filter_app. cbn. unfold has_salary at 2.
    rewrite Sf, St, Hf, Ht. apply app_nil_r.
Qed.

Lemma insert_sorted_perm {A : Type} (le : A -> A -> bool) (x : A)
    (l : list A) :
  Permutation (insert_sorted le x l) (x :: l).
Proof.
  induction l as [ | y l IH]; cbn; [ reflexivity | ].
  destruct (le x y); [ reflexivity | ].
  rewrite IH. apply perm_swap.
Qed.

Lemma sort_by_perm {A : Type} (le : A -> A -> bool) (l : list A) :
  Permutation (sort_by le l) l.
Proof.
  unfold sort_by. induction l as [ | x l IH]; cbn; [ reflexivity | ].
  rewrite insert_sorted_perm. now constructor.
Qed.

Lemma select_rows_no_faults {A : Type} (db : database)
    (q : database -> result (list A)) :
  select_rows no_faults db (Return tt) q =
  match q db with
  | Return rows => Return rows
  | Raise e => if is_pg_error e then Return [] else Raise e
  end.
Proof.
  unfold select_rows, run_query. cbn.
  destruct (q db) as [rows | e]; reflexivity.
Qed.

Lemma select_rows_returns {A : Type} (fl : faults) (db : database)
    (params : result unit) (q : database -> result (list A))
    (rows : list A) :
  select_rows fl db params q = Return rows ->
  rows = [] \/ q db = Return rows.
Proof.
  unfold select_rows, get_connection, run_query, finally, try_except,
    raise_if, bind.
  destruct fl, params as [[] | e]. all: intros H.
  all: split_all; try discriminate H; injection H as <-; auto.
Qed.

(** X21.  With the store available [clear_tables] succeeds, and a
    successful [clear_tables] leaves both tables empty: the count query then
    returns no row, the average salary is absent, no vacancy is listed, and
    no vacancy is stored until its company is stored again, a vacancy whose
    texts the driver takes being refused with [False]. *)
Theorem clear_tables_empties :
  (forall db, clear_tables no_faults db = (Return true, mkDatabase [] [])) /\
  (forall fl db db',
      clear_tables fl db = (Return true, db') ->
      db' = mkDatabase [] [] /\
      get_companies_and_vacancies_count no_faults db' = Return [] /\
      get_avg_salary no_faults db' = Return None /\
      (forall name_le, get_all_vacancies name_le no_faults db' = Return []) /\
      (forall vacancy,
          snd (store_vacancy timestamp_in no_faults db' vacancy) = db' /\
          (without_nul vacancy ->
           store_vacancy timestamp_in no_faults db' vacancy =
           (Return false, db')))).
Proof.
  split; [ reflexivity | ].
  intros fl db db' H. apply insert_frame_true in H. destruct H as [_ H].
  injection H as <-.
  split; [ reflexivity | split; [ reflexivity | split; [ reflexivity | ] ] ].
  split; [ reflexivity | ].
  intros v. split.
  - destruct (store_vacancy_effect no_faults (mkDatabase [] []) v)
      as (Ec & [Ev | (stored & _ & _ & _ & C)]); [ | discriminate C ].
    destruct (snd _) as [cs vs]. cbn in Ec, Ev. now subst.
  - intros N. apply store_vacancy_refused; try reflexivity; try exact N.
    + unfold faults_are_pg, pg_or_none. cbn. tauto.
    + split; reflexivity.
Qed.

Lemma in_joined (db : database) (v : vacancy_row) (c : company_row) :
  In (v, c) (joined db) <->
  In v (vacancies db) /\ In c (companies db) /\
  c_company_id c = v_company_id v.
Proof.
  unfold joined. rewrite in_flat_map. split.
  - intros (v' & Hv & H). apply in_map_iff in H.
    destruct H as (c' & [= <- <-] & Hc). apply filter_In in Hc.
    destruct Hc as [Hc E]. apply Z.eqb_eq in E. auto.
  - intros (Hv & Hc & E). exists v. split; [ exact Hv | ].
    apply in_map. apply filter_In. split; [ exact Hc | now apply Z.eqb_eq ].
Qed.

(** X22.  A vacancy stored by a successful [insert_vacancy] under a new
    identifier is listed by [get_all_vacancies], with the name of its
    company and its own name, salary bounds, currency and url as the columns
    hold them. *)
Theorem stored_vacancy_is_listed (name_le : string -> string -> bool)
    (fl : faults) (db db' : database) (vacancy : vacancy_row) :
  has_vacancy (v_vacancy_id vacancy) db = false ->
  store_vacancy timestamp_in fl db vacancy = (Return true, db') ->
  exists stored c rows,
    vacancy_taken timestamp_in vacancy stored /\
    In c (companies db') /\
    c_company_id c = v_company_id vacancy /\
    get_all_vacancies name_le no_faults db' = Return rows /\
    In (mkListing (c_name c) (v_name stored) (v_salary_from vacancy)
          (v_salary_to vacancy) (v_currency stored) (v_url stored))
       rows.
Proof.
  intros K H. rewrite store_vacancy_frame in H.
  apply insert_frame_true in H. destruct H as [P H].
  destruct (insert_vacancy_row_returns _ _ _ _ H)
    as (stored & T & I & Ic & N).
  destruct (vacancy_columns_returns _ _ _ T) as (_ & _ & Sf & St).
  unfold on_conflict_nothing in N. rewrite I, K, Ic in N.
  destruct (has_company (v_company_id vacancy) db) eqn:C; [ | discriminate N ].
  injection N as <-.
  unfold has_company in C. apply existsb_key in C. apply in_map_iff in C.
  destruct C as (c & E & Hc).
  exists stored, c. eexists.
  split; [ split; assumption | ].
  split; [ exact Hc | split; [ exact E | ] ].
  split; [ reflexivity | ].
  apply (Permutation_in _ (Permutation_sym (sort_by_perm _ _))).
  rewrite <- Sf, <- St.
  change (mkListing _ _ _ _ _ _) with (listing_of (stored, c)).
  apply in_map. apply in_joined. cbn.
  split; [ apply in_app_iff; right; now left | ].
  split; [ exact Hc | congruence ].
Qed.

Lemma flat_map_singletons {A B : Type} (f : A -> list B) (l : list A) :
  (forall x, In x l -> List.length (f x) = 1%nat) ->
  List.length (flat_map f l) = List.length l.
Proof.
  induction l as [ | x l IH]; intros H; cbn; [ reflexivity | ].
  rewrite length_app, (H x (or_introl eq_refl)),
    IH by (intros y Hy; apply H; now right).
  reflexivity.
Qed.

Lemma joined_length (db : database) :
  well_formed db ->
  List.length (joined db) = List.length (vacancies db).
Proof.
  intros [[Uc _] R]. unfold joined.
  apply flat_map_singletons. intros v Hv. rewrite length_map.
  specialize (R v Hv). unfold has_company in R.
  apply existsb_key in R. apply in_map_iff in R. destruct R as (c & E & Hc).
  rewrite <- E. now rewrite (filter_key_unique c_company_id _ c Uc Hc).
Qed.

(** X23.  On tables that satisfy their constraints, [get_all_vacancies]
    with the store available lists every stored vacancy exactly once: there
    are as many rows as stored vacancies, and each vacancy has the row made
    of the name of its company and of its own attributes. *)
Theorem get_all_vacancies_lists_each_once (name_le : string -> string -> bool)
    (db : database) :
  well_formed db ->
  exists rows,
    get_all_vacancies name_le no_faults db = Return rows /\
    Permutation rows (map listing_of (joined db)) /\
    List.length rows = List.length (vacancies db) /\
    (forall v, In v (vacancies db) ->
               exists c, In c (companies db) /\
                         c_company_id c = v_company_id v /\
                         In (listing_of (v, c)) rows).
Proof.
  intros W. pose proof (joined_length db W) as J. destruct W as [[Uc _] R].
  eexists. split; [ reflexivity | ].
  pose proof (sort_by_perm (by_names name_le) (map listing_of (joined db)))
    as P.
  split; [ exact P | split ].
  - now rewrite (Permutation_length P), length_map.
  - intros v Hv. specialize (R v Hv). unfold has_company in R.
    apply existsb_key in R. apply in_map_iff in R. destruct R as (c & E & Hc).
    exists c. split; [ exact Hc | split; [ exact E | ] ].
    apply (Permutation_in _ (Permutation_sym P)).
    apply in_map. apply in_joined. auto.
Qed.

Lemma scored_rows (l : list (vacancy_row * company_row))
    (sc : list (Z * (vacancy_row * company_row))) :
  map_result (fun vc => m <- midpoint (fst vc) ;; Return (m, vc)) l =
    Return sc ->
  forall mvc, In mvc sc ->
              In (snd mvc) l /\ fst mvc = integer_midpoint (fst (snd mvc)).
Proof.
  revert sc. induction l as [ | vc l IH]; intros sc H mvc Hm; cbn in H.
  - injection H as <-. contradiction.
  - destruct (midpoint (fst vc)) as [m | e] eqn:Em; cbn [bind] in H;
      [ | discriminate H ].
    destruct (map_result _ l) as [sc' | e] eqn:El; cbn [bind] in H;
      [ | discriminate H ].
    injection H as <-. destruct Hm as [<- | Hm].
    + cbn. split; [ now left | exact (midpoint_return _ _ Em) ].
    + destruct (IH sc' eq_refl mvc Hm) as [Hin Hf].
      split; [ now right | exact Hf ].
Qed.

Lemma above_lt (m : Z) (average : option numeric) :
  above m average = true ->
  exists a, average = Some a /\ unscaled a < m * 10 ^ Z.of_nat (dscale a).
Proof.
  unfold above. destruct average as [a | ]; [ | discriminate ].
  intros H. apply Z.ltb_lt in H. eauto.
Qed.

Lemma higher_salary_row (fl : faults) (db : database) (rows : list listing)
    (row : listing) :
  get_vacancies_with_higher_salary fl db = Return rows ->
  In row rows ->
  exists v c a,
    In (v, c) (joined db) /\ row = listing_of (v, c) /\
    has_salary v = true /\
    get_avg_salary no_faults db = Return (Some a) /\
    unscaled a < integer_midpoint v * 10 ^ Z.of_nat (dscale a).
Proof.
  intros H Hr. unfold get_vacancies_with_higher_salary in H.
  destruct (select_rows_returns _ _ _ _ _ H) as [-> | Q]; [ contradiction | ].
  unfold higher_salary_query in Q.
  destruct (avg_salary_query db) as [average | e] eqn:Ea; cbn [bind] in Q;
    [ | discriminate Q ].
  destruct (map_result _ (joined db)) as [sc | e] eqn:Es; cbn [bind] in Q;
    [ | discriminate Q ].
  injection Q as <-. apply in_map_iff in Hr. destruct Hr as (mvc & <- & Hm).
  apply (Permutation_in _ (sort_by_perm _ _)) in Hm.
  apply filter_In in Hm. destruct Hm as [Hm T].
  apply andb_true_iff in T. destruct T as [A S].
  destruct (scored_rows _ _ Es mvc Hm) as [Hj Hf].
  destruct (above_lt _ _ A) as (a & -> & L).
  destruct mvc as [m [v c]]. cbn [fst snd] in *. subst m.
  exists v, c, a. repeat split; try assumption.
  now rewrite get_avg_salary_no_faults, Ea.
Qed.

(** X24.  Every row returned by [get_vacancies_with_higher_salary] is the
    row of a stored vacancy that has a salary bound and whose integer
    midpoint is strictly above the number that [get_avg_salary] returns; so
    no row is returned when the vacancies with a salary bound all have the
    same midpoint, or when none has a bound. *)
Theorem get_vacancies_with_higher_salary_rows (fl : faults) (db : database)
    (rows : list listing) :
  get_vacancies_with_higher_salary fl db = Return rows ->
  (forall row, In row rows ->
     exists v c a,
       In v (vacancies db) /\ In c (companies db) /\
       c_company_id c = v_company_id v /\
       row = listing_of (v, c) /\ has_salary v = true /\
       get_avg_salary no_faults db = Return (Some a) /\
       (numeric_value a < inject_Z (integer_midpoint v))%Q) /\
  (forall m,
      (forall v, In v (vacancies db) -> has_salary v = true ->
                 integer_midpoint v = m) ->
      rows = []) /\
  (no_salary_data db -> rows = []).
Proof.
  intros H.
  assert (Same : forall m,
             (forall v, In v (vacancies db) -> has_salary v = true ->
                        integer_midpoint v = m) -> rows = []).
  { intros m Hm. destruct rows as [ | row rows']; [ reflexivity | ].
    exfalso.
    destruct (higher_salary_row fl db _ row H (or_introl eq_refl))
      as (v & c & a & Hj & _ & S & A & L).
    apply in_joined in Hj. destruct Hj as (Hv & _ & _).
    rewrite (Hm v Hv S) in L.
    destruct (get_avg_salary_bounds no_faults db a m m A) as [U _].
    - intros w Hw Sw. rewrite (Hm w Hw Sw). lia.
    - lia. }
  split; [ | split; [ exact Same | ] ].
  - intros row Hr.
    destruct (higher_salary_row fl db rows row H Hr)
      as (v & c & a & Hj & E & S & A & L).
    apply in_joined in Hj. destruct Hj as (Hv & Hc & Hid).
    exists v, c, a. repeat split; try assumption.
    now apply numeric_value_lt_int.
  - intros N. apply (Same 0). intros v Hv S.
    destruct (N v Hv) as [Hf Ht]. unfold has_salary in S.
    rewrite Hf, Ht in S. discriminate S.
Qed.

(** With the store available, the vacancy above the average is listed and
    the others are not: a lower bound of 250 alone counts as a midpoint of
    125, below the midpoint 150 of the range from 100 to 200. *)
Lemma get_vacancies_with_higher_salary_example :
  get_vacancies_with_higher_salary no_faults
    (mkDatabase [mkCompany 5 "Acme" None 3]
       [salaried 1 5 (Some 100) (Some 200); salaried 2 5 (Some 250) None;
        salaried 3 5 None None]) =
  Return [mkListing "Acme" "Developer" (Some 100) (Some 200) None None].
Proof. vm_compute. reflexivity. Qed.
Lemma list_ascii_of_string_app (a b : string) :
  list_ascii_of_string (a ++ b) =
  list_ascii_of_string a ++ list_ascii_of_string b.
Proof.
  induction a as [ | c a IH]; cbn; [ reflexivity | now rewrite IH ].
Qed.

Lemma like_percent_start (p s : list ascii) :
  like p s = true -> like ("%"%char :: p) s = true.
Proof.
  intros H. destruct s; cbn; now rewrite H.
Qed.

Lemma like_percent_end (s : list ascii) : like ["%"%char] s = true.
Proof.
  induction s as [ | x s IH]; [ reflexivity | ].
  cbn in *. exact IH.
Qed.

Lemma like_plain_prefix (k s : string) :
  plain k ->
  like (list_ascii_of_string k ++ "%"%char :: nil)
    (list_ascii_of_string s) = String.prefix k s.
Proof.
  unfold plain. revert s.
  induction k as [ | c k IH]; intros s P.
  - cbn [list_ascii_of_string app]. rewrite like_percent_end.
    destruct s; reflexivity.
  - cbn [list_ascii_of_string] in P. inversion P as [ | c' l (N1 & N2 & N3) P'];
      subst.
    cbn [list_ascii_of_string app like].
    apply Ascii.eqb_neq in N1, N2, N3. rewrite N1, N2, N3.
    destruct s as [ | x s]; cbn [list_ascii_of_string String.prefix];
      [ reflexivity | ].
    rewrite (IH s P').
    destruct (Ascii.eqb_spec c x) as [-> | N];
      destruct (Ascii.ascii_dec _ x); try reflexivity; congruence.
Qed.

Lemma like_contains (k s : string) :
  plain k ->
  like ("%"%char :: list_ascii_of_string k ++ "%"%char :: nil)
    (list_ascii_of_string s) = contains k s.
Proof.
  intros P. induction s as [ | x s IH].
  - cbn [list_ascii_of_string like Ascii.eqb Bool.eqb contains].
    cbn [list_ascii_of_string] in *.
    change (@nil ascii) with (list_ascii_of_string "") at 2.
    rewrite (like_plain_prefix k "" P). now rewrite !orb_false_r.
  - cbn [like Ascii.eqb Bool.eqb] in IH |- *.
    cbn [list_ascii_of_string contains].
    change (x :: list_ascii_of_string s)
      with (list_ascii_of_string (String x s)) at 1.
    rewrite (like_plain_prefix k (String x s) P). f_equal. exact IH.
Qed.

Lemma has_nul_pattern (keyword : string) :
  has_nul ("%" ++ keyword ++ "%") = has_nul keyword.
Proof.
  unfold has_nul. cbn [String.append list_ascii_of_string existsb].
  rewrite list_ascii_of_string_app, existsb_app. cbn.
  now rewrite orb_false_r.
Qed.

Lemma by_names_order (name_le : string -> string -> bool) (a b : listing) :
  total_preorder name_le ->
  (by_names name_le a b = true -> in_name_order name_le a b) /\
  (by_names name_le a b = false -> in_name_order name_le b a).
Proof.
  intros [T _]. unfold by_names, in_name_order.
  destruct (name_le (l_company_name b) (l_company_name a)) eqn:Eba,
    (name_le (l_company_name a) (l_company_name b)) eqn:Eab; cbn.
  - split; intros H.
    + split; [ reflexivity | intros _; exact H ].
    + split; [ reflexivity | intros _ ].
      destruct (T (l_vacancy_name a) (l_vacancy_name b)); congruence.
  - split; intros H; [ discriminate H | ].
    split; [ reflexivity | discriminate ].
  - split; intros H; [ | discriminate H ].
    split; [ reflexivity | discriminate ].
  - destruct (T (l_company_name a) (l_company_name b)); congruence.
Qed.

Lemma in_name_order_trans (name_le : string -> string -> bool)
    (a b c : listing) :
  total_preorder name_le ->
  in_name_order name_le a b -> in_name_order name_le b c ->
  in_name_order name_le a c.
Proof.
  intros [_ Tr] [Hab Vab] [Hbc Vbc]. split.
  - exact (Tr _ _ _ Hab Hbc).
  - intros Hca.
    apply (Tr _ (l_vacancy_name b)).
    + apply Vab. exact (Tr _ _ _ Hbc Hca).
    + apply Vbc. exact (Tr _ _ _ Hca Hab).
Qed.

Lemma insert_sorted_in_name_order (name_le : string -> string -> bool)
    (x : listing) (l : list listing) :
  total_preorder name_le ->
  StronglySorted (in_name_order name_le) l ->
  StronglySorted (in_name_order name_le)
    (insert_sorted (by_names name_le) x l).
Proof.
  intros T. induction 1 as [ | y l Hl IH Hy]; cbn.
  - constructor; constructor.
  - destruct (by_names name_le x y) eqn:E.
    + apply (proj1 (by_names_order name_le x y T)) in E.
      constructor; [ now constructor | ].
      constructor; [ exact E | ].
      eapply Forall_impl; [ | exact Hy ].
      intros z Hz. exact (in_name_order_trans name_le x y z T E Hz).
    + apply (proj2 (by_names_order name_le x y T)) in E.
      constructor; [ exact IH | ].
      eapply Permutation_Forall;
        [ symmetry; apply insert_sorted_perm | ].
      constructor; assumption.
Qed.

Lemma sort_by_names_sorted (name_le : string -> string -> bool)
    (l : list listing) :
  total_preorder name_le ->
  StronglySorted (in_name_order name_le) (sort_by (by_names name_le) l).
Proof.
  intros T. unfold sort_by.
  induction l as [ | x l IH]; cbn; [ constructor | ].
  now apply insert_sorted_in_name_order.
Qed.

(** X25.  For a keyword without NUL character and without percent sign,
    underscore and backslash, which a lower-casing that works character by
    character leaves so, the search of the store selects a vacancy exactly
    when the lower-cased keyword occurs in its lower-cased name, the test
    of the in-memory [filter_by_keyword]: with the store available it
    returns the rows of these vacancies, each once, and under a collation
    that is a total preorder the rows are ordered by company name, then by
    vacancy name. *)
Theorem keyword_search_on_plain_keywords
    (name_le : string -> string -> bool) (lower : string -> string)
    (keyword : string) :
  lower ("%" ++ keyword ++ "%")%string = ("%" ++ lower keyword ++ "%")%string ->
  plain (lower keyword) ->
  has_nul keyword = false ->
  (forall text,
      ilike lower text ("%" ++ keyword ++ "%")%string =
      contains (lower keyword) (lower text)) /\
  (forall db,
      exists rows,
        get_vacancies_with_keyword name_le lower no_faults db keyword =
          Return rows /\
        Permutation rows
          (map listing_of
             (filter (fun vc => contains (lower keyword)
                                  (lower (v_name (fst vc))))
                (joined db))) /\
        (total_preorder name_le ->
         StronglySorted (in_name_order name_le) rows)).
Proof.
  intros L P N.
  assert (T : forall text,
             ilike lower text ("%" ++ keyword ++ "%")%string =
             contains (lower keyword) (lower text)).
  { intros text. unfold ilike. rewrite L.
    cbn [String.append list_ascii_of_string].
    rewrite list_ascii_of_string_app. cbn [list_ascii_of_string].
    now apply like_contains. }
  split; [ exact T | ].
  intros db. unfold get_vacancies_with_keyword, adapt_text.
  rewrite has_nul_pattern, N, select_rows_no_faults. unfold keyword_query.
  eexists. split; [ reflexivity | ].
  rewrite (filter_ext _ (fun vc => contains (lower keyword)
                                     (lower (v_name (fst vc)))))
    by (intros vc; apply T).
  split; [ apply sort_by_perm | apply sort_by_names_sorted ].
Qed.

(** X26.  The keyword goes into the pattern as it is, so its percent signs
    and underscores are wildcards of the store: the keyword made of a
    percent sign selects every vacancy, as [get_all_vacancies] does, and the
    keyword made of an underscore selects the vacancies whose name is not
    empty. *)
Theorem keyword_search_wildcards (name_le : string -> string -> bool)
    (lower : string -> string) :
  (lower "%%%" = "%%%" ->
   forall db,
     get_vacancies_with_keyword name_le lower no_faults db "%" =
     get_all_vacancies name_le no_faults db) /\
  (lower "%_%" = "%_%" ->
   forall text, ilike lower text "%_%" = true <-> lower text <> "").
Proof.
  split.
  - intros L db. unfold get_vacancies_with_keyword, get_all_vacancies.
    change (adapt_text ("%" ++ "%" ++ "%")) with (@Return unit tt).
    rewrite !select_rows_no_faults.
    unfold keyword_query, all_vacancies_query.
    rewrite filter_all; [ reflexivity | ].
    apply Forall_forall. intros vc _. unfold ilike.
    cbn [String.append]. rewrite L. cbn [list_ascii_of_string].
    do 2 apply like_percent_start. apply like_percent_end.
  - intros L text. unfold ilike. rewrite L. cbn [list_ascii_of_string].
    destruct (lower text) as [ | x t]; cbn [list_ascii_of_string].
    + split; [ discriminate | congruence ].
    + split; [ discriminate | intros _ ].
      apply like_percent_start. cbn [like Ascii.eqb Bool.eqb].
      apply like_percent_end.
Qed.

Lemma store_vacancy_new (db : database) (v : vacancy_row) :
  vacancy_fits timestamp_in v ->
  has_vacancy (v_vacancy_id v) db = false ->
  has_company (v_company_id v) db = true ->
  store_vacancy timestamp_in no_faults db v =
  (Return true, mkDatabase (companies db) (vacancies db ++ [v])).
Proof.
  intros F K C.
  rewrite (store_vacancy_taken timestamp_in db v v
             (vacancy_fits_taken timestamp_in v F)).
  unfold on_conflict_nothing. now rewrite K, C.
Qed.

Lemma add_vacancies_new (batch : list vacancy_row) :
  forall db call added_count,
    Forall (vacancy_fits timestamp_in) batch ->
    NoDup (map v_vacancy_id batch) ->
    (forall v, In v batch ->
               has_vacancy (v_vacancy_id v) db = false /\
               has_company (v_company_id v) db = true) ->
    add_vacancies timestamp_in (fun _ => no_faults) call db batch
      added_count =
    (Return (added_count + Z.of_nat (List.length batch)),
     mkDatabase (companies db) (vacancies db ++ batch)).
Proof.
  induction batch as [ | v rest IH]; intros db call n F D H.
  - cbn. rewrite Z.add_0_r, app_nil_r. now destruct db.
  - destruct (H v (or_introl eq_refl)) as [K C].
    inversion F as [ | v' rest' Fv F']; subst.
    cbn [add_vacancies]. rewrite (store_vacancy_new db v Fv K C).
    inversion D as [ | k ks Nk D']; subst.
    rewrite IH.
    + cbn [companies vacancies List.length]. rewrite <- app_assoc.
      cbn [app]. f_equal. f_equal. lia.
    + exact F'.
    + exact D'.
    + intros w Hw. destruct (H w (or_intror Hw)) as [Kw Cw].
      split; [ | exact Cw ].
      unfold has_vacancy in *. cbn [vacancies].
      rewrite existsb_app, Kw. cbn.
      destruct (Z.eqb_spec (v_vacancy_id v) (v_vacancy_id w)) as [E | _];
        [ | reflexivity ].
      contradiction Nk. rewrite E. now apply in_map.
Qed.

(** X27.  With the store available, the loop of the loader stores a batch
    of vacancies entirely when their values fit the columns, their
    identifiers are new and pairwise distinct and their companies are
    stored: the rows are appended in the order of the batch and the count of
    added vacancies is the size of the batch. *)
Theorem add_vacancies_stores_new_batch (db : database)
    (batch : list vacancy_row) :
  Forall (vacancy_fits timestamp_in) batch ->
  NoDup (map v_vacancy_id batch) ->
  (forall v, In v batch ->
             has_vacancy (v_vacancy_id v) db = false /\
             has_company (v_company_id v) db = true) ->
  add_vacancies timestamp_in (fun _ => no_faults) 0 db batch 0 =
  (Return (Z.of_nat (List.length batch)),
   mkDatabase (companies db) (vacancies db ++ batch)).
Proof.
  intros F D H. now rewrite add_vacancies_new.
Qed.

Lemma add_vacancies_bounds (store : nat -> faults)
    (batch : list vacancy_row) :
  forall call db added_count n db',
    add_vacancies timestamp_in store call db batch added_count =
      (Return n, db') ->
    added_count <= n <= added_count + Z.of_nat (List.length batch) /\
    companies db' = companies db /\
    (List.length (vacancies db) <= List.length (vacancies db')
     <= List.length (vacancies db) + List.length batch)%nat.
Proof.
  induction batch as [ | v rest IH]; intros call db c n db' H.
  - cbn in H. injection H as <- <-. cbn. repeat split; lia.
  - cbn [add_vacancies] in H.
    destruct (store_vacancy_effect (store call) db v) as (Ec & Ev).
    destruct (store_vacancy timestamp_in (store call) db v)
      as [[ok | e] db1]; [ | discriminate H ].
    cbn [snd] in Ec, Ev.
    destruct (IH _ _ _ _ _ H) as (Bn & Bc & Bv).
    assert (L : (List.length (vacancies db) <= List.length (vacancies db1)
                 <= S (List.length (vacancies db)))%nat).
    { destruct Ev as [-> | (stored & _ & -> & _)]; [ lia | ].
      rewrite length_app. cbn. lia. }
    cbn [List.length]. repeat split; try (destruct ok; lia); try lia.
    congruence.
Qed.

Lemma add_vacancies_app (store : nat -> faults) (pre : list vacancy_row) :
  forall call db added_count n db1 rest,
    add_vacancies timestamp_in store call db pre added_count =
      (Return n, db1) ->
    add_vacancies timestamp_in store call db (pre ++ rest) added_count =
    add_vacancies timestamp_in store (call + List.length pre) db1 rest n.
Proof.
  induction pre as [ | v pre IH]; intros call db c n db1 rest H.
  - cbn in H. injection H as <- <-. cbn. now rewrite Nat.add_0_r.
  - cbn [add_vacancies app] in *.
    destruct (store_vacancy timestamp_in (store call) db v)
      as [[ok | e] db']; [ | discriminate H ].
    rewrite (IH _ _ _ _ _ rest H). cbn [List.length]. f_equal. lia.
Qed.

(** X28.  The count kept by the loop of the loader goes up by one at most
    per vacancy, and the loop never touches the companies nor removes a
    vacancy.  The loop has no handler: an exception that leaves
    [insert_vacancy] for one vacancy leaves the loop, the vacancies that
    follow are not processed and those stored before stay stored. *)
Theorem add_vacancies_counts_and_aborts (store : nat -> faults) :
  (forall batch call db added_count n db',
      add_vacancies timestamp_in store call db batch added_count =
        (Return n, db') ->
      added_count <= n <= added_count + Z.of_nat (List.length batch) /\
      companies db' = companies db /\
      (List.length (vacancies db) <= List.length (vacancies db')
       <= List.length (vacancies db) + List.length batch)%nat) /\
  (forall pre vacancy rest call db added_count n db1 e db2,
      add_vacancies timestamp_in store call db pre added_count =
        (Return n, db1) ->
      store_vacancy timestamp_in (store (call + List.length pre)%nat) db1
        vacancy = (Raise e, db2) ->
      add_vacancies timestamp_in store call db (pre ++ vacancy :: rest)
        added_count =
      (Raise e, db2)).
Proof.
  split.
  - intros batch. apply add_vacancies_bounds.
  - intros pre v rest call db c n db1 e db2 H R.
    rewrite (add_vacancies_app store pre _ _ _ _ _ (v :: rest) H).
    cbn [add_vacancies]. now rewrite R.
Qed.

(** X29.  In the listings a salary bound of 0 is shown like an absent
    bound: the salary is "not specified" exactly when each bound is absent
    or 0, and a range whose lower bound is 0 is shown as an upper bound
    alone, one whose upper bound is 0 as a lower bound alone. *)
Theorem salary_str_zero_is_absent (salary_from salary_to : option Z)
    (currency : option string) :
  (salary_str salary_from salary_to currency = NotSpecified <->
   (salary_from = None \/ salary_from = Some 0) /\
   (salary_to = None \/ salary_to = Some 0)) /\
  (forall hi, hi <> 0 ->
              salary_str (Some 0) (Some hi) currency =
              AtMost (Some hi) currency) /\
  (forall lo, lo <> 0 ->
              salary_str (Some lo) (Some 0) currency =
              AtLeast (Some lo) currency) /\
  (forall lo hi, lo <> 0 -> hi <> 0 ->
                 salary_str (Some lo) (Some hi) currency =
                 Between (Some lo) (Some hi) currency).
Proof.
  unfold salary_str, truthy. split; [ | repeat split ].
  - destruct salary_from as [f | ], salary_to as [t | ]; cbn;
      try destruct (Z.eqb_spec f 0); try destruct (Z.eqb_spec t 0); cbn;
      subst; split; intros H; try discriminate H; auto;
      destruct H as [[H | H] [H' | H']]; congruence.
  - intros hi H. apply Z.eqb_neq in H. cbn. now rewrite H.
  - intros lo H. apply Z.eqb_neq in H. cbn. now rewrite H.
  - intros lo hi H H'. apply Z.eqb_neq in H, H'. cbn. now rewrite H, H'.
Qed.

(** X30.  [display_all_vacancies] prints its "no data" message both when no
    vacancy is stored and when the query fails in the store, a failure the
    user cannot tell from an empty table; on tables that satisfy their
    constraints and hold vacancies, with the store available, it prints one
    card per stored vacancy. *)
Theorem display_all_vacancies_no_data (name_le : string -> string -> bool)
    (db : database) :
  (forall fl,
      faults_are_pg fl -> cleanup_completes fl -> query_interrupted fl ->
      display_all_vacancies name_le fl db = Return None) /\
  (vacancies db = [] ->
   display_all_vacancies name_le no_faults db = Return None) /\
  (well_formed db -> vacancies db <> [] ->
   exists cards,
     display_all_vacancies name_le no_faults db = Return (Some cards) /\
     List.length cards = List.length (vacancies db)).
Proof.
  unfold display_all_vacancies, get_all_vacancies. split; [ | split ].
  - intros fl P C I.
    destruct (select_rows_absorbs fl db (all_vacancies_query name_le) P C)
      as (rows & H & E); [ discriminate | ].
    rewrite H, E by now left. reflexivity.
  - intros E. rewrite select_rows_no_faults.
    unfold all_vacancies_query, joined. rewrite E. reflexivity.
  - intros W N. rewrite select_rows_no_faults. unfold all_vacancies_query.
    cbn [bind].
    pose proof (sort_by_perm (by_names name_le) (map listing_of (joined db)))
      as P.
    pose proof (Permutation_length P) as L.
    rewrite length_map, (joined_length db W) in L.
    destruct (sort_by _ _) as [ | row rows].
    + destruct (vacancies db); [ congruence | discriminate L ].
    + eexists. split; [ reflexivity | ]. now rewrite length_map.
Qed.

End StoreMore.

Section StoreMoreExamples.

Import DBManager Main Spec Props.

Lemma writes_keep_tables_well_formed_witness :
  well_formed
    (snd (store_vacancy iso_timestamp connection_lost
            (mkDatabase [mkCompany 5 "Acme" None 3]
               [salaried 11 5 (Some 100) None])
            (salaried 12 5 None None))).
Proof.
  assert (W : well_formed
                (mkDatabase [mkCompany 5 "Acme" None 3]
                   [salaried 11 5 (Some 100) None])).
  { split.
    - split; repeat constructor; intros [].
    - intros v [<- | []]. reflexivity. }
  exact (proj1 (proj2 (writes_keep_tables_well_formed iso_timestamp
                         connection_lost _ W))
           (salaried 12 5 None None)).
Defined.

Lemma writes_are_atomic_witness :
  snd (clear_tables statement_fails one_company) = one_company /\
  insert_company close_fails one_company 6 "Bolt" None 0 =
  (Return false,
   mkDatabase [mkCompany 5 "Acme" None 3; mkCompany 6 "Bolt" None 0] []).
Proof.
  split.
  - apply (proj1 (writes_are_atomic iso_timestamp) statement_fails
             one_company).
    unfold not_committed. simpl. right. right. left. discriminate.
  - apply (proj2 (writes_are_atomic iso_timestamp) one_company 6 "Bolt" None
             0).
    + unfold company_fits, fits_integer, fits_text, int4_min, int4_max.
      cbn. repeat split; try lia. apply Nat.leb_le. reflexivity.
    + reflexivity.
Defined.

Lemma insert_company_touches_one_company_witness :
  rows_of_company 5
    (snd (insert_company no_faults one_company 6 "Bolt" None 0)) =
  rows_of_company 5 one_company.
Proof.
  apply (proj1 (proj2 (insert_company_touches_one_company no_faults
                         one_company 6 "Bolt" None 0))).
  discriminate.
Defined.

Lemma insert_vacancy_appends_or_nothing_witness :
  store_vacancy iso_timestamp no_faults one_company
    (salaried 11 77 (Some 100) None) =
  (Return false, one_company).
Proof.
  apply (proj2 (insert_vacancy_appends_or_nothing iso_timestamp)).
  - unfold faults_are_pg, pg_or_none. simpl. tauto.
  - split; reflexivity.
  - unfold without_nul. cbn. repeat split.
  - reflexivity.
  - reflexivity.
Defined.

Lemma get_companies_and_vacancies_count_rows_witness :
  exists rows,
    get_companies_and_vacancies_count no_faults
      (mkDatabase [mkCompany 6 "Bolt" None 0; mkCompany 5 "Acme" None 3]
         [salaried 1 5 None None; salaried 2 5 None None]) = Return rows /\
    sum_Z (map snd rows) = 2.
Proof.
  destruct (get_companies_and_vacancies_count_rows
              (mkDatabase [mkCompany 6 "Bolt" None 0; mkCompany 5 "Acme" None 3]
                 [salaried 1 5 None None; salaried 2 5 None None]))
    as (rows & H & _ & _ & _ & _ & S).
  exists rows. split; [ exact H | ]. apply S.
  split.
  - split; repeat constructor; simpl; intuition discriminate.
  - intros v [<- | [<- | []]]; reflexivity.
Defined.

Lemma salary_queries_overflow_witness :
  get_avg_salary no_faults
    (mkDatabase [mkCompany 5 "Acme" None 3]
       [salaried 1 5 (Some 100000) None;
        salaried 2 5 (Some 2000000000) (Some 2000000000)]) = Return None.
Proof.
  assert (O : ~ fits_int4 (salaried 2 5 (Some 2000000000) (Some 2000000000)))
    by (unfold fits_int4, int4_min, int4_max; cbn; lia).
  exact (proj1 (salary_queries_overflow
                  (mkDatabase [mkCompany 5 "Acme" None 3]
                     [salaried 1 5 (Some 100000) None;
                      salaried 2 5 (Some 2000000000) (Some 2000000000)])
                  (salaried 2 5 (Some 2000000000) (Some 2000000000))
                  (or_intror (or_introl eq_refl)) O)).
Defined.

Lemma get_avg_salary_within_midpoints_witness :
  (inject_Z 1 <= numeric_value (mkNumeric 20000000000000000 16)
   <= inject_Z 3)%Q.
Proof.
  assert (E : get_avg_salary no_faults
                (mkDatabase [mkCompany 5 "Acme" None 3]
                   [salaried 1 5 (Some 1) (Some 2); salaried 2 5 None None;
                    salaried 3 5 None (Some 7)]) =
              Return (Some (mkNumeric 20000000000000000 16)))
    by (vm_compute; reflexivity).
  apply (get_avg_salary_within_midpoints no_faults _ _ 1 3 E).
  intros v [<- | [<- | [<- | []]]] S; try discriminate S;
    unfold integer_midpoint; cbn; lia.
Defined.

Lemma get_avg_salary_after_writes_witness :
  get_avg_salary no_faults
    (snd (store_vacancy iso_timestamp no_faults
            (mkDatabase [mkCompany 5 "Acme" None 3]
               [salaried 1 5 (Some 100000) None])
            (salaried 2 5 None None))) =
  get_avg_salary no_faults
    (mkDatabase [mkCompany 5 "Acme" None 3]
       [salaried 1 5 (Some 100000) None]).
Proof.
  apply (proj2 (get_avg_salary_after_writes iso_timestamp no_faults
                  no_faults
                  (mkDatabase [mkCompany 5 "Acme" None 3]
                     [salaried 1 5 (Some 100000) None])));
    reflexivity.
Defined.

Lemma clear_tables_empties_witness :
  get_avg_salary no_faults
    (snd (clear_tables no_faults
            (mkDatabase [mkCompany 5 "Acme" None 3]
               [salaried 1 5 (Some 100000) None]))) = Return None.
Proof.
  apply (proj2 (clear_tables_empties iso_timestamp) no_faults
           (mkDatabase [mkCompany 5 "Acme" None 3]
              [salaried 1 5 (Some 100000) None])).
  reflexivity.
Defined.

Lemma stored_vacancy_is_listed_witness :
  exists stored c rows,
    vacancy_taken iso_timestamp
      (mkVacancyRow 11 5 "Developer" (Some 100) None (Some "RUB        ")
         None None None None None (Some "2024-01-01T00:00:00"))
      stored /\
    In c (companies
            (mkDatabase [mkCompany 5 "Acme" None 3]
               [mkVacancyRow 11 5 "Developer" (Some 100) None
                  (Some "RUB       ") None None None None None
                  (Some "2024-01-01T00:00:00")])) /\
    c_company_id c = 5 /\
    get_all_vacancies String.leb no_faults
      (mkDatabase [mkCompany 5 "Acme" None 3]
         [mkVacancyRow 11 5 "Developer" (Some 100) None
            (Some "RUB       ") None None None None None
            (Some "2024-01-01T00:00:00")]) = Return rows /\
    In (mkListing (c_name c) (v_name stored) (Some 100) None
          (v_currency stored) (v_url stored)) rows.
Proof.
  apply (stored_vacancy_is_listed iso_timestamp String.leb no_faults
           one_company
           (mkDatabase [mkCompany 5 "Acme" None 3]
              [mkVacancyRow 11 5 "Developer" (Some 100) None
                 (Some "RUB       ") None None None None None
                 (Some "2024-01-01T00:00:00")])
           (mkVacancyRow 11 5 "Developer" (Some 100) None
              (Some "RUB        ") None None None None None
              (Some "2024-01-01T00:00:00"))); reflexivity.
Defined.

Lemma get_all_vacancies_lists_each_once_witness :
  exists rows,
    get_all_vacancies String.leb no_faults
      (mkDatabase [mkCompany 6 "Bolt" None 0; mkCompany 5 "Acme" None 3]
         [salaried 1 6 None None; salaried 2 5 None None]) = Return rows /\
    List.length rows = 2%nat.
Proof.
  destruct (get_all_vacancies_lists_each_once String.leb
              (mkDatabase [mkCompany 6 "Bolt" None 0; mkCompany 5 "Acme" None 3]
                 [salaried 1 6 None None; salaried 2 5 None None]))
    as (rows & H & _ & L & _).
  - split.
    + split; repeat constructor; simpl; intuition discriminate.
    + intros v [<- | [<- | []]]; reflexivity.
  - exists rows. split; [ exact H | exact L ].
Defined.

Lemma get_vacancies_with_higher_salary_rows_witness :
  get_vacancies_with_higher_salary no_faults
    (mkDatabase [mkCompany 5 "Acme" None 3]
       [salaried 1 5 (Some 100) (Some 200); salaried 2 5 (Some 300) None]) =
  Return [].
Proof.
  destruct (get_vacancies_with_higher_salary no_faults
              (mkDatabase [mkCompany 5 "Acme" None 3]
                 [salaried 1 5 (Some 100) (Some 200);
                  salaried 2 5 (Some 300) None])) as [rows | e] eqn:E.
  - f_equal.
    apply (proj1 (proj2 (get_vacancies_with_higher_salary_rows _ _ rows E))
             150).
    intros v [<- | [<- | []]] _; reflexivity.
  - vm_compute in E. discriminate E.
Defined.

(** The order of the bytes is the order of a collation. *)
Lemma string_compare_trans (a : string) :
  forall b c,
    String.compare a b <> Gt -> String.compare b c <> Gt ->
    String.compare a c <> Gt.
Proof.
  induction a as [ | x a IH]; intros [ | y b] [ | z c]; cbn;
    try congruence.
  unfold Ascii.compare.
  destruct (N.compare_spec (N_of_ascii x) (N_of_ascii y)),
    (N.compare_spec (N_of_ascii y) (N_of_ascii z)),
    (N.compare_spec (N_of_ascii x) (N_of_ascii z));
    try congruence; try lia.
  apply IH.
Qed.

Lemma string_leb_preorder : total_preorder String.leb.
Proof.
  split; [ exact String.leb_total | ].
  intros a b c. unfold String.leb.
  pose proof (string_compare_trans a b c) as T.
  destruct (String.compare a b), (String.compare b c),
    (String.compare a c); intros H1 H2; try reflexivity;
    try discriminate H1; try discriminate H2;
    (exfalso; apply T; [ discriminate | discriminate | reflexivity ]).
Qed.

Lemma keyword_search_on_plain_keywords_witness :
  exists rows,
    get_vacancies_with_keyword String.leb ascii_lower no_faults
      (mkDatabase [mkCompany 6 "Bolt" None 0; mkCompany 5 "Acme" None 3]
         [mkVacancyRow 1 6 "Python tester" None None None None None None
            None None None;
          mkVacancyRow 2 5 "Senior PYTHON developer" None None None None
            None None None None None;
          mkVacancyRow 3 5 "Accountant" None None None None None None None
            None None;
          mkVacancyRow 4 5 "Junior python developer" None None None None
            None None None None None]) "Python" = Return rows /\
    rows = [mkListing "Acme" "Junior python developer" None None None None;
            mkListing "Acme" "Senior PYTHON developer" None None None None;
            mkListing "Bolt" "Python tester" None None None None] /\
    StronglySorted (in_name_order String.leb) rows.
Proof.
  destruct (proj2 (keyword_search_on_plain_keywords String.leb ascii_lower
                     "Python" eq_refl
                     ltac:(unfold plain; cbn;
                           repeat (apply Forall_cons;
                                   [ repeat split; discriminate | ]);
                           apply Forall_nil)
                     eq_refl)
              (mkDatabase
                 [mkCompany 6 "Bolt" None 0; mkCompany 5 "Acme" None 3]
                 [mkVacancyRow 1 6 "Python tester" None None None None None
                    None None None None;
                  mkVacancyRow 2 5 "Senior PYTHON developer" None None None
                    None None None None None None;
                  mkVacancyRow 3 5 "Accountant" None None None None None
                    None None None None;
                  mkVacancyRow 4 5 "Junior python developer" None None None
                    None None None None None None]))
    as (rows & H & _ & S).
  exists rows. split; [ exact H | ].
  split; [ | exact (S string_leb_preorder) ].
  vm_compute in H. now injection H.
Defined.

Lemma keyword_search_wildcards_witness :
  get_vacancies_with_keyword String.leb ascii_lower no_faults
    (mkDatabase [mkCompany 5 "Acme" None 3]
       [salaried 1 5 None None; salaried 2 5 None None]) "%" =
  Return [mkListing "Acme" "Developer" None None None None;
          mkListing "Acme" "Developer" None None None None].
Proof.
  rewrite (proj1 (keyword_search_wildcards String.leb ascii_lower) eq_refl).
  reflexivity.
Defined.

Lemma add_vacancies_stores_new_batch_witness :
  add_vacancies iso_timestamp (fun _ => no_faults) 0 one_company
    [salaried 1 5 None None; salaried 2 5 (Some 100) None] 0 =
  (Return 2,
   mkDatabase [mkCompany 5 "Acme" None 3]
     [salaried 1 5 None None; salaried 2 5 (Some 100) None]).
Proof.
  apply (add_vacancies_stores_new_batch iso_timestamp one_company
           [salaried 1 5 None None; salaried 2 5 (Some 100) None]).
  - repeat (apply Forall_cons;
            [ apply salaried_fits;
              unfold fits_integer, int4_min, int4_max; cbn; try lia;
              exact I | ]).
    apply Forall_nil.
  - repeat constructor; simpl; intuition discriminate.
  - intros v [<- | [<- | []]]; split; reflexivity.
Defined.

Lemma add_vacancies_counts_and_aborts_witness :
  add_vacancies iso_timestamp (fun _ => no_faults) 0 one_company
    [salaried 1 5 None None; nul_named 2 5; salaried 3 5 None None] 0 =
  (Raise ValueError,
   mkDatabase [mkCompany 5 "Acme" None 3] [salaried 1 5 None None]).
Proof.
  apply (proj2 (add_vacancies_counts_and_aborts iso_timestamp
                  (fun _ => no_faults))
           [salaried 1 5 None None] (nul_named 2 5)
           [salaried 3 5 None None] 0%nat one_company 0 1
           (mkDatabase [mkCompany 5 "Acme" None 3] [salaried 1 5 None None]));
    reflexivity.
Defined.

Lemma salary_str_zero_is_absent_witness :
  salary_str (Some 0) (Some 90000) (Some "RUR") =
  AtMost (Some 90000) (Some "RUR").
Proof.
  apply (proj1 (proj2 (salary_str_zero_is_absent (Some 0) (Some 90000)
                         (Some "RUR")))).
  discriminate.
Defined.

Lemma display_all_vacancies_no_data_witness :
  display_all_vacancies String.leb statement_fails
    (mkDatabase [mkCompany 5 "Acme" None 3] [salaried 1 5 (Some 0) None]) =
    Return None /\
  display_all_vacancies String.leb no_faults
    (mkDatabase [mkCompany 5 "Acme" None 3] [salaried 1 5 (Some 0) None]) =
    Return (Some [("Acme", "Developer", NotSpecified, None)]).
Proof.
  split; [ | reflexivity ].
  apply (proj1 (display_all_vacancies_no_data String.leb _)).
  - unfold faults_are_pg, pg_or_none. simpl. tauto.
  - split; reflexivity.
  - unfold query_interrupted. simpl. right. right. left. discriminate.
Defined.

End StoreMoreExamples.
